(** * ngsutils: BAM statistics and clipping removal

    A shallow embedding of [bam_utils/bam_stats.py] (the bucketed range
    index [RangeMatch], the histogram [FeatureBin], the read classifier
    [RegionTagger] and the flag report of [bam_stats]) and of
    [ngsutils/bam/removeclipping.py] (the per-read body of
    [bam_removeclipping]), followed by the properties established about
    them.

    Python integers are [Z]; the Python 2 integer division [/] is floor
    division, which is [Z.div] for the positive divisor used here.
    Python floats are the rationals that are doubles, and the float
    operations of [mean] and of the ZC tag round their exact result to
    the nearest double; the percentages of the two reports, of which
    one decimal is printed, are kept as exact quotients.
    Dictionaries are [gmap]s, the [names] set is a [gset], Python
    exceptions are the [Raise] outcomes of the [pyerr] type. *)

From Stdlib Require Import ZArith QArith Qround Qpower Qabs Lia Lqa List
  Ascii String Permutation.
From Stdlib Require Qcanon.
From stdpp Require Import base gmap strings list fin_maps sorting.

Local Open Scope string_scope.
Local Open Scope list_scope.
Local Open Scope Z_scope.

(* ===================================================================== *)
(** * Doubles                                                            *)
(* ===================================================================== *)

Module Float.

(** A double is a rational [m * 2^u] with an integer [m] of at most 53
    bits.  Infinities and NaN have no counterpart here: the exponent has
    no upper bound, so a result of magnitude [2^1024] or more, which
    would overflow, is rounded like any other. *)

(** The integer nearest to [x]; of two that are equally near, the even
    one. *)
Definition rne (x : Q) : Z :=
  let f := Qfloor x in
  match Qcompare (x - inject_Z f) (1 # 2) with
  | Lt => f
  | Gt => f + 1
  | Eq => if Z.even f then f else f + 1
  end.

(** For [q > 0], the exponent [e] with [2^e <= q < 2^(e+1)]. *)
Definition binade (q : Q) : Z :=
  let e0 := Z.log2 (Qnum q) - Z.log2 (Zpos (Qden q)) in
  if Qle_bool (2 ^ e0) q then e0 else e0 - 1.

(** The exponent of the last of the 53 bits of the double nearest to
    [q > 0]; no double has bits below [2^-1074]. *)
Definition ulp_exp (q : Q) : Z := Z.max (binade q - 52) (-1074).

Definition round_pos (q : Q) : Q :=
  let u := ulp_exp q in
  Qred (inject_Z (rne (q / 2 ^ u)) * 2 ^ u).

(** The double nearest to [q], ties to even: the rounding of every
    float operation. *)
Definition round (q : Q) : Q :=
  match Qnum q with
  | Z0 => 0
  | Zpos _ => round_pos q
  | Zneg _ => - round_pos (- q)
  end.

(** [float(z)], and the conversion of an integer operand of a float
    operation. *)
Definition of_int (z : Z) : Q := round (inject_Z z).

End Float.

(* ===================================================================== *)
(** * Python values, exceptions and slices                               *)
(* ===================================================================== *)

Module Py.

(** The exceptions the modelled code can raise. *)
Inductive exn := KeyError | TypeError | ValueError | ZeroDivisionError.

Inductive pyerr (A : Type) :=
| Ok (a : A)
| Raise (e : exn).
Arguments Ok {A} a.
Arguments Raise {A} e.

Definition bind {A B} (c : pyerr A) (k : A -> pyerr B) : pyerr B :=
  match c with
  | Ok a => k a
  | Raise e => Raise e
  end.

(** The values a tag, a tally key or an accumulator can hold: integers,
    strings and floats.  A float is the rational its double stands
    for. *)
Inductive pyval :=
| PyInt (z : Z)
| PyStr (s : string)
| PyFloat (q : Q).

Definition is_numeric (v : pyval) : bool :=
  match v with
  | PyStr _ => false
  | _ => true
  end.

(** The rational a number stands for ([0] for a string). *)
Definition to_Q (v : pyval) : Q :=
  match v with
  | PyInt z => inject_Z z
  | PyFloat q => q
  | PyStr _ => 0%Q
  end.

(** Truth value of an object: [0], [0.0] and the empty string are false. *)
Definition truthy (v : pyval) : bool :=
  match v with
  | PyInt z => negb (z =? 0)
  | PyStr s => negb (bool_decide (s = ""))
  | PyFloat q => negb (Qeq_bool q 0)
  end.

(** [not x] for a variable that holds [None] or a value. *)
Definition not_ (o : option pyval) : bool :=
  match o with
  | None => true
  | Some v => negb (truthy v)
  end.

(** [a == b], as the dictionary lookup uses it. *)
Definition eqb (a b : pyval) : bool :=
  match a, b with
  | PyInt x, PyInt y => x =? y
  | PyStr x, PyStr y => bool_decide (x = y)
  | PyStr _, _ | _, PyStr _ => false
  | _, _ => Qeq_bool (to_Q a) (to_Q b)
  end.

Definition Qltb (p q : Q) : bool :=
  match Qcompare p q with
  | Lt => true
  | _ => false
  end.

(** [a < b] of Python 2: numbers by value, strings by character codes,
    and a number below every string. *)
Definition ltb (a b : pyval) : bool :=
  match a, b with
  | PyInt x, PyInt y => x <? y
  | PyStr x, PyStr y => String.ltb x y
  | PyStr _, _ => false
  | _, PyStr _ => true
  | _, _ => Qltb (to_Q a) (to_Q b)
  end.

Fixpoint str_repeat (s : string) (n : nat) : string :=
  match n with
  | O => ""
  | S n' => s +:+ str_repeat s n'
  end.

(** The float a number is converted to when the other operand of an
    operation is a float ([0] for a string). *)
Definition to_float (v : pyval) : Q :=
  match v with
  | PyInt z => Float.of_int z
  | PyFloat q => q
  | PyStr _ => 0%Q
  end.

(** [k * n] for an integer [n]: an exact product of integers, a rounded
    product of floats, or a repeated string. *)
Definition mul_int (k : pyval) (n : Z) : pyval :=
  match k with
  | PyInt z => PyInt (z * n)
  | PyFloat q => PyFloat (Float.round (q * Float.of_int n))
  | PyStr s => PyStr (str_repeat s (Z.to_nat n))
  end.

(** [a + b]: exact on integers, rounded as soon as one operand is a
    float; a number and a string do not add. *)
Definition add (a b : pyval) : pyerr pyval :=
  match a, b with
  | PyInt x, PyInt y => Ok (PyInt (x + y))
  | PyStr x, PyStr y => Ok (PyStr (x +:+ y))
  | PyStr _, _ | _, PyStr _ => Raise TypeError
  | _, _ => Ok (PyFloat (Float.round (to_float a + to_float b)))
  end.

(** [float(a) / n] for an integer [n]: both operands as doubles, and
    the quotient rounded.  (An integer of [2^1024] or more has no
    double, and its conversion raises [OverflowError]: no length or
    count comes near.) *)
Definition float_div (a : pyval) (n : Z) : pyerr pyval :=
  match a with
  | PyStr _ => Raise ValueError
  | _ => if n =? 0 then Raise ZeroDivisionError
         else Ok (PyFloat (Float.round (to_float a / Float.of_int n)))
  end.

(** Index normalisation of a slice bound, for a sequence of length
    [len]: a negative bound counts from the end, and both directions are
    clamped. *)
Definition norm_index (len i : Z) : Z :=
  if i <? 0 then Z.max 0 (i + len) else Z.min i len.

(** [s[lo:hi]]; [hi = None] is the omitted bound of [s[lo:]]. *)
Definition slice {A} (lo : Z) (hi : option Z) (s : list A) : list A :=
  let n := Z.of_nat (length s) in
  let a := norm_index n lo in
  let b := match hi with
           | Some h => norm_index n h
           | None => n
           end in
  drop (Z.to_nat a) (take (Z.to_nat b) s).

(** [len(s)] *)
Definition len {A} (s : list A) : Z := Z.of_nat (length s).

End Py.

(** [pyerr] is a monad; stdpp's [x ← c; k] notation is used on it. *)
#[global] Instance pyerr_ret : MRet Py.pyerr := @Py.Ok.
#[global] Instance pyerr_bind : MBind Py.pyerr :=
  fun A B k c => Py.bind c k.

(* ===================================================================== *)
(** * Alignment records                                                  *)
(* ===================================================================== *)

Module Read.

(** The attributes of a pysam read that the two programs use.  A Python
    string that is sliced is a list of characters; [rname] is the
    reference name, that is [bamfile.getrname(read.rname)].  For a read
    without a quality string pysam gives [None], never an empty string:
    the empty list in [qual] stands for that [None]. *)
Record t := mk {
  qname : string;
  flag : Z;
  rname : string;
  pos : Z;
  mapq : Z;
  cigar : list (Z * Z);
  seq : list ascii;
  qual : list ascii;
  tags : list (string * Py.pyval)
}.

(** Flag bit [0x4]. *)
Definition is_unmapped (r : t) : bool := Z.testbit (flag r) 2.

(** Flag bit [0x10]. *)
Definition is_reverse (r : t) : bool := Z.testbit (flag r) 4.

(** [read.opt(tag)]: the value of the first tag of that name. *)
Fixpoint lookup_tag (tg : string) (l : list (string * Py.pyval))
    : Py.pyerr Py.pyval :=
  match l with
  | [] => Py.Raise Py.KeyError
  | (k, v) :: l' => if bool_decide (k = tg) then Py.Ok v else lookup_tag tg l'
  end.

Definition opt (r : t) (tg : string) : Py.pyerr Py.pyval :=
  lookup_tag tg (tags r).

End Read.

(* ===================================================================== *)
(** * RangeMatch: bucketed genomic ranges                                *)
(* ===================================================================== *)

Module RangeMatch.

(** A stored range is the tuple [(start, end, strand)]. *)
Definition interval : Type := Z * Z * string.

Record t := mk {
  ranges : gmap string (gmap Z (list interval));
  name : string
}.

(** [__init__] *)
Definition init (nm : string) : t := {| ranges := ∅; name := nm |}.

(** The body shared by the two places that fill a bin:
    [if not bin in d: d[bin] = []] and [d[bin].insert(0, iv)],
    on the dictionary [d = self.ranges[chrom]]. *)
Definition push_bin (bin : Z) (iv : interval)
    (d : gmap Z (list interval)) : gmap Z (list interval) :=
  let d1 := if decide (is_Some (d !! bin)) then d else <[bin := []]> d in
  <[bin := iv :: (d1 !!! bin)]> d1.

(** [xrange(a, b)] *)
Definition xrange (a b : Z) : list Z := seqZ a (b - a).

Definition add_range (rm : t) (chrom strand : string) (start end_ : Z) : t :=
  let rs := if decide (is_Some (ranges rm !! chrom)) then ranges rm
            else <[chrom := ∅]> (ranges rm) in
  let iv : interval := (start, end_, strand) in
  let bin := start / 100000 in
  let d1 := push_bin bin iv (rs !!! chrom) in
  let d2 := if decide (end_ / 100000 ≠ bin)
            then foldl (fun d b => push_bin b iv d) d1
                       (xrange (bin + 1) (end_ / 100000 + 1))
            else d1 in
  {| ranges := <[chrom := d2]> rs; name := name rm |}.

(** The [for start, end, r_strand in ...] loop of [get_tag] together with
    the two statements after it; [rev_match] is the loop's flag. *)
Fixpoint scan (nm strand : string) (pos : Z) (ignore_strand : bool)
    (rev_match : bool) (l : list interval) : option string :=
  match l with
  | [] => if rev_match then Some (nm +:+ "-rev") else None
  | (start, end_, r_strand) :: l' =>
      if (start <=? pos) && (pos <=? end_) then
        if ignore_strand || bool_decide (strand = r_strand) then Some nm
        else scan nm strand pos ignore_strand true l'
      else scan nm strand pos ignore_strand rev_match l'
  end.

Definition get_tag (rm : t) (chrom strand : string) (pos : Z)
    (ignore_strand : bool) : option string :=
  match ranges rm !! chrom with
  | None => None
  | Some d =>
      match d !! (pos / 100000) with
      | None => None
      | Some l => scan (name rm) strand pos ignore_strand false l
      end
  end.

(** The content of one bin of one chromosome, empty when either key is
    missing. *)
Definition bucket (rm : t) (chrom : string) (bin : Z) : list interval :=
  match ranges rm !! chrom with
  | None => []
  | Some d => default [] (d !! bin)
  end.

(** The bins an [add_range] call touches: the bin of [start], and the
    bins of the [xrange] loop. *)
Definition touched (start end_ bin : Z) : Prop :=
  bin = start / 100000 ∨ start / 100000 < bin <= end_ / 100000.

#[global] Instance touched_dec s e b : Decision (touched s e b).
Proof. unfold touched. apply _. Defined.

(** One [add_range] call, as data. *)
Record call := Call {
  c_chrom : string;
  c_strand : string;
  c_start : Z;
  c_end : Z
}.

Definition apply_call (rm : t) (c : call) : t :=
  add_range rm (c_chrom c) (c_strand c) (c_start c) (c_end c).

(** The index named [nm] after the calls [cs], made in that order. *)
Definition build (nm : string) (cs : list call) : t :=
  foldl apply_call (init nm) cs.

(** The point [pos] lies in the closed range of the call. *)
Definition covers (c : call) (pos : Z) : Prop :=
  c_start c <= pos <= c_end c.

End RangeMatch.

(* ===================================================================== *)
(** * FeatureBin: the tally of one tag                                   *)
(* ===================================================================== *)

Module FeatureBin.

(** [bins] is the dictionary from observed value to count, kept as an
    association list with one entry per key, in the order of first
    insertion.  The order in which Python walks a dictionary is not
    specified: what is proved of [mean] is proved for every ordering of
    the entries. *)
Record t := mk {
  tag : string;
  asc : bool;
  bins : list (Py.pyval * Z);
  _keys : list Py.pyval;
  _min : option Py.pyval;
  _max : option Py.pyval;
  cur_pos : Z
}.

(** [tag.split(':')]: the pieces between the colons, with the piece
    being read in [cur]. *)
Fixpoint split_colon (s : string) (cur : string) : list string :=
  match s with
  | EmptyString => [cur]
  | String c s' =>
      if bool_decide (c = ":"%char) then cur :: split_colon s' ""
      else split_colon s' (cur +:+ String c "")
  end.

(** [__init__] *)
Definition init (tg : string) : t :=
  let spl := split_colon tg "" in
  {| tag := default "" (head spl);
     asc := match spl with
            | _ :: d :: _ => bool_decide (d = "+")
            | _ => true
            end;
     bins := [];
     _keys := [];
     _min := None;
     _max := None;
     cur_pos := -1 |}.

(** [val in self.bins] *)
Definition mem (val : Py.pyval) (d : list (Py.pyval * Z)) : bool :=
  existsb (fun kv => Py.eqb kv.1 val) d.

(** [self.bins[val] += 1], for a key that is present. *)
Fixpoint incr (val : Py.pyval) (d : list (Py.pyval * Z))
    : list (Py.pyval * Z) :=
  match d with
  | [] => []
  | (k, n) :: d' =>
      if Py.eqb k val then (k, n + 1) :: d' else (k, n) :: incr val d'
  end.

(** [x < y] where [x] holds a value ([not x] was tested before). *)
Definition lt_opt (x : option Py.pyval) (y : Py.pyval) : bool :=
  match x with
  | Some v => Py.ltb v y
  | None => false
  end.

Definition gt_opt (x : option Py.pyval) (y : Py.pyval) : bool :=
  match x with
  | Some v => Py.ltb y v
  | None => false
  end.

(** The body of [add] from [if not val in self.bins] on. *)
Definition add_val (fb : t) (val : Py.pyval) : t :=
  let fresh := negb (mem val (bins fb)) in
  let bins1 := if fresh then (bins fb ++ [(val, 0)]) else bins fb in
  let keys1 := if fresh then (_keys fb ++ [val]) else _keys fb in
  let bins2 := incr val bins1 in
  let min1 := if Py.not_ (_min fb) || gt_opt (_min fb) val
              then Some val else _min fb in
  let max1 := if Py.not_ (_max fb) || lt_opt (_max fb) val
              then Some val else _max fb in
  {| tag := tag fb; asc := asc fb; bins := bins2; _keys := keys1;
     _min := min1; _max := max1; cur_pos := cur_pos fb |}.

Section Add.
(** [read_calc_mismatches] is imported from another module of the
    package and is taken as given. *)
Variable read_calc_mismatches : Read.t → Py.pyerr Py.pyval.

(** The value [add] tallies for a read. *)
Definition observe (fb : t) (read : Read.t) : Py.pyerr Py.pyval :=
  if bool_decide (tag fb = "LENGTH") || bool_decide (tag fb = "LEN")
  then Py.Ok (Py.PyInt (Py.len (Read.seq read)))
  else if bool_decide (tag fb = "MAPQ")
  then Py.Ok (Py.PyInt (Read.mapq read))
  else if bool_decide (tag fb = "MISMATCH")
  then read_calc_mismatches read
  else Read.opt read (tag fb).

Definition add (fb : t) (read : Read.t) : Py.pyerr t :=
  val ← observe fb read;
  Py.Ok (add_val fb val).
End Add.

(** The loop of [mean] over the entries in the order [entries]; [None]
    is the [except] branch, which leaves [mean] with [return 0]. *)
Fixpoint mean_loop (entries : list (Py.pyval * Z)) (acc : Py.pyval)
    (count : Z) : option (Py.pyval * Z) :=
  match entries with
  | [] => Some (acc, count)
  | (k, n) :: rest =>
      match Py.add acc (Py.mul_int k n) with
      | Py.Raise _ => None
      | Py.Ok acc' => mean_loop rest acc' (count + n)
      end
  end.

(** [mean], for the dictionary walked in the order [entries]. *)
Definition mean_of (entries : list (Py.pyval * Z)) : Py.pyerr Py.pyval :=
  match mean_loop entries (Py.PyInt 0) 0 with
  | None => Py.Ok (Py.PyInt 0)
  | Some (acc, count) => Py.float_div acc count
  end.

Definition mean (fb : t) : Py.pyerr Py.pyval := mean_of (bins fb).

Definition max (fb : t) : option Py.pyval := _max fb.

(** The distribution of tag [tg] after the values [vals] were added in
    that order. *)
Definition of_values (tg : string) (vals : list Py.pyval) : t :=
  foldl add_val (init tg) vals.

(** Sum of value times count, and sum of counts, of a list of entries. *)
Definition weighted_sum (entries : list (Py.pyval * Z)) : Q :=
  foldr (fun kv acc => (Py.to_Q kv.1 * inject_Z kv.2 + acc)%Q) 0%Q entries.

Definition count_sum (entries : list (Py.pyval * Z)) : Z :=
  foldr (fun kv acc => kv.2 + acc) 0 entries.

(** Sum of a list of added values. *)
Definition values_sum (vals : list Py.pyval) : Q :=
  foldr (fun v acc => (Py.to_Q v + acc)%Q) 0%Q vals.

End FeatureBin.

(* ===================================================================== *)
(** * RegionTagger: one category per mapped read                         *)
(* ===================================================================== *)

Module RegionTagger.

(** The gene model as the RefIso loader presents it. *)
Record Transcript := mkTranscript {
  exon_starts : list Z;
  exon_ends : list Z
}.

Record Gene := mkGene {
  chrom : string;
  strand : string;
  tx_start : Z;
  tx_end : Z;
  transcripts : list Transcript
}.

Record t := mk {
  regions : list RangeMatch.t;
  counts : gmap string Z
}.

(** The three indexes under construction. *)
Record indexes := mkIndexes {
  exons : RangeMatch.t;
  introns : RangeMatch.t;
  promoters : RangeMatch.t
}.

(** [if last_end:] is false for [None] and for [0]. *)
Definition last_end_set (last_end : option Z) : bool :=
  match last_end with
  | Some e => negb (e =? 0)
  | None => false
  end.

(** One round of [for start, end in zip(exon_starts, exon_ends)]. *)
Definition exon_step (g : Gene) (st : indexes * option Z) (se : Z * Z)
    : indexes * option Z :=
  let '(ix, last_end) := st in
  let '(start, end_) := se in
  let introns1 :=
    if last_end_set last_end
    then RangeMatch.add_range (introns ix) (chrom g) (strand g)
           (default 0 last_end) start
    else introns ix in
  let exons1 := RangeMatch.add_range (exons ix) (chrom g) (strand g)
                  start end_ in
  (mkIndexes exons1 introns1 (promoters ix), Some end_).

Definition transcript_step (g : Gene) (ix : indexes) (tr : Transcript)
    : indexes :=
  (foldl (exon_step g) (ix, None) (zip (exon_starts tr) (exon_ends tr))).1.

Definition gene_step (chroms : list string) (ix : indexes) (g : Gene)
    : indexes :=
  if negb (bool_decide (chrom g ∈ chroms)) then ix
  else
    let promoters1 :=
      if bool_decide (strand g = "+")
      then RangeMatch.add_range (promoters ix) (chrom g) (strand g)
             (tx_start g - 2000) (tx_start g)
      else RangeMatch.add_range (promoters ix) (chrom g) (strand g)
             (tx_end g) (tx_end g + 2000) in
    foldl (transcript_step g)
          (mkIndexes (exons ix) (introns ix) promoters1) (transcripts g).

Definition categories : list string :=
  ["exon"; "intron"; "promoter"; "exon-rev"; "intron-rev"; "promoter-rev";
   "junction"; "intergenic"; "mitochondrial"].

(** The [for gene in refiso.genes] loop of [__init__]. *)
Definition build_indexes (genes : list Gene) (chroms : list string)
    : indexes :=
  foldl (gene_step chroms)
    (mkIndexes (RangeMatch.init "exon") (RangeMatch.init "intron")
               (RangeMatch.init "promoter")) genes.

(** [__init__], from the genes of the model and the references of the
    BAM file. *)
Definition init (genes : list Gene) (chroms : list string) : t :=
  let ix := build_indexes genes chroms in
  {| regions := [exons ix; introns ix; promoters ix];
     counts := foldl (fun m k => <[k := 0]> m) ∅ categories |}.

(** Truth value of [tag], which holds [None] or a string. *)
Definition tag_set (tag : option string) : bool :=
  match tag with
  | Some s => negb (bool_decide (s = ""))
  | None => false
  end.

(** [for op, length in read.cigar: if op == 3: tag = 'junction'; break] *)
Fixpoint junction_loop (cigar : list (Z * Z)) (tag : option string)
    : option string :=
  match cigar with
  | [] => tag
  | (op, _) :: rest =>
      if op =? 3 then Some "junction" else junction_loop rest tag
  end.

(** [for region in self.regions: tag = region.get_tag(...);
     if tag: break] *)
Fixpoint regions_loop (rs : list RangeMatch.t) (chrom strand : string)
    (pos : Z) (tag : option string) : option string :=
  match rs with
  | [] => tag
  | region :: rest =>
      let tag1 := RangeMatch.get_tag region chrom strand pos false in
      if tag_set tag1 then tag1 else regions_loop rest chrom strand pos tag1
  end.

(** The tag [add_read] settles on for a mapped read. *)
Definition choose_tag (tg : t) (read : Read.t) (chrom : string)
    : option string :=
  let strand := if Read.is_reverse read then "-" else "+" in
  let tag0 : option string :=
    if bool_decide (chrom = "chrM") then Some "mitochondrial" else None in
  let tag1 := if negb (tag_set tag0)
              then junction_loop (Read.cigar read) tag0 else tag0 in
  let tag2 := if negb (tag_set tag1)
              then regions_loop (regions tg) chrom strand (Read.pos read) tag1
              else tag1 in
  if negb (tag_set tag2) then Some "intergenic" else tag2.

Definition add_read (tg : t) (read : Read.t) (chrom : string)
    : Py.pyerr t :=
  if Read.is_unmapped read then Py.Ok tg
  else
    let tag := choose_tag tg read chrom in
    if tag_set tag then
      let key := default "" tag in
      match counts tg !! key with
      | None => Py.Raise Py.KeyError
      | Some n => Py.Ok {| regions := regions tg;
                           counts := <[key := n + 1]> (counts tg) |}
      end
    else Py.Ok tg.

(** Feeding the reads of a list, each with its reference name. *)
Fixpoint add_reads (tg : t) (rs : list (Read.t * string)) : Py.pyerr t :=
  match rs with
  | [] => Py.Ok tg
  | (read, chrom) :: rest =>
      tg1 ← add_read tg read chrom;
      add_reads tg1 rest
  end.

(** The sum of the nine counters. *)
Definition total (tg : t) : Z :=
  foldr (fun k acc => (counts tg !!! k) + acc) 0 categories.

Definition mapped_reads (rs : list (Read.t * string)) : Z :=
  Z.of_nat (length (filter (fun rc => Read.is_unmapped rc.1 = false) rs)).

(** The category of a mapped read, in the words of the specification:
    mitochondrial for chrM; else junction when some cigar operation has
    code 3; else the first answer other than [None] among the exon, the
    intron and the promoter index, asked in this order at the read's
    start for the read's strand; else intergenic. *)
Definition category (exon_ix intron_ix promoter_ix : RangeMatch.t)
    (read : Read.t) (chrom : string) : string :=
  let strand := if Read.is_reverse read then "-" else "+" in
  let ask ix := RangeMatch.get_tag ix chrom strand (Read.pos read) false in
  if bool_decide (chrom = "chrM") then "mitochondrial"
  else if existsb (fun ol => ol.1 =? 3) (Read.cigar read) then "junction"
  else match ask exon_ix with
       | Some c => c
       | None =>
           match ask intron_ix with
           | Some c => c
           | None =>
               match ask promoter_ix with
               | Some c => c
               | None => "intergenic"
               end
           end
       end.

(** The three indexes carry the names [__init__] gave them. *)
Definition named (ix : indexes) : Prop :=
  RangeMatch.name (exons ix) = "exon"
  ∧ RangeMatch.name (introns ix) = "intron"
  ∧ RangeMatch.name (promoters ix) = "promoter".

(** What holds of a tagger built over the indexes [ix], at every point
    of its life: its regions are the three indexes, and each of the nine
    categories has a counter. *)
Definition built_over (ix : indexes) (tg : t) : Prop :=
  regions tg = [exons ix; introns ix; promoters ix]
  ∧ ∀ k, k ∈ categories → is_Some (counts tg !! k).

(** The tagger after the counter [key] went from [n] to [n + 1]. *)
Definition bump (tg : t) (key : string) (n : Z) : t :=
  {| regions := regions tg; counts := <[key := n + 1]> (counts tg) |}.

End RegionTagger.

(* ===================================================================== *)
(** * bam_stats: the pass over the reads and the flag report             *)
(* ===================================================================== *)

Module BamStats.

Definition flag_descriptions : list (Z * string) :=
  [(0x1, "Multiple fragments");
   (0x2, "All fragments aligned");
   (0x4, "Unmapped");
   (0x8, "Next unmapped");
   (0x10, "Reverse complimented");
   (0x20, "Next reverse complimented");
   (0x40, "First fragment");
   (0x80, "Last fragment");
   (0x100, "Secondary alignment");
   (0x200, "QC Fail");
   (0x400, "PCR/Optical duplicate")].

(** The variables of [bam_stats] that the read loop updates, but for
    the per-reference counters [refs]: [WholePass] below adds them, with
    the exception their update can raise.  The progress display is left
    out. *)
Record state := mk {
  flag_counts : gmap Z Z;
  names : gset string;
  total : Z;
  mapped : Z;
  unmapped : Z;
  regiontagger : option RegionTagger.t;
  tagbins : list FeatureBin.t
}.

Definition init (tagger : option RegionTagger.t) (tags : list string)
    : state :=
  {| flag_counts := ∅; names := ∅; total := 0; mapped := 0; unmapped := 0;
     regiontagger := tagger; tagbins := map FeatureBin.init tags |}.

Section Pass.
Variable read_calc_mismatches : Read.t → Py.pyerr Py.pyval.

(** [for tagbin in tagbins: tagbin.add(read)] *)
Fixpoint add_all (fbs : list FeatureBin.t) (read : Read.t)
    : Py.pyerr (list FeatureBin.t) :=
  match fbs with
  | [] => Py.Ok []
  | fb :: rest =>
      fb1 ← FeatureBin.add read_calc_mismatches fb read;
      rest1 ← add_all rest read;
      Py.Ok (fb1 :: rest1)
  end.

(** The body of [for read in read_gen()], without the update of [refs]
    (see [WholePass.step]). *)
Definition step (st : state) (read : Read.t) : Py.pyerr state :=
  if bool_decide (Read.qname read ∈ names st) then Py.Ok st
  else
    let fc := match flag_counts st !! Read.flag read with
              | None => <[Read.flag read := 1]> (flag_counts st)
              | Some n => <[Read.flag read := n + 1]> (flag_counts st)
              end in
    let names1 := {[Read.qname read]} ∪ names st in
    let total1 := total st + 1 in
    if Read.is_unmapped read then
      Py.Ok {| flag_counts := fc; names := names1; total := total1;
               mapped := mapped st; unmapped := unmapped st + 1;
               regiontagger := regiontagger st; tagbins := tagbins st |}
    else
      tagger1 ← match regiontagger st with
                | None => Py.Ok None
                | Some tg =>
                    tg1 ← RegionTagger.add_read tg read (Read.rname read);
                    Py.Ok (Some tg1)
                end;
      bins1 ← add_all (tagbins st) read;
      Py.Ok {| flag_counts := fc; names := names1; total := total1;
               mapped := mapped st + 1; unmapped := unmapped st;
               regiontagger := tagger1; tagbins := bins1 |}.

Fixpoint run (st : state) (reads : list Read.t) : Py.pyerr state :=
  match reads with
  | [] => Py.Ok st
  | read :: rest =>
      st1 ← step st read;
      run st1 rest
  end.
End Pass.

(** One printed line of the flag distribution: the flag, its
    description, the count, and the percentage [float(count) * 100 /
    total], kept as the exact quotient. *)
Record row := mkRow {
  r_flag : Z;
  r_descr : string;
  r_count : Z;
  r_pct : Q
}.

(** The description keys that are keys of [flag_counts], sorted. *)
Definition listed_flags (fc : gmap Z Z) : list Z :=
  merge_sort Z.le
    (filter (fun flag => is_Some (fc !! flag)) (map fst flag_descriptions)).

(** [for f in flag_counts: if (f & flag) > 0: count += flag_counts[f]] *)
Definition bit_count (fc : gmap Z Z) (flag : Z) : Z :=
  map_fold (fun f n acc => if Z.land f flag >? 0 then acc + n else acc) 0 fc.

Definition describe (flag : Z) : string :=
  default "" (snd <$> list_find (fun d => d.1 = flag) flag_descriptions
              ≫= fun r => Some r.2).

(** The lines printed under "Flag distribution". *)
Definition flag_report (st : state) : list row :=
  if total st >? 0 then
    omap (fun flag =>
            let count := bit_count (flag_counts st) flag in
            if count >? 0
            then Some (mkRow flag (describe flag) count
                         (inject_Z count * 100 / inject_Z (total st))%Q)
            else None)
         (listed_flags (flag_counts st))
  else [].

(** The tenths a ["%.1f"] shows: the percentage to the nearest tenth. *)
Definition tenths (q : Q) : Z := Qfloor (q * inject_Z 10 + (1 # 2))%Q.

End BamStats.

(* ===================================================================== *)
(** * bam_removeclipping: the transform of one read                      *)
(* ===================================================================== *)

Module RemoveClipping.

(** The local variables of the cigar loop. *)
Record vars := mkVars {
  newcigar : list (Z * Z);
  clip_5 : Z;
  clip_3 : Z;
  changed : bool;
  inseq : bool
}.

Definition vars0 : vars :=
  {| newcigar := []; clip_5 := 0; clip_3 := 0; changed := false;
     inseq := false |}.

(** One round of [for op, length in read.cigar]. *)
Definition cigar_step (v : vars) (ol : Z * Z) : vars :=
  let '(op, length) := ol in
  if op =? 5 then
    mkVars (newcigar v) (clip_5 v) (clip_3 v) true (inseq v)
  else if op =? 4 then
    if negb (inseq v)
    then mkVars (newcigar v) length (clip_3 v) true (inseq v)
    else mkVars (newcigar v) (clip_5 v) length true (inseq v)
  else
    mkVars (newcigar v ++ [(op, length)]) (clip_5 v) (clip_3 v)
           (changed v) true.

Definition cigar_loop (cigar : list (Z * Z)) : vars :=
  foldl cigar_step vars0 cigar.

(** [q[lo:hi]] for [q = read.qual]: the [None] of a read without a
    quality string has no slice. *)
Definition qual_slice (lo : Z) (hi : option Z) (q : list ascii)
    : Py.pyerr (list ascii) :=
  match q with
  | [] => Py.Raise Py.TypeError
  | _ => Py.Ok (Py.slice lo hi q)
  end.

(** The body of [for read in bam], up to [out.write(read)]: the read
    that is written, and whether it was altered. *)
Definition transform (read : Read.t) : Py.pyerr (Read.t * bool) :=
  if negb (Read.is_unmapped read) then
    let v := cigar_loop (Read.cigar read) in
    if changed v then
      let orig_length := Py.len (Read.seq read) in
      let s := Read.seq read in
      let q := Read.qual read in
      sq ← (if negb (clip_3 v =? 0)
            then
              qual1 ← qual_slice (clip_5 v) (Some (- clip_3 v)) q;
              Py.Ok (Py.slice (clip_5 v) (Some (- clip_3 v)) s, qual1)
            else
              qual1 ← qual_slice (clip_5 v) None q;
              Py.Ok (Py.slice (clip_5 v) None s, qual1));
      let '(seq1, qual1) := sq in
      let newtags := Read.tags read in
      let newtags1 := if negb (clip_5 v =? 0)
                      then (newtags ++ [("ZA", Py.PyInt (clip_5 v))])
                      else newtags in
      let newtags2 := if negb (clip_3 v =? 0)
                      then (newtags1 ++ [("ZB", Py.PyInt (clip_3 v))])
                      else newtags1 in
      zc ← Py.float_div (Py.PyInt (clip_5 v + clip_3 v)) orig_length;
      Py.Ok ({| Read.qname := Read.qname read;
                Read.flag := Read.flag read;
                Read.rname := Read.rname read;
                Read.pos := Read.pos read;
                Read.mapq := Read.mapq read;
                Read.cigar := newcigar v;
                Read.seq := seq1;
                Read.qual := qual1;
                Read.tags := (newtags2 ++ [("ZC", zc)]) |}, true)
    else Py.Ok (read, false)
  else Py.Ok (read, false).

(** The whole pass: the reads written, [total] and [count]. *)
Fixpoint bam_removeclipping (bam : list Read.t)
    : Py.pyerr (list Read.t * Z * Z) :=
  match bam with
  | [] => Py.Ok ([], 0, 0)
  | read :: rest =>
      ra ← transform read;
      otc ← bam_removeclipping rest;
      let '(read1, altered) := ra in
      let '(out, total, count) := otc in
      Py.Ok (read1 :: out, total + 1,
             if (altered : bool) then count + 1 else count)
  end.

(** The lengths of the soft clips (code 4) of a cigar. *)
Definition soft_lengths (cigar : list (Z * Z)) : list Z :=
  map snd (filter (fun ol => ol.1 = 4) cigar).

(** An operation that the loop keeps. *)
Definition retained (ol : Z * Z) : Prop := ol.1 ≠ 4 ∧ ol.1 ≠ 5.

#[global] Instance retained_dec ol : Decision (retained ol).
Proof. unfold retained. apply _. Defined.

(** The operations before the first retained one, and the operations
    from the first retained one on. *)
Fixpoint leading (cigar : list (Z * Z)) : list (Z * Z) :=
  match cigar with
  | [] => []
  | ol :: rest => if decide (retained ol) then [] else ol :: leading rest
  end.

Fixpoint trailing (cigar : list (Z * Z)) : list (Z * Z) :=
  match cigar with
  | [] => []
  | ol :: rest => if decide (retained ol) then ol :: rest else trailing rest
  end.

(** The last element of a list of lengths, [d] when there is none. *)
Definition last_or (d : Z) (l : list Z) : Z := default d (last l).

Definition zsum (l : list Z) : Z := foldr Z.add 0 l.

(** Some operation is a soft or a hard clip. *)
Definition has_clip (cigar : list (Z * Z)) : bool :=
  existsb (fun ol => (ol.1 =? 4) || (ol.1 =? 5)) cigar.

End RemoveClipping.

(* ===================================================================== *)
(** * Sample inputs                                                      *)
(* ===================================================================== *)

Module Samples.

(** Two ranges on chr1, the first one spanning three bins. *)
Definition sample_calls : list RangeMatch.call :=
  [RangeMatch.Call "chr1" "+" 99000 250000;
   RangeMatch.Call "chr1" "-" 400 500].

Definition sample_seq : list ascii :=
  list_ascii_of_string "AAAAACCCCGGG".

(** Soft clips of 5 and 3 around a match of 4. *)
Definition sample_read : Read.t :=
  Read.mk "r1" 0 "chr1" 100 30 [(4, 5); (0, 4); (4, 3)]
          sample_seq sample_seq [("NM", Py.PyInt 1)].

(** What the transform makes of [sample_read]. *)
Definition sample_read_clipped : Read.t :=
  Read.mk "r1" 0 "chr1" 100 30 [(0, 4)]
          (list_ascii_of_string "CCCC") (list_ascii_of_string "CCCC")
          [("NM", Py.PyInt 1); ("ZA", Py.PyInt 5); ("ZB", Py.PyInt 3);
           ("ZC", Py.PyFloat (Float.round (8 # 12)))].

(** A soft clip in front only. *)
Definition sample_read_front : Read.t :=
  Read.mk "r2" 0 "chr1" 100 30 [(4, 5); (0, 7)]
          sample_seq sample_seq [].

(** No clip at all. *)
Definition sample_read_plain : Read.t :=
  Read.mk "r3" 16 "chr1" 100 30 [(0, 5); (1, 2); (0, 5)]
          sample_seq sample_seq [("NM", Py.PyInt 2)].

(** Two soft clips before the match. *)
Definition sample_read_two_clips : Read.t :=
  Read.mk "r4" 0 "chr1" 100 30 [(4, 2); (4, 3); (0, 7)]
          sample_seq sample_seq [].

(** Two soft clips before the match, the first one of length 0. *)
Definition sample_read_zero_clip : Read.t :=
  Read.mk "r5" 0 "chr1" 100 30 [(4, 0); (4, 3); (0, 9)]
          sample_seq sample_seq [].

(** The same, the second one of length 0. *)
Definition sample_read_clip_zero : Read.t :=
  Read.mk "r6" 0 "chr1" 100 30 [(4, 3); (4, 0); (0, 12)]
          sample_seq sample_seq [].

(** Three reads with distinct names and the flags 0x1, 0x1|0x4 and
    0x10. *)
Definition flag_reads : list Read.t :=
  [Read.mk "a" 0x1 "chr1" 100 30 [(0, 12)] sample_seq sample_seq [];
   Read.mk "b" 0x5 "chr1" 0 0 [] sample_seq sample_seq [];
   Read.mk "c" 0x10 "chr1" 200 30 [(0, 12)] sample_seq sample_seq []].

End Samples.

(* ===================================================================== *)
(** * Notions used to state what the clipping pass does                  *)
(* ===================================================================== *)

Module ClipPass.

(** A read the pass alters: mapped, with a soft or a hard clip. *)
Definition clipped (read : Read.t) : Prop :=
  Read.is_unmapped read = false
  ∧ RemoveClipping.has_clip (Read.cigar read) = true.

#[global] Instance clipped_dec read : Decision (clipped read).
Proof. unfold clipped. apply _. Defined.

(** The read has bases. *)
Definition has_seq (read : Read.t) : Prop := Read.seq read ≠ [].

(** The read has a quality string. *)
Definition has_qual (read : Read.t) : Prop := Read.qual read ≠ [].

(** A read with a soft clip and bases, and no quality string. *)
Definition bare_read : Read.t :=
  Read.mk "b1" 0 "chr1" 100 30 [(4, 5); (0, 7)] Samples.sample_seq [] [].

(** Two hard clips around a match. *)
Definition hard_read : Read.t :=
  Read.mk "h1" 0 "chr1" 100 30 [(5, 3); (0, 12); (5, 2)]
          Samples.sample_seq Samples.sample_seq [("NM", Py.PyInt 0)].

(** An unmapped read that carries a cigar with a soft clip. *)
Definition unmapped_read : Read.t :=
  Read.mk "u1" 4 "chr1" 0 0 [(4, 5); (0, 7)]
          Samples.sample_seq Samples.sample_seq [].

Definition sample_bam : list Read.t :=
  [Samples.sample_read; Samples.sample_read_plain; hard_read; unmapped_read].

End ClipPass.

(* ===================================================================== *)
(** * What a point query sees of the ranges that were added             *)
(* ===================================================================== *)

Module RangeQuery.

#[global] Instance covers_dec c pos : Decision (RangeMatch.covers c pos).
Proof. unfold RangeMatch.covers. apply _. Defined.

(** The call put a range on [chrom] that covers [pos]. *)
Definition over (chrom : string) (pos : Z) (c : RangeMatch.call) : Prop :=
  RangeMatch.c_chrom c = chrom ∧ RangeMatch.covers c pos.

(** Such a range that also satisfies the strand test of [get_tag]. *)
Definition hit (chrom strand : string) (pos : Z) (ignore_strand : bool)
    (c : RangeMatch.call) : Prop :=
  over chrom pos c
  ∧ (ignore_strand = true ∨ RangeMatch.c_strand c = strand).

#[global] Instance over_dec chrom pos c : Decision (over chrom pos c).
Proof. unfold over. apply _. Defined.

#[global] Instance hit_dec chrom strand pos ign c :
  Decision (hit chrom strand pos ign c).
Proof. unfold hit. apply _. Defined.

(** The answer, read off the list of calls. *)
Definition answer (nm : string) (cs : list RangeMatch.call)
    (chrom strand : string) (pos : Z) (ignore_strand : bool)
    : option string :=
  if decide (Exists (hit chrom strand pos ignore_strand) cs) then Some nm
  else if decide (Exists (over chrom pos) cs) then Some (nm +:+ "-rev")
  else None.

(** The same two tests on a stored range. *)
Definition iv_over (pos : Z) (iv : RangeMatch.interval) : Prop :=
  iv.1.1 <= pos <= iv.1.2.

Definition iv_hit (strand : string) (pos : Z) (ignore_strand : bool)
    (iv : RangeMatch.interval) : Prop :=
  iv_over pos iv ∧ (ignore_strand = true ∨ iv.2 = strand).

#[global] Instance iv_over_dec pos iv : Decision (iv_over pos iv).
Proof. unfold iv_over. apply _. Defined.

#[global] Instance iv_hit_dec strand pos ign iv :
  Decision (iv_hit strand pos ign iv).
Proof. unfold iv_hit. apply _. Defined.

(** The range of each call as it is stored. *)
Definition stored (c : RangeMatch.call) : RangeMatch.interval :=
  (RangeMatch.c_start c, RangeMatch.c_end c, RangeMatch.c_strand c).

End RangeQuery.

(* ===================================================================== *)
(** * The add_range calls that RegionTagger.__init__ makes               *)
(* ===================================================================== *)

Module GeneCalls.
Import RegionTagger.

(** [zip(transcript.exon_starts, transcript.exon_ends)] *)
Definition exon_pairs (tr : Transcript) : list (Z * Z) :=
  zip (exon_starts tr) (exon_ends tr).

Definition exon_call (g : Gene) (se : Z * Z) : RangeMatch.call :=
  RangeMatch.Call (chrom g) (strand g) se.1 se.2.

(** The calls on the intron index while the exons [ses] of one transcript
    are walked, [last_end] being the end of the exon before them. *)
Fixpoint intron_calls_from (g : Gene) (last_end : option Z)
    (ses : list (Z * Z)) : list RangeMatch.call :=
  match ses with
  | [] => []
  | (start, end_) :: rest =>
      (if last_end_set last_end
       then [RangeMatch.Call (chrom g) (strand g) (default 0 last_end) start]
       else [])
      ++ intron_calls_from g (Some end_) rest
  end.

Definition promoter_call (g : Gene) : RangeMatch.call :=
  if bool_decide (strand g = "+")
  then RangeMatch.Call (chrom g) (strand g) (tx_start g - 2000) (tx_start g)
  else RangeMatch.Call (chrom g) (strand g) (tx_end g) (tx_end g + 2000).

(** The genes that [__init__] does not skip. *)
Definition kept (chroms : list string) (genes : list Gene) : list Gene :=
  filter (fun g => chrom g ∈ chroms) genes.

Definition exon_calls (genes : list Gene) (chroms : list string)
    : list RangeMatch.call :=
  g ← kept chroms genes; tr ← transcripts g; exon_call g <$> exon_pairs tr.

Definition intron_calls (genes : list Gene) (chroms : list string)
    : list RangeMatch.call :=
  g ← kept chroms genes; tr ← transcripts g;
  intron_calls_from g None (exon_pairs tr).

Definition promoter_calls (genes : list Gene) (chroms : list string)
    : list RangeMatch.call :=
  promoter_call <$> kept chroms genes.

(** A gene on the forward strand with one transcript of two exons, and a
    gene on a reference that the BAM file does not have. *)
Definition gene_a : Gene :=
  mkGene "chr1" "+" 5000 9000 [mkTranscript [5000; 8000] [6000; 9000]].

Definition gene_b : Gene :=
  mkGene "chrUn" "-" 100 900 [mkTranscript [100] [900]].

Definition sample_genes : list Gene := [gene_a; gene_b].

Definition sample_chroms : list string := ["chr1"; "chr2"; "chrM"].

(** The strand [add_read] asks the indexes for. *)
Definition read_strand (read : Read.t) : string :=
  if Read.is_reverse read then "-" else "+".

(** No skipped region (code 3) in the cigar. *)
Definition unspliced (read : Read.t) : Prop :=
  Forall (fun ol => ol.1 ≠ 3) (Read.cigar read).

(** A forward read that starts in the first exon of [gene_a]. *)
Definition exon_read : Read.t :=
  Read.mk "e1" 0 "chr1" 5500 30 [(0, 12)]
          Samples.sample_seq Samples.sample_seq [].

End GeneCalls.

(* ===================================================================== *)
(** * Notions used to state what the pass of bam_stats keeps             *)
(* ===================================================================== *)

Module StatsPass.

(** The sum of the counts of the flag values that pass the test [g]. *)
Definition csum (g : Z → bool) (fc : gmap Z Z) : Z :=
  map_fold (fun f n acc => if g f then acc + n else acc) 0 fc.

(** The sum of all the counts of [flag_counts]. *)
Definition flag_sum (fc : gmap Z Z) : Z := csum (fun _ => true) fc.

(** The names of the reads of a list. *)
Definition qnames (reads : list Read.t) : gset string :=
  list_to_set (Read.qname <$> reads).

(** What the read loop keeps true of its counters. *)
Definition consistent (st : BamStats.state) : Prop :=
  BamStats.total st = BamStats.mapped st + BamStats.unmapped st
  ∧ BamStats.total st = Z.of_nat (size (BamStats.names st))
  ∧ flag_sum (BamStats.flag_counts st) = BamStats.total st
  ∧ map_Forall (fun _ n => 1 <= n) (BamStats.flag_counts st).

(** The keys of [flag_descriptions]. *)
Definition described : list Z := BamStats.flag_descriptions.*1.

(** A stand-in for [read_calc_mismatches] where no MISMATCH tally is
    asked for. *)
Definition no_mismatches : Read.t → Py.pyerr Py.pyval :=
  fun _ => Py.Raise Py.KeyError.

(** The tagger of the state was built over [ix], its counters add up to
    [mapped], and no tag is tallied. *)
Definition tagged (ix : RegionTagger.indexes) (st : BamStats.state) : Prop :=
  BamStats.tagbins st = []
  ∧ ∃ tg, BamStats.regiontagger st = Some tg
          ∧ RegionTagger.built_over ix tg
          ∧ RegionTagger.total tg = BamStats.mapped st.

(** A second alignment of the first of the sample reads, and an unmapped
    read. *)
Definition dup_reads : list Read.t :=
  [Read.mk "a" 0x1 "chr1" 100 30 [(0, 12)] Samples.sample_seq
           Samples.sample_seq [];
   Read.mk "a" 0x101 "chr1" 900 0 [(0, 12)] Samples.sample_seq
           Samples.sample_seq [];
   Read.mk "b" 0x4 "chr1" 0 0 [] Samples.sample_seq Samples.sample_seq []].

End StatsPass.

(* ===================================================================== *)
(** * Reading a FeatureBin: lookup and iteration                         *)
(* ===================================================================== *)

Module Tally.

(** [d[k]] on the dictionary [bins]: the count of the entry whose key
    equals [k]. *)
Fixpoint getitem (k : Py.pyval) (d : list (Py.pyval * Z)) : Py.pyerr Z :=
  match d with
  | [] => Py.Raise Py.KeyError
  | (k', n) :: d' => if Py.eqb k' k then Py.Ok n else getitem k d'
  end.

(** How many of the values are equal ([==]) to [v]. *)
Definition occurrences (v : Py.pyval) (vals : list Py.pyval) : Z :=
  Z.of_nat (length (filter (fun x => Py.eqb x v = true) vals)).

(** [a <= b] as [list.sort] sees it: [b < a] is false. *)
Definition le (a b : Py.pyval) : Prop := Py.ltb b a = false.

#[global] Instance le_dec a b : Decision (le a b).
Proof. unfold le. apply _. Defined.

(** [__iter__]: the keys are sorted, reversed for a descending tally, and
    the cursor is put before the first of them. *)
Definition iter (fb : FeatureBin.t) : FeatureBin.t :=
  let sorted := merge_sort le (FeatureBin._keys fb) in
  {| FeatureBin.tag := FeatureBin.tag fb;
     FeatureBin.asc := FeatureBin.asc fb;
     FeatureBin.bins := FeatureBin.bins fb;
     FeatureBin._keys := if negb (FeatureBin.asc fb) then reverse sorted
                         else sorted;
     FeatureBin._min := FeatureBin._min fb;
     FeatureBin._max := FeatureBin._max fb;
     FeatureBin.cur_pos := -1 |}.

(** [l[i]] for a list: a negative index counts from the end, and [None]
    is the IndexError. *)
Definition index {A} (l : list A) (i : Z) : option A :=
  if 0 <=? i then l !! Z.to_nat i
  else if - Py.len l <=? i then l !! Z.to_nat (Py.len l + i)
  else None.

(** How a call of [next] ends. *)
Inductive yielded :=
| Item (kv : Py.pyval * Z)
| StopIteration
| IndexError
| Failed (e : Py.exn).

Definition advance (fb : FeatureBin.t) : FeatureBin.t :=
  {| FeatureBin.tag := FeatureBin.tag fb;
     FeatureBin.asc := FeatureBin.asc fb;
     FeatureBin.bins := FeatureBin.bins fb;
     FeatureBin._keys := FeatureBin._keys fb;
     FeatureBin._min := FeatureBin._min fb;
     FeatureBin._max := FeatureBin._max fb;
     FeatureBin.cur_pos := FeatureBin.cur_pos fb + 1 |}.

(** [next]: the object with its cursor moved, and what the call gave. *)
Definition next (fb : FeatureBin.t) : FeatureBin.t * yielded :=
  let fb1 := advance fb in
  if Py.len (FeatureBin._keys fb1) <=? FeatureBin.cur_pos fb1
  then (fb1, StopIteration)
  else match index (FeatureBin._keys fb1) (FeatureBin.cur_pos fb1) with
       | None => (fb1, IndexError)
       | Some k =>
           match getitem k (FeatureBin.bins fb1) with
           | Py.Ok n => (fb1, Item (k, n))
           | Py.Raise e => (fb1, Failed e)
           end
       end.

(** How a [for val, count in tagbin] loop ends: with the pairs it went
    through, or with what broke it. *)
Inductive looped :=
| Done (items : list (Py.pyval * Z)) (fb : FeatureBin.t)
| Broke (y : yielded).

(** The calls of [next] of a [for] loop, at most [fuel] of them; [None]
    when [fuel] calls did not reach the end. *)
Fixpoint drain (fuel : nat) (fb : FeatureBin.t) : option looped :=
  match fuel with
  | O => None
  | S fuel' =>
      match next fb with
      | (fb1, StopIteration) => Some (Done [] fb1)
      | (fb1, Item kv) =>
          match drain fuel' fb1 with
          | Some (Done items fb2) => Some (Done (kv :: items) fb2)
          | other => other
          end
      | (_, y) => Some (Broke y)
      end
  end.

(** [for val, count in tagbin]: [__iter__], then [next] until it stops. *)
Definition for_items (fuel : nat) (fb : FeatureBin.t) : option looped :=
  drain fuel (iter fb).

(** No two keys of the list are equal ([==]). *)
Fixpoint distinct (ks : list Py.pyval) : Prop :=
  match ks with
  | [] => True
  | k :: ks' => Forall (fun k' => Py.eqb k k' = false) ks' ∧ distinct ks'
  end.

(** The keys, each with the count the dictionary has for it. *)
Definition items_of (d : list (Py.pyval * Z)) (ks : list Py.pyval)
    : list (Py.pyval * Z) :=
  (fun k => (k, match getitem k d with
                | Py.Ok n => n
                | Py.Raise _ => 0
                end)) <$> ks.

(** The string has no colon. *)
Fixpoint no_colon (s : string) : Prop :=
  match s with
  | EmptyString => True
  | String c s' => c ≠ ":"%char ∧ no_colon s'
  end.

(** The order in which the loop gives the values. *)
Definition yield_order (ascending : bool) : relation Py.pyval :=
  if ascending then le else flip le.

End Tally.

(* ===================================================================== *)
(** * bam_stats: the report of the tag distributions                     *)
(* ===================================================================== *)

Module TagReport.

(** What is printed for one tag: its name, the mean, the maximum, and one
    line for each value with its count and the cumulative percentage. *)
Record section := mkSection {
  s_tag : string;
  s_mean : Py.pyval;
  s_max : option Py.pyval;
  s_rows : list (Py.pyval * Z * Q)
}.

(** How the [for val, count in tagbin] loop of the report ends. *)
Inductive rows_end :=
| Rows (rows : list (Py.pyval * Z * Q))
| RowsAbort (e : Py.exn)
| RowsBroke (y : Tally.yielded).

(** The loop, after [__iter__], with [acc] as it stands; at most [fuel]
    calls of [next].  [pct = acc * 100 / mapped] divides floats; [acc]
    and [pct] are kept as the exact sum and quotient. *)
Fixpoint tag_rows (fuel : nat) (mapped : Z) (acc : Q) (fb : FeatureBin.t)
    : option rows_end :=
  match fuel with
  | O => None
  | S fuel' =>
      match Tally.next fb with
      | (_, Tally.StopIteration) => Some (Rows [])
      | (fb1, Tally.Item (val, count)) =>
          let acc1 := (acc + inject_Z count)%Q in
          if mapped =? 0 then Some (RowsAbort Py.ZeroDivisionError)
          else
            let pct := (acc1 * inject_Z 100 / inject_Z mapped)%Q in
            match tag_rows fuel' mapped acc1 fb1 with
            | Some (Rows rows) => Some (Rows ((val, count, pct) :: rows))
            | other => other
            end
      | (_, y) => Some (RowsBroke y)
      end
  end.

(** How the part of the report for one tag ends. *)
Inductive printed :=
| Section (s : section)
| Aborted (e : Py.exn)
| Interrupted (y : Tally.yielded).

(** The body of [for tagbin in tagbins] in the report. *)
Definition tag_section (fuel : nat) (mapped : Z) (fb : FeatureBin.t)
    : option printed :=
  match FeatureBin.mean fb with
  | Py.Raise e => Some (Aborted e)
  | Py.Ok m =>
      match tag_rows fuel mapped 0 (Tally.iter fb) with
      | None => None
      | Some (Rows rows) =>
          Some (Section (mkSection (FeatureBin.tag fb) m (FeatureBin.max fb)
                           rows))
      | Some (RowsAbort e) => Some (Aborted e)
      | Some (RowsBroke y) => Some (Interrupted y)
      end
  end.

(** The sections printed, the last one being the one that raised, if one
    did. *)
Fixpoint tag_sections (fuel : nat) (mapped : Z) (fbs : list FeatureBin.t)
    : option (list printed) :=
  match fbs with
  | [] => Some []
  | fb :: rest =>
      match tag_section fuel mapped fb with
      | None => None
      | Some (Section s) =>
          match tag_sections fuel mapped rest with
          | Some ps => Some (Section s :: ps)
          | None => None
          end
      | Some p => Some [p]
      end
  end.

(** The tag part of the report, which is printed when [total > 0]. *)
Definition tag_report (fuel : nat) (st : BamStats.state)
    : option (list printed) :=
  if BamStats.total st >? 0
  then tag_sections fuel (BamStats.mapped st) (BamStats.tagbins st)
  else Some [].

(** The lines of a section, for the pairs the loop goes through. *)
Fixpoint cumulative (mapped : Z) (acc : Q) (items : list (Py.pyval * Z))
    : list (Py.pyval * Z * Q) :=
  match items with
  | [] => []
  | (val, count) :: rest =>
      (val, count,
       ((acc + inject_Z count) * inject_Z 100 / inject_Z mapped)%Q)
      :: cumulative mapped (acc + inject_Z count)%Q rest
  end.

(** Each tally holds as many values as reads were mapped. *)
Definition tallied (st : BamStats.state) : Prop :=
  Forall (fun fb => ∃ tg vals, fb = FeatureBin.of_values tg vals
                                ∧ Z.of_nat (length vals) = BamStats.mapped st)
         (BamStats.tagbins st).

(** Two reads with distinct names, both mapped, with the tag NM. *)
Definition nm_reads : list Read.t :=
  [Read.mk "a" 0 "chr1" 100 30 [(0, 12)] Samples.sample_seq
           Samples.sample_seq [("NM", Py.PyInt 2)];
   Read.mk "b" 16 "chr1" 300 30 [(0, 12)] Samples.sample_seq
           Samples.sample_seq [("NM", Py.PyInt 0)]].

(** Two unmapped reads. *)
Definition unmapped_reads : list Read.t :=
  [Read.mk "u" 4 "chr1" 0 0 [] Samples.sample_seq Samples.sample_seq [];
   Read.mk "v" 4 "chr1" 0 0 [] Samples.sample_seq Samples.sample_seq []].

End TagReport.

(* ===================================================================== *)
(** * bam_stats: the read loop with the per-reference counters           *)
(* ===================================================================== *)

Module WholePass.

(** [s.split(delim)[0]] for a delimiter that is not empty: the text
    before the first occurrence of [delim]. *)
Fixpoint before (delim s : string) : string :=
  match s with
  | EmptyString => ""
  | String c s' =>
      if String.prefix delim s then "" else String c (before delim s')
  end.

(** The key of [refs] for a reference name: [rname.split(delim)[0]]
    under [if delim:], the name itself otherwise.  [None] and the empty
    string are both false. *)
Definition ref_key (delim : option string) (rname : string) : string :=
  match delim with
  | Some d => if bool_decide (d = "") then rname else before d rname
  | None => rname
  end.

(** [refs] after [for rname in bamfile.references: refs[...] = 0]. *)
Definition init_refs (delim : option string) (references : list string)
    : gmap string Z :=
  foldl (fun refs rname => <[ref_key delim rname := 0]> refs) ∅ references.

(** [refs[key] += 1]: reading a key that is not there raises. *)
Definition count_ref (refs : gmap string Z) (key : string)
    : Py.pyerr (gmap string Z) :=
  match refs !! key with
  | Some n => Py.Ok (<[key := n + 1]> refs)
  | None => Py.Raise Py.KeyError
  end.

Section Pass.
Variable read_calc_mismatches : Read.t → Py.pyerr Py.pyval.
Variable delim : option string.

(** The body of [for read in read_gen()] with [refs].  For a read that
    is counted as mapped, [refs] is updated after the counters, which do
    not raise, and before the tagger and the tallies see the read.
    [Read.rname] is what [bamfile.getrname(read.rname)] gives: for a
    read that lies on no reference of the file it is no key of [refs],
    and the update raises. *)
Definition step (sr : BamStats.state * gmap string Z) (read : Read.t)
    : Py.pyerr (BamStats.state * gmap string Z) :=
  let '(st, refs) := sr in
  if bool_decide (Read.qname read ∈ BamStats.names st)
     || Read.is_unmapped read
  then
    st1 ← BamStats.step read_calc_mismatches st read;
    Py.Ok (st1, refs)
  else
    refs1 ← count_ref refs (ref_key delim (Read.rname read));
    st1 ← BamStats.step read_calc_mismatches st read;
    Py.Ok (st1, refs1).

Fixpoint run (sr : BamStats.state * gmap string Z) (reads : list Read.t)
    : Py.pyerr (BamStats.state * gmap string Z) :=
  match reads with
  | [] => Py.Ok sr
  | read :: rest =>
      sr1 ← step sr read;
      run sr1 rest
  end.
End Pass.

(** The variables before the loop, for a BAM file with the references
    [references]. *)
Definition init (tagger : option RegionTagger.t) (tags : list string)
    (delim : option string) (references : list string)
    : BamStats.state * gmap string Z :=
  (BamStats.init tagger tags, init_refs delim references).

(** Every read that is not flagged unmapped lies on a reference of the
    file. *)
Definition on_references (references : list string) (reads : list Read.t)
    : Prop :=
  Forall (fun r => Read.is_unmapped r = false → Read.rname r ∈ references)
         reads.

(** A read that is not flagged unmapped and lies on no reference. *)
Definition stray_read : Read.t :=
  Read.mk "s1" 0 "*" 0 0 [] Samples.sample_seq Samples.sample_seq [].

End WholePass.

(* ===================================================================== *)
(** * Facts about doubles                                                *)
(* ===================================================================== *)

Section FloatFacts.
Import Float.
Local Open Scope Q_scope.

(** [rne] gives one of the two integers around [x]. *)
Lemma rne_cases x : rne x = Qfloor x ∨ rne x = (Qfloor x + 1)%Z.
Proof.
  unfold rne. destruct (_ ?= _); [|by left|by right].
  destruct (Z.even _); [by left|by right].
Qed.

Lemma rne_Z k : rne (inject_Z k) = k.
Proof.
  unfold rne. rewrite Qfloor_Z.
  assert (E : inject_Z k - inject_Z k == 0) by ring.
  by rewrite E.
Qed.

Lemma rne_mono x y : x <= y → (rne x <= rne y)%Z.
Proof.
  intros Hxy. pose proof (Qfloor_resp_le x y Hxy) as Hf.
  destruct (Z.eq_dec (Qfloor x) (Qfloor y)) as [E|E].
  - unfold rne. rewrite <- E.
    assert (Hr : x - inject_Z (Qfloor x) <= y - inject_Z (Qfloor x)).
    { apply Qplus_le_l with (z := inject_Z (Qfloor x)). ring_simplify. exact Hxy. }
    destruct (Qcompare_spec (x - inject_Z (Qfloor x)) (1 # 2)) as [Hx|Hx|Hx];
      destruct (Qcompare_spec (y - inject_Z (Qfloor x)) (1 # 2)) as [Hy|Hy|Hy];
      try destruct (Z.even (Qfloor x)); try lia; exfalso.
    + rewrite Hx in Hr. apply (Qlt_irrefl (1 # 2)). by eapply Qle_lt_trans.
    + rewrite Hy in Hr. apply (Qlt_irrefl (1 # 2)). by eapply Qlt_le_trans.
    + apply (Qlt_irrefl (1 # 2)).
      eapply Qlt_trans; [exact Hx|]. by eapply Qle_lt_trans.
    + apply (Qlt_irrefl (1 # 2)).
      eapply Qlt_trans; [exact Hx|]. by eapply Qle_lt_trans.
  - destruct (rne_cases x) as [-> | ->], (rne_cases y) as [-> | ->]; lia.
Qed.



Lemma two_neq_0 : ¬ 2 == 0.
Proof. discriminate. Qed.

Lemma pow2_pos e : 0 < 2 ^ e.
Proof. by apply Qpower_0_lt. Qed.

Lemma pow2_Z e : (0 <= e)%Z → 2 ^ e == inject_Z (2 ^ e).
Proof. intros He. by rewrite Zpower_Qpower. Qed.

Lemma pow2_le a b : (a <= b)%Z → 2 ^ a <= 2 ^ b.
Proof. intros H. by apply Qpower_le_compat_l. Qed.

Lemma pow2_lt a b : (a < b)%Z → 2 ^ a < 2 ^ b.
Proof. intros H. by apply Qpower_lt_compat_l. Qed.

Lemma pow2_sub a b :
  (0 <= a)%Z → (0 <= b)%Z →
  2 ^ (a - b) == inject_Z (2 ^ a) / inject_Z (2 ^ b).
Proof.
  intros Ha Hb. rewrite Qpower_minus by apply two_neq_0.
  by rewrite !pow2_Z.
Qed.

Lemma binade_spec q :
  0 < q → 2 ^ binade q <= q ∧ q < 2 ^ (binade q + 1).
Proof.
  intros Hq. unfold binade.
  destruct q as [n d]. cbn [Qnum Qden].
  assert (Hn : (0 < n)%Z).
  { unfold Qlt in Hq. simpl in Hq. lia. }
  pose proof (Z.log2_spec n Hn) as [Ha1 Ha2].
  pose proof (Z.log2_spec (Z.pos d) (Pos2Z.is_pos d)) as [Hb1 Hb2].
  pose proof (Z.log2_nonneg n) as Ha0.
  pose proof (Z.log2_nonneg (Z.pos d)) as Hb0.
  set (a := Z.log2 n) in *. set (b := Z.log2 (Z.pos d)) in *.
  assert (Hpa : (0 < 2 ^ a)%Z) by (apply Z.pow_pos_nonneg; lia).
  assert (Hpb : (0 < 2 ^ b)%Z) by (apply Z.pow_pos_nonneg; lia).
  destruct (Qle_bool (2 ^ (a - b)) (n # d)) eqn:Hle.
  - apply Qle_bool_iff in Hle. split; [exact Hle|].
    replace (a - b + 1)%Z with (Z.succ a - b)%Z by lia.
    rewrite pow2_sub by lia. apply Qlt_shift_div_l.
    + rewrite <- (Zlt_Qlt 0). exact Hpb.
    + unfold Qlt, Qmult, inject_Z. cbn [Qnum Qden]. nia.
  - assert (Hlt : n # d < 2 ^ (a - b)).
    { apply Qnot_le_lt. intros H. apply Qle_bool_iff in H. congruence. }
    split.
    + replace (a - b - 1)%Z with (a - Z.succ b)%Z by lia.
      rewrite pow2_sub by lia. apply Qle_shift_div_r.
      * rewrite <- (Zlt_Qlt 0). apply Z.pow_pos_nonneg; lia.
      * unfold Qle, Qmult, inject_Z. cbn [Qnum Qden]. nia.
    + by replace (a - b - 1 + 1)%Z with (a - b)%Z by lia.
Qed.

Lemma binade_unique q e :
  2 ^ e <= q → q < 2 ^ (e + 1) → binade q = e.
Proof.
  intros H1 H2.
  assert (Hq : 0 < q) by (eapply Qlt_le_trans; [apply (pow2_pos e)|done]).
  destruct (binade_spec q Hq) as [H3 H4].
  destruct (Z.lt_trichotomy (binade q) e) as [H|[H|H]]; [|done|]; exfalso.
  - apply (Qlt_irrefl q). eapply Qlt_le_trans; [exact H4|].
    eapply Qle_trans; [|exact H1]. apply pow2_le. lia.
  - apply (Qlt_irrefl q). eapply Qlt_le_trans; [exact H2|].
    eapply Qle_trans; [|exact H3]. apply pow2_le. lia.
Qed.


Lemma round_pos_eq q :
  round_pos q == inject_Z (rne (q / 2 ^ ulp_exp q)) * 2 ^ ulp_exp q.
Proof. unfold round_pos. apply Qred_correct. Qed.









Lemma rne_proper x y : x == y → rne x = rne y.
Proof.
  intros E. apply Z.le_antisymm; apply rne_mono; rewrite E; apply Qle_refl.
Qed.

Lemma binade_Z z : (0 < z)%Z → binade (inject_Z z) = Z.log2 z.
Proof.
  intros Hz. pose proof (Z.log2_spec z Hz) as [H1 H2].
  pose proof (Z.log2_nonneg z) as H0.
  apply binade_unique.
  - rewrite pow2_Z by done. by rewrite <- Zle_Qle.
  - rewrite pow2_Z by lia. rewrite <- Zlt_Qlt. by rewrite <- Z.add_1_r in H2.
Qed.

Lemma Qred_Z z : Qred (inject_Z z) = inject_Z z.
Proof. apply Qcanon.Qred_identity. simpl. apply Z.gcd_1_r. Qed.

Lemma round_pos_Z z :
  (0 < z < 2 ^ 53)%Z → round_pos (inject_Z z) = inject_Z z.
Proof.
  intros [Hz Hb]. unfold round_pos, ulp_exp. rewrite binade_Z by done.
  assert (He : (Z.log2 z < 53)%Z) by (apply Z.log2_lt_pow2; lia).
  pose proof (Z.log2_nonneg z) as H0.
  rewrite Z.max_l by lia.
  set (k := (52 - Z.log2 z)%Z).
  replace (Z.log2 z - 52)%Z with (- k)%Z by (unfold k; lia).
  assert (Hk : (0 <= k)%Z) by (unfold k; lia).
  assert (E : inject_Z z / 2 ^ (- k) == inject_Z (z * 2 ^ k)).
  { rewrite Qpower_opp, inject_Z_mult, <- pow2_Z by done.
    field. apply Qpower_not_0, two_neq_0. }
  rewrite (rne_proper _ _ E), rne_Z.
  transitivity (Qred (inject_Z z)); [|apply Qred_Z]. apply Qred_complete.
  rewrite inject_Z_mult, <- pow2_Z by done.
  rewrite <- Qmult_assoc, <- Qpower_plus by apply two_neq_0.
  replace (k + - k)%Z with 0%Z by lia. simpl. ring.
Qed.

(** An integer below [2^53] in magnitude is a double. *)
Lemma of_int_exact z : (Z.abs z < 2 ^ 53)%Z → of_int z = inject_Z z.
Proof.
  intros Hz. unfold of_int, round.
  destruct z as [|p|p]; cbn [inject_Z Qnum]; [done| |].
  - apply (round_pos_Z (Z.pos p)). lia.
  - change (- round_pos (inject_Z (Z.pos p)) = Z.neg p # 1).
    rewrite (round_pos_Z (Z.pos p)) by lia. reflexivity.
Qed.



(** [rne x] is within one half of [x]. *)
Lemma rne_half x :
  - (1 # 2) <= inject_Z (rne x) - x <= 1 # 2.
Proof.
  pose proof (Qfloor_le x) as H1. pose proof (Qlt_floor x) as H2.
  rewrite inject_Z_plus in H2. change (inject_Z 1) with 1 in H2.
  unfold rne.
  destruct (Qcompare_spec (x - inject_Z (Qfloor x)) (1 # 2)) as [H|H|H].
  - destruct (Z.even (Qfloor x)).
    + split; lra.
    + rewrite inject_Z_plus. change (inject_Z 1) with 1. split; lra.
  - split; lra.
  - rewrite inject_Z_plus. change (inject_Z 1) with 1. split; lra.
Qed.

(** The double of [q > 0] is a multiple of the unit [2^u] of its binade,
    and no further from [q] than half that unit. *)
Lemma round_pos_error q :
  0 < q →
  Qabs (round_pos q - q) <= 2 ^ ulp_exp q * (1 # 2).
Proof.
  intros Hq. rewrite round_pos_eq.
  pose proof (pow2_pos (ulp_exp q)) as Hu.
  set (u := 2 ^ ulp_exp q) in *.
  destruct (rne_half (q / u)) as [H1 H2].
  assert (E : inject_Z (rne (q / u)) * u - q
              == (inject_Z (rne (q / u)) - q / u) * u).
  { field. intros E. rewrite E in Hu. by apply (Qlt_irrefl 0). }
  rewrite E. rewrite Qabs_Qmult, (Qabs_pos u) by lra.
  rewrite (Qmult_comm u). apply Qmult_le_compat_r; [|lra].
  apply Qabs_Qle_condition. split; lra.
Qed.

(** The doubles next to 5/3 and to 1/10, and the tie at [2^53 + 1]. *)
Example round_samples :
  Float.round (5 # 3) = (7505999378950827 # 4503599627370496)%Q
  ∧ Float.round (1 # 10) = (3602879701896397 # 36028797018963968)%Q
  ∧ Float.round (inject_Z (2 ^ 53 + 1)) = inject_Z (2 ^ 53)
  ∧ Float.round (inject_Z (2 ^ 53 + 3)) = inject_Z (2 ^ 53 + 4)
  ∧ Float.round (- (1 # 3)) = (- Float.round (1 # 3))%Q.
Proof. repeat split; vm_compute; reflexivity. Qed.

End FloatFacts.

(* ===================================================================== *)
(** * Facts about RangeMatch                                             *)
(* ===================================================================== *)

Section RangeMatchFacts.
Import RangeMatch Samples.

Lemma push_bin_lookup bin iv d b :
  default [] (push_bin bin iv d !! b) =
  if decide (b = bin) then iv :: default [] (d !! b) else default [] (d !! b).
Proof.
  unfold push_bin. destruct (decide (b = bin)) as [->|Hb].
  - rewrite lookup_insert_eq. simpl. f_equal.
    destruct (decide (is_Some (d !! bin))) as [[l Hl]|Hs].
    + by rewrite lookup_total_alt, Hl.
    + rewrite lookup_total_insert_eq.
      apply eq_None_not_Some in Hs. by rewrite Hs.
  - rewrite lookup_insert_ne by done.
    destruct (decide (is_Some (d !! bin))); [done|].
    by rewrite lookup_insert_ne.
Qed.

Lemma push_bins_lookup iv bs : ∀ d b,
  NoDup bs →
  default [] (foldl (fun d b => push_bin b iv d) d bs !! b) =
  if decide (b ∈ bs) then iv :: default [] (d !! b) else default [] (d !! b).
Proof.
  induction bs as [|x bs IH]; intros d b Hnd.
  - rewrite decide_False by apply not_elem_of_nil. done.
  - apply NoDup_cons in Hnd as [Hx Hnd]. cbn [foldl].
    rewrite IH by done. rewrite push_bin_lookup.
    rewrite (decide_ext (b ∈ x :: bs) (b = x ∨ b ∈ bs))
      by apply elem_of_cons.
    destruct (decide (b ∈ bs)), (decide (b = x)), (decide (b = x ∨ b ∈ bs));
      first [reflexivity | subst; tauto].
Qed.

Lemma bucket_add_range rm chrom strand start end_ c b :
  bucket (add_range rm chrom strand start end_) c b =
  if decide (c = chrom ∧ touched start end_ b)
  then (start, end_, strand) :: bucket rm c b
  else bucket rm c b.
Proof.
  unfold bucket, add_range; simpl.
  destruct (decide (c = chrom)) as [->|Hc].
  - rewrite lookup_insert_eq.
    set (rs := if decide (is_Some (ranges rm !! chrom)) then ranges rm
               else <[chrom:=∅]> (ranges rm)).
    assert (Hd : default [] ((rs !!! chrom) !! b) =
                 match ranges rm !! chrom with
                 | None => []
                 | Some d => default [] (d !! b)
                 end).
    { subst rs.
      destruct (decide (is_Some (ranges rm !! chrom))) as [[d Hd]|Hs].
      - by rewrite lookup_total_alt, Hd.
      - apply eq_None_not_Some in Hs. rewrite Hs.
        by rewrite lookup_total_insert_eq, lookup_empty. }
    rewrite <- Hd. clear Hd.
    unfold touched, xrange.
    set (bin := start / 100000). set (ebin := end_ / 100000).
    destruct (decide (ebin ≠ bin)) as [Hne|Heq].
    + rewrite push_bins_lookup by apply NoDup_seqZ.
      rewrite push_bin_lookup.
      destruct (decide (b ∈ seqZ (bin + 1) (ebin + 1 - (bin + 1)))) as [Hin|Hin];
        rewrite elem_of_seqZ in Hin;
        destruct (decide (b = bin)) as [Hb|Hb];
        destruct (decide (chrom = chrom ∧ (b = bin ∨ bin < b <= ebin)))
          as [[_ Ht]|Ht];
        first [reflexivity | exfalso; lia | exfalso; apply Ht; split; [done|lia]].
    + rewrite push_bin_lookup.
      destruct (decide (b = bin)) as [Hb|Hb];
        destruct (decide (chrom = chrom ∧ (b = bin ∨ bin < b <= ebin)))
          as [[_ Ht]|Ht];
        first [reflexivity | exfalso; lia | exfalso; apply Ht; split; [done|lia]].
  - rewrite lookup_insert_ne by done.
    destruct (decide (c = chrom ∧ touched start end_ b)) as [[? _]|_];
      [congruence|].
    destruct (decide (is_Some (ranges rm !! chrom))); [done|].
    by rewrite lookup_insert_ne.
Qed.

Lemma get_tag_bucket rm chrom strand pos ign :
  get_tag rm chrom strand pos ign =
  scan (name rm) strand pos ign false (bucket rm chrom (pos / 100000)).
Proof.
  unfold get_tag, bucket.
  destruct (ranges rm !! chrom) as [d|]; [|done].
  by destruct (d !! (pos / 100000)).
Qed.

Lemma name_add_range rm chrom strand start end_ :
  name (add_range rm chrom strand start end_) = name rm.
Proof. done. Qed.

Lemma name_build nm cs : name (build nm cs) = nm.
Proof.
  unfold build. induction cs as [|c cs IH] using rev_ind; [done|].
  by rewrite foldl_app.
Qed.

Lemma bucket_init nm chrom b : bucket (init nm) chrom b = [].
Proof. done. Qed.

(** Every entry of a bin comes from a call that touched this bin, and
    every such call left its entry. *)
Lemma bucket_build nm cs chrom b iv :
  iv ∈ bucket (build nm cs) chrom b ↔
  ∃ c, c ∈ cs ∧ c_chrom c = chrom ∧ touched (c_start c) (c_end c) b ∧
       iv = (c_start c, c_end c, c_strand c).
Proof.
  unfold build. induction cs as [|c cs IH] using rev_ind.
  - simpl. rewrite bucket_init. split.
    + by intros ?%elem_of_nil.
    + by intros (c & ?%elem_of_nil & _).
  - rewrite foldl_app. simpl. unfold apply_call at 1.
    rewrite bucket_add_range.
    destruct (decide (chrom = c_chrom c ∧ touched (c_start c) (c_end c) b))
      as [[-> Ht]|Hn].
    + rewrite elem_of_cons, IH. split.
      * intros [->|(c' & Hin & ?)].
        -- exists c. rewrite elem_of_app, list_elem_of_singleton. tauto.
        -- exists c'. rewrite elem_of_app. tauto.
      * intros (c' & Hin & Hc & Ht' & ->).
        apply elem_of_app in Hin as [Hin|Hin];
          [|apply list_elem_of_singleton in Hin as ->].
        -- right. by exists c'.
        -- by left.
    + rewrite IH. split.
      * intros (c' & Hin & ?). exists c'. rewrite elem_of_app. tauto.
      * intros (c' & Hin & Hc & Ht' & ->).
        apply elem_of_app in Hin as [Hin|Hin];
          [|apply list_elem_of_singleton in Hin as ->].
        -- by exists c'.
        -- exfalso. apply Hn. by split.
Qed.

Lemma covers_touched c pos :
  covers c pos → touched (c_start c) (c_end c) (pos / 100000).
Proof.
  unfold covers, touched. intros [Hs He].
  assert (c_start c / 100000 <= pos / 100000) by (apply Z.div_le_mono; lia).
  assert (pos / 100000 <= c_end c / 100000) by (apply Z.div_le_mono; lia).
  lia.
Qed.

Section Scan.
Context (nm strand : string) (pos : Z).

Lemma scan_hit ign l start end_ : ∀ rv,
  (start, end_, strand) ∈ l → start <= pos <= end_ →
  scan nm strand pos ign rv l = Some nm.
Proof.
  induction l as [|[[s e] r] l IH]; intros rv Hin Hp.
  - by apply elem_of_nil in Hin.
  - simpl. apply elem_of_cons in Hin as [Heq|Hin].
    + injection Heq as <- <- <-.
      assert ((start <=? pos) && (pos <=? end_) = true) as ->.
      { apply andb_true_iff. split; apply Z.leb_le; lia. }
      rewrite bool_decide_eq_true_2 by done. by rewrite orb_true_r.
    + destruct ((s <=? pos) && (pos <=? e)); [|by apply IH].
      destruct (ign || bool_decide (strand = r)); [done|by apply IH].
Qed.

Lemma scan_miss ign l : ∀ rv,
  (∀ s e r, (s, e, r) ∈ l → ¬ s <= pos <= e) →
  scan nm strand pos ign rv l = if rv then Some (nm +:+ "-rev") else None.
Proof.
  induction l as [|[[s e] r] l IH]; intros rv Hout; [done|].
  simpl.
  assert ((s <=? pos) && (pos <=? e) = false) as ->.
  { apply andb_false_iff.
    destruct (Z.leb_spec s pos), (Z.leb_spec pos e); auto.
    exfalso. apply (Hout s e r); [left | lia]. }
  apply IH. intros s' e' r' Hin. apply (Hout s' e' r'). by right.
Qed.

Lemma scan_rev l : ∀ rv,
  (∀ s e r, (s, e, r) ∈ l → s <= pos <= e → r ≠ strand) →
  rv = true ∨ (∃ s e r, (s, e, r) ∈ l ∧ s <= pos <= e) →
  scan nm strand pos false rv l = Some (nm +:+ "-rev").
Proof.
  induction l as [|[[s e] r] l IH]; intros rv Hne Hex.
  - destruct Hex as [->|(s & e & r & Hin & _)]; [done|].
    by apply elem_of_nil in Hin.
  - simpl.
    assert (Hne' : ∀ s e r, (s, e, r) ∈ l → s <= pos <= e → r ≠ strand).
    { intros s' e' r' Hin. apply (Hne s' e' r'). by right. }
    destruct ((s <=? pos) && (pos <=? e)) eqn:Hc.
    + apply andb_true_iff in Hc as [Hs He].
      apply Z.leb_le in Hs, He.
      rewrite bool_decide_eq_false_2.
      * apply IH; auto.
      * intros ->. apply (Hne s e r); [left | lia | done].
    + apply IH; [done|].
      destruct Hex as [->|(s' & e' & r' & Hin & Hp)]; [by left|right].
      apply elem_of_cons in Hin as [Heq|Hin].
      * injection Heq as -> -> ->.
        apply andb_false_iff in Hc as [Hc|Hc]; apply Z.leb_gt in Hc; lia.
      * by exists s', e', r'.
Qed.
End Scan.

(** C2. In the index named [nm] built by the [add_range] calls [cs]:
    a point covered by an inserted range of the queried chromosome and
    strand yields [nm]; a point outside every inserted range of the
    chromosome yields [None]; and, strands being compared, a point
    covered only by ranges of another strand yields [nm] followed by
    [-rev]. *)
Theorem get_tag_build (nm : string) (cs : list call)
    (chrom strand : string) (pos : Z) :
  (∀ c, c ∈ cs → c_chrom c = chrom → c_strand c = strand → covers c pos →
     ∀ ign, get_tag (build nm cs) chrom strand pos ign = Some nm)
  ∧ ((∀ c, c ∈ cs → c_chrom c = chrom → ¬ covers c pos) →
     ∀ ign, get_tag (build nm cs) chrom strand pos ign = None)
  ∧ ((∀ c, c ∈ cs → c_chrom c = chrom → covers c pos → c_strand c ≠ strand) →
     (∃ c, c ∈ cs ∧ c_chrom c = chrom ∧ covers c pos) →
     get_tag (build nm cs) chrom strand pos false = Some (nm +:+ "-rev")).
Proof.
  split; [|split].
  - intros c Hin Hc Hs Hp ign.
    rewrite get_tag_bucket, name_build.
    apply (scan_hit _ _ _ _ _ (c_start c) (c_end c)); [|exact Hp].
    apply bucket_build. exists c. subst.
    split; [done|]. split; [done|]. split; [|done].
    by apply covers_touched.
  - intros Hout ign.
    rewrite get_tag_bucket, name_build.
    apply (scan_miss nm strand pos ign _ false).
    intros s e r Hin Hp.
    apply bucket_build in Hin as (c & Hin & Hc & _ & Heq).
    injection Heq as -> -> ->. by apply (Hout c).
  - intros Hne (c & Hin & Hc & Hp).
    rewrite get_tag_bucket, name_build.
    apply scan_rev.
    + intros s e r Hin' Hp'.
      apply bucket_build in Hin' as (c' & Hin' & Hc' & _ & Heq).
      injection Heq as -> -> ->. by apply Hne.
    + right. exists (c_start c), (c_end c), (c_strand c).
      split; [|exact Hp].
      apply bucket_build. exists c.
      split; [done|]. split; [done|]. split; [|done].
      by apply covers_touched.
Qed.

Lemma get_tag_build_witness :
  get_tag (build "exon" sample_calls) "chr1" "+" 150000 false = Some "exon"
  ∧ get_tag (build "exon" sample_calls) "chr1" "+" 300000 false = None
  ∧ get_tag (build "exon" sample_calls) "chr1" "+" 450 false
    = Some "exon-rev".
Proof.
  split; [|split].
  - apply (proj1 (get_tag_build "exon" sample_calls "chr1" "+" 150000)
             (Call "chr1" "+" 99000 250000)).
    + left.
    + reflexivity.
    + reflexivity.
    + unfold covers; simpl; lia.
  - apply (proj1 (proj2 (get_tag_build "exon" sample_calls "chr1" "+" 300000))).
    intros c Hin _.
    apply elem_of_cons in Hin as [->|Hin];
      [unfold covers; simpl; lia|].
    apply list_elem_of_singleton in Hin as ->. unfold covers; simpl; lia.
  - apply (proj2 (proj2 (get_tag_build "exon" sample_calls "chr1" "+" 450))).
    + intros c Hin _.
      apply elem_of_cons in Hin as [->|Hin];
        [unfold covers; simpl; lia|].
      apply list_elem_of_singleton in Hin as ->. intros _. discriminate.
    + exists (Call "chr1" "-" 400 500).
      split; [right; left|]. split; [reflexivity|].
      unfold covers; simpl; lia.
Defined.

(** C3. [add_range] puts the range at the head of every bin from the
    bin of [start] to the bin of [end_], and changes no other bin;
    [get_tag] reads the one bin of the queried position; and a range
    that covers a position is, after any later calls, still found in
    that bin. *)
Theorem add_range_bins (rm : t) (chrom strand : string) (start end_ : Z) :
  (∀ b, start / 100000 <= b <= end_ / 100000 →
     bucket (add_range rm chrom strand start end_) chrom b
     = (start, end_, strand) :: bucket rm chrom b)
  ∧ (∀ c b, ¬ (c = chrom ∧ touched start end_ b) →
     bucket (add_range rm chrom strand start end_) c b = bucket rm c b)
  ∧ (∀ pos, start <= pos <= end_ →
     ∀ later,
       (start, end_, strand)
         ∈ bucket (foldl apply_call (add_range rm chrom strand start end_) later)
                  chrom (pos / 100000))
  ∧ (∀ r c s pos ign,
       get_tag r c s pos ign
       = scan (name r) s pos ign false (bucket r c (pos / 100000))).
Proof.
  split; [|split; [|split]].
  - intros b Hb. rewrite bucket_add_range.
    rewrite decide_True; [done|].
    split; [done|]. unfold touched. lia.
  - intros c b Hn. rewrite bucket_add_range. by rewrite decide_False.
  - intros pos Hp later.
    induction later as [|c later IH] using rev_ind.
    + simpl. rewrite bucket_add_range. rewrite decide_True; [left|].
      split; [done|].
      apply (covers_touched (Call chrom strand start end_) pos Hp).
    + rewrite foldl_app. simpl. unfold apply_call at 1.
      rewrite bucket_add_range.
      destruct (decide _); [by right|done].
  - intros. apply get_tag_bucket.
Qed.

Lemma add_range_bins_witness :
  bucket (add_range (init "exon") "chr1" "+" 99000 250000) "chr1" 1
    = [(99000, 250000, "+")]
  ∧ bucket (add_range (init "exon") "chr1" "+" 99000 250000) "chr1" 3 = []
  ∧ (99000, 250000, "+")
      ∈ bucket (foldl apply_call
                  (add_range (init "exon") "chr1" "+" 99000 250000)
                  [Call "chr1" "-" 400 500])
               "chr1" (150000 / 100000).
Proof.
  destruct (add_range_bins (init "exon") "chr1" "+" 99000 250000)
    as (H1 & H2 & H3 & _).
  split; [|split].
  - apply (H1 1). vm_compute. split; discriminate.
  - rewrite (H2 "chr1" 3); [reflexivity|].
    intros [_ [H|[_ H]]]; vm_compute in H; [discriminate|by apply H].
  - apply (H3 150000). lia.
Defined.

End RangeMatchFacts.

(* ===================================================================== *)
(** * Facts about FeatureBin                                             *)
(* ===================================================================== *)

Section FeatureBinFacts.
Import FeatureBin.

Lemma add_numeric a b :
  Py.is_numeric a = true → Py.is_numeric b = true →
  ∃ c, Py.add a b = Py.Ok c ∧ Py.is_numeric c = true.
Proof.
  destruct a as [x| |p], b as [y| |q]; try discriminate; intros _ _;
    eexists; (split; reflexivity).
Qed.

Lemma mul_int_numeric k n :
  Py.is_numeric k = true → Py.is_numeric (Py.mul_int k n) = true.
Proof. destruct k as [x| |q]; try discriminate; reflexivity. Qed.

Lemma add_str a k n s :
  Py.is_numeric a = true → k = Py.PyStr s →
  Py.add a (Py.mul_int k n) = Py.Raise Py.TypeError.
Proof. intros Ha ->. by destruct a. Qed.

(** The loop over numeric keys runs to its end and counts exactly. *)
Lemma mean_loop_numeric entries : ∀ acc count,
  Py.is_numeric acc = true →
  Forall (fun kv => Py.is_numeric kv.1 = true) entries →
  ∃ acc', mean_loop entries acc count
          = Some (acc', count + count_sum entries)
          ∧ Py.is_numeric acc' = true.
Proof.
  induction entries as [|[k n] entries IH]; intros acc count Hacc Hall.
  - exists acc. simpl. by rewrite Z.add_0_r.
  - apply Forall_cons in Hall as [Hk Hall]. simpl in Hk.
    pose proof (mul_int_numeric k n Hk) as Hm.
    destruct (add_numeric acc (Py.mul_int k n) Hacc Hm) as (c & Hc & Hcn).
    destruct (IH c (count + n) Hcn Hall) as (acc' & Hl & Hn).
    exists acc'. simpl. rewrite Hc, Hl.
    split; [f_equal; f_equal; lia|done].
Qed.

(** Over integer keys the accumulator stays an integer: the sum is
    exact. *)
Lemma mean_loop_int entries : ∀ a count,
  Forall (fun kv => ∃ z, kv.1 = Py.PyInt z) entries →
  ∃ s, mean_loop entries (Py.PyInt a) count
       = Some (Py.PyInt s, count + count_sum entries)
       ∧ (inject_Z s == inject_Z a + weighted_sum entries)%Q.
Proof.
  induction entries as [|[k n] entries IH]; intros a count Hall.
  - exists a. simpl. rewrite Z.add_0_r, Qplus_0_r. done.
  - apply Forall_cons in Hall as [[z Hz] Hall]. simpl in Hz. subst k.
    destruct (IH (a + z * n) (count + n) Hall) as (s & Hl & Hs).
    exists s. cbn [mean_loop Py.mul_int Py.add]. rewrite Hl.
    split; [f_equal; f_equal; unfold count_sum; simpl; lia|].
    rewrite Hs. cbn [weighted_sum foldr fst snd Py.to_Q].
    rewrite inject_Z_plus, inject_Z_mult. fold (weighted_sum entries). ring.
Qed.

(** A string key makes the loop take the [except] branch, wherever the
    key comes in the walk. *)
Lemma mean_loop_string entries : ∀ acc count,
  Py.is_numeric acc = true →
  Exists (fun kv => Py.is_numeric kv.1 = false) entries →
  mean_loop entries acc count = None.
Proof.
  induction entries as [|[k n] entries IH]; intros acc count Hacc Hex.
  - by apply Exists_nil in Hex.
  - simpl. destruct (Py.is_numeric k) eqn:Hk.
    + pose proof (mul_int_numeric k n Hk) as Hm.
      destruct (add_numeric acc (Py.mul_int k n) Hacc Hm) as (c & -> & Hcn).
      apply IH; [done|].
      apply Exists_cons in Hex as [Hex|Hex]; [|done].
      simpl in Hex. congruence.
    + destruct k as [|s|]; try discriminate.
      by rewrite (add_str acc _ n s Hacc eq_refl).
Qed.

Lemma eqb_refl v : Py.eqb v v = true.
Proof.
  destruct v as [x|s|q]; simpl.
  - apply Z.eqb_refl.
  - by apply bool_decide_eq_true_2.
  - apply Qeq_bool_iff. reflexivity.
Qed.

Lemma eqb_to_Q a b : Py.eqb a b = true → (Py.to_Q a == Py.to_Q b)%Q.
Proof.
  destruct a as [x|s|p], b as [y|t|q]; simpl; intros H;
    try discriminate; try reflexivity; try (by apply Qeq_bool_iff).
  apply Z.eqb_eq in H as ->. reflexivity.
Qed.

Lemma incr_fresh val d :
  mem val d = false → incr val (d ++ [(val, 0)]) = d ++ [(val, 1)].
Proof.
  unfold mem. induction d as [|[k n] d IH]; simpl.
  - intros _. by rewrite eqb_refl.
  - intros H. apply orb_false_iff in H as [-> H]. by rewrite IH.
Qed.

Lemma incr_count_sum val d :
  mem val d = true → count_sum (incr val d) = count_sum d + 1.
Proof.
  unfold mem. induction d as [|[k n] d IH]; simpl; [discriminate|].
  destruct (Py.eqb k val); simpl; intros H.
  - lia.
  - rewrite IH by done. lia.
Qed.

Lemma incr_weighted_sum val d :
  mem val d = true →
  (weighted_sum (incr val d) == weighted_sum d + Py.to_Q val)%Q.
Proof.
  unfold mem. induction d as [|[k n] d IH]; simpl; [discriminate|].
  destruct (Py.eqb k val) eqn:Hk; simpl; intros H.
  - rewrite inject_Z_plus, <- (eqb_to_Q k val Hk). ring.
  - rewrite IH by done. ring.
Qed.

Lemma incr_keys val d : (incr val d).*1 = d.*1.
Proof.
  induction d as [|[k n] d IH]; [done|]. cbn [incr].
  destruct (Py.eqb k val); rewrite !fmap_cons; [done|]. by rewrite IH.
Qed.

Lemma count_sum_app d1 d2 : count_sum (d1 ++ d2) = count_sum d1 + count_sum d2.
Proof. induction d1 as [|[k n] d1 IH]; simpl; [done|]. rewrite IH. lia. Qed.

Lemma weighted_sum_app d1 d2 :
  (weighted_sum (d1 ++ d2) == weighted_sum d1 + weighted_sum d2)%Q.
Proof.
  induction d1 as [|[k n] d1 IH]; simpl; [ring|]. rewrite IH. ring.
Qed.

(** What one [add] does to the dictionary, whichever branch it takes. *)
Lemma add_val_bins fb val :
  count_sum (bins (add_val fb val)) = count_sum (bins fb) + 1
  ∧ (weighted_sum (bins (add_val fb val))
     == weighted_sum (bins fb) + Py.to_Q val)%Q
  ∧ ∀ k, k ∈ (bins (add_val fb val)).*1 → k ∈ (bins fb).*1 ∨ k = val.
Proof.
  unfold add_val; cbn [bins].
  destruct (mem val (bins fb)) eqn:Hm; cbn [negb].
  - split; [by apply incr_count_sum|].
    split; [by apply incr_weighted_sum|].
    intros k. rewrite incr_keys. by left.
  - rewrite incr_fresh by done.
    split; [rewrite !count_sum_app; simpl; lia|].
    split.
    + rewrite !weighted_sum_app. simpl. ring.
    + intros k. rewrite !fmap_app, !elem_of_app. simpl.
      rewrite !list_elem_of_singleton. tauto.
Qed.

Lemma of_values_snoc tg vals v :
  of_values tg (vals ++ [v]) = add_val (of_values tg vals) v.
Proof. unfold of_values. by rewrite foldl_app. Qed.

Lemma of_values_bins tg vals :
  count_sum (bins (of_values tg vals)) = Z.of_nat (length vals)
  ∧ (weighted_sum (bins (of_values tg vals)) == values_sum vals)%Q
  ∧ ∀ k, k ∈ (bins (of_values tg vals)).*1 → k ∈ vals.
Proof.
  induction vals as [|v vals (IHc & IHw & IHk)] using rev_ind.
  - split; [done|]. split; [reflexivity|].
    intros k Hk. by apply elem_of_nil in Hk.
  - rewrite of_values_snoc.
    destruct (add_val_bins (of_values tg vals) v) as (Hc & Hw & Hk).
    split; [rewrite Hc, IHc, length_app; simpl; lia|].
    split.
    + rewrite Hw, IHw. clear.
      induction vals as [|x vals IH]; simpl; [ring|]. rewrite <- IH. ring.
    + intros k Hin. apply elem_of_app.
      destruct (Hk k Hin) as [?| ->]; [left; auto|right; left].
Qed.

Lemma count_sum_perm d1 d2 : d1 ≡ₚ d2 → count_sum d1 = count_sum d2.
Proof.
  induction 1 as [|[k n] d1 d2 _ IH|[k n] [k' n'] d| d1 d2 d3 _ IH1 _ IH2];
    simpl; [done|by rewrite IH|lia|congruence].
Qed.

Lemma weighted_sum_perm d1 d2 :
  d1 ≡ₚ d2 → (weighted_sum d1 == weighted_sum d2)%Q.
Proof.
  induction 1 as [|[k n] d1 d2 _ IH|[k n] [k' n'] d| d1 d2 d3 _ IH1 _ IH2];
    simpl.
  - reflexivity.
  - by rewrite IH.
  - ring.
  - by rewrite IH1.
Qed.

Lemma foldr_max_from a zs :
  0 <= a → foldr Z.max a zs = Z.max (foldr Z.max 0 zs) a.
Proof.
  intros Ha. induction zs as [|x zs IH]; simpl; [lia|]. rewrite IH. lia.
Qed.

Lemma foldr_max_nonneg zs : 0 <= foldr Z.max 0 zs.
Proof. induction zs as [|x zs IH]; simpl; lia. Qed.

(** X19. Values that are integers and not negative, as lengths, mapping
    qualities and mismatch counts are: [max] is the largest of them.  A
    running maximum of [0] is replaced by the next value, which is not
    smaller. *)
Lemma max_of_nonneg tg zs :
  zs ≠ [] → Forall (fun z => 0 <= z) zs →
  max (of_values tg (Py.PyInt <$> zs)) = Some (Py.PyInt (foldr Z.max 0 zs)).
Proof.
  induction zs as [|z zs IH] using rev_ind; intros Hne Hall; [done|].
  apply Forall_app in Hall as [Hzs Hz]. rewrite Forall_singleton in Hz.
  rewrite fmap_app. change (Py.PyInt <$> [z]) with [Py.PyInt z].
  rewrite of_values_snoc, foldr_app. cbn [foldr].
  rewrite foldr_max_from by lia. rewrite (Z.max_l z 0) by lia.
  unfold max, add_val. cbn [_max].
  destruct zs as [|z0 zs0].
  - cbn. f_equal. f_equal. lia.
  - unfold max in IH. rewrite IH by done.
    set (m := foldr Z.max 0 (z0 :: zs0)).
    pose proof (foldr_max_nonneg (z0 :: zs0)) as Hm. fold m in Hm.
    cbn [Py.not_ Py.truthy lt_opt Py.ltb]. rewrite negb_involutive.
    destruct (Z.eqb_spec m 0) as [E|E]; cbn [orb].
    + f_equal. f_equal. lia.
    + destruct (Z.ltb_spec m z); f_equal; f_equal; lia.
Qed.

(** C7. [max] is not always the largest value added: once the running
    maximum is [0], the test [not self._max] holds and the next value
    replaces it, also when that value is negative.  Adding [0] and then
    [-1] leaves [-1]; the same values in the other order leave [0]. *)
Theorem max_after_zero :
  max (of_values "AS" [Py.PyInt 0; Py.PyInt (-1)]) = Some (Py.PyInt (-1))
  ∧ max (of_values "AS" [Py.PyInt (-1); Py.PyInt 0]) = Some (Py.PyInt 0).
Proof. split; reflexivity. Qed.

Lemma values_sum_int zs :
  (values_sum (Py.PyInt <$> zs) == inject_Z (foldr Z.add 0%Z zs))%Q.
Proof.
  induction zs as [|z zs IH]; [reflexivity|].
  rewrite fmap_cons. cbn [values_sum foldr Py.to_Q].
  fold (values_sum (Py.PyInt <$> zs)). rewrite IH, inject_Z_plus. reflexivity.
Qed.

(** C8. When a key of the dictionary is a string, [mean] is the integer
    [0], in whatever order the dictionary is walked.  When values were
    added, all of them numbers, [mean] is a float.  When all of them are
    integers, the two sums of the loop are exact, they are the sum and
    the number of the values added, and with both below [2^53] the
    [float(acc) / count] of [mean] is the double nearest to their
    quotient, whatever the order of the walk. *)
Theorem mean_zero_or_quotient :
  (∀ fb entries,
     entries ≡ₚ bins fb →
     Exists (fun kv => Py.is_numeric kv.1 = false) (bins fb) →
     mean_of entries = Py.Ok (Py.PyInt 0))
  ∧ (∀ tg vals entries,
       vals ≠ [] →
       Forall (fun v => Py.is_numeric v = true) vals →
       entries ≡ₚ bins (of_values tg vals) →
       ∃ q, mean_of entries = Py.Ok (Py.PyFloat q))
  ∧ (∀ tg zs entries,
       zs ≠ [] →
       entries ≡ₚ bins (of_values tg (Py.PyInt <$> zs)) →
       let total := foldr Z.add 0 zs in
       let count := Z.of_nat (length zs) in
       Z.abs total < 2 ^ 53 → count < 2 ^ 53 →
       mean_loop entries (Py.PyInt 0) 0 = Some (Py.PyInt total, count)
       ∧ mean_of entries
         = Py.Ok (Py.PyFloat
                    (Float.round (inject_Z total / inject_Z count)))).
Proof.
  split; [|split].
  - intros fb entries Hp Hex. unfold mean_of.
    rewrite (mean_loop_string entries (Py.PyInt 0) 0); [done|done|].
    by rewrite Hp.
  - intros tg vals entries Hne Hnum Hp.
    destruct (of_values_bins tg vals) as (Hc & _ & Hk).
    assert (Hkeys : Forall (fun kv => Py.is_numeric kv.1 = true) entries).
    { rewrite Hp. apply Forall_forall. intros [k n] Hin.
      rewrite Forall_forall in Hnum. apply Hnum, Hk.
      apply list_elem_of_fmap. by exists (k, n). }
    destruct (mean_loop_numeric entries (Py.PyInt 0) 0 eq_refl Hkeys)
      as (acc & Hl & Hn).
    assert (Hpos : count_sum entries ≠ 0).
    { rewrite (count_sum_perm _ _ Hp), Hc. destruct vals; [done|simpl; lia]. }
    unfold mean_of. rewrite Hl, Z.add_0_l. unfold Py.float_div.
    apply Z.eqb_neq in Hpos. rewrite Hpos.
    destruct acc; [by eexists|done|by eexists].
  - intros tg zs entries Hne Hp total count Ht Hcb.
    destruct (of_values_bins tg (Py.PyInt <$> zs)) as (Hc & Hw & Hk).
    assert (Hkeys : Forall (fun kv => ∃ z, kv.1 = Py.PyInt z) entries).
    { rewrite Hp. apply Forall_forall. intros [k n] Hin.
      assert (Hin' : k ∈ Py.PyInt <$> zs).
      { apply Hk, list_elem_of_fmap. by exists (k, n). }
      apply list_elem_of_fmap in Hin' as (z & -> & _). by exists z. }
    destruct (mean_loop_int entries 0 0 Hkeys) as (s & Hl & Hs).
    assert (Es : s = total).
    { apply inject_Z_injective.
      rewrite Hs, Qplus_0_l, (weighted_sum_perm _ _ Hp), Hw.
      apply values_sum_int. }
    assert (Ec : count_sum entries = count).
    { rewrite (count_sum_perm _ _ Hp), Hc. by rewrite length_fmap. }
    assert (Hpos : count ≠ 0).
    { unfold count. destruct zs; [done|simpl; lia]. }
    rewrite Z.add_0_l, Es, Ec in Hl. split; [exact Hl|].
    unfold mean_of. rewrite Hl. unfold Py.float_div.
    rewrite (proj2 (Z.eqb_neq count 0) Hpos). cbn [Py.to_float].
    rewrite (of_int_exact total) by done.
    rewrite (of_int_exact count) by lia. done.
Qed.

Lemma mean_zero_or_quotient_witness :
  mean (of_values "XS" [Py.PyInt 4; Py.PyStr "x"]) = Py.Ok (Py.PyInt 0)
  ∧ (∃ q, mean (of_values "XS" [Py.PyInt 4; Py.PyFloat (1 # 2)])
          = Py.Ok (Py.PyFloat q))
  ∧ mean (of_values "NM" [Py.PyInt 1; Py.PyInt 1; Py.PyInt 2; Py.PyInt 3])
    = Py.Ok (Py.PyFloat (Float.round (7 # 4))).
Proof.
  destruct mean_zero_or_quotient as (H1 & H2 & H3). split; [|split].
  - apply (H1 (of_values "XS" [Py.PyInt 4; Py.PyStr "x"])).
    + reflexivity.
    + right. left. reflexivity.
  - apply (H2 "XS" [Py.PyInt 4; Py.PyFloat (1 # 2)]).
    + discriminate.
    + repeat constructor.
    + reflexivity.
  - destruct (H3 "NM" [1; 1; 2; 3]
                (bins (of_values "NM" (Py.PyInt <$> [1; 1; 2; 3]))))
      as [_ Hq].
    + discriminate.
    + reflexivity.
    + vm_compute. reflexivity.
    + vm_compute. reflexivity.
    + exact Hq.
Defined.

(** The values 1, 2, 2: the quotient of the two sums is 5/3, which is no
    double, and [mean] is the double next to it, 1.6666666666666667: the
    mean is not the exact quotient. *)
Lemma mean_1_2_2_not_exact :
  (weighted_sum
     (bins (of_values "NM" [Py.PyInt 1; Py.PyInt 2; Py.PyInt 2]))
   / inject_Z
       (count_sum
          (bins (of_values "NM" [Py.PyInt 1; Py.PyInt 2; Py.PyInt 2])))
   == 5 # 3)%Q
  ∧ mean (of_values "NM" [Py.PyInt 1; Py.PyInt 2; Py.PyInt 2])
    = Py.Ok (Py.PyFloat (7505999378950827 # 4503599627370496))
  ∧ ¬ (7505999378950827 # 4503599627370496 == 5 # 3)%Q.
Proof.
  split; [|split].
  - reflexivity.
  - reflexivity.
  - discriminate.
Qed.

(** With float keys the sum is rounded at every step, and the mean
    follows the order of the walk: [2^60], [1] and [-2^60] give 0 in
    this order, and 1/3 rounded when the two large values meet first. *)
Example mean_float_walk :
  mean_of [(Py.PyFloat (inject_Z (2 ^ 60)), 1); (Py.PyFloat 1, 1);
           (Py.PyFloat (inject_Z (- 2 ^ 60)), 1)]
  = Py.Ok (Py.PyFloat 0)
  ∧ mean_of [(Py.PyFloat (inject_Z (2 ^ 60)), 1);
             (Py.PyFloat (inject_Z (- 2 ^ 60)), 1); (Py.PyFloat 1, 1)]
    = Py.Ok (Py.PyFloat (Float.round (1 # 3))).
Proof. split; vm_compute; reflexivity. Qed.

(** The values 1, 1, 2, 3: three keys with the counts 2, 1, 1, the mean
    7/4 and the maximum 3. *)
Example mean_max_1_1_2_3 :
  let fb := of_values "NM" [Py.PyInt 1; Py.PyInt 1; Py.PyInt 2; Py.PyInt 3] in
  bins fb = [(Py.PyInt 1, 2); (Py.PyInt 2, 1); (Py.PyInt 3, 1)]
  ∧ mean fb = Py.Ok (Py.PyFloat (7 # 4))
  ∧ max fb = Some (Py.PyInt 3).
Proof. repeat split; reflexivity. Qed.

(** C9. On a distribution to which nothing was added, [mean] raises
    [ZeroDivisionError]: the loop body, the only guarded part, is never
    run, and the division by [count = 0] is outside the [try]. *)
Theorem mean_empty (tg : string) :
  bins (init tg) = []
  ∧ mean (init tg) = Py.Raise Py.ZeroDivisionError
  ∧ mean (init tg) ≠ Py.Ok (Py.PyInt 0).
Proof. split; [|split]; [reflexivity|reflexivity|discriminate]. Qed.

End FeatureBinFacts.

(* ===================================================================== *)
(** * Facts about RegionTagger                                           *)
(* ===================================================================== *)

Section RegionTaggerFacts.
Import RegionTagger.

Lemma scan_result nm strand pos ign l : ∀ rv,
  RangeMatch.scan nm strand pos ign rv l = None
  ∨ RangeMatch.scan nm strand pos ign rv l = Some nm
  ∨ RangeMatch.scan nm strand pos ign rv l = Some (nm +:+ "-rev").
Proof.
  induction l as [|[[s e] r] l IH]; intros rv; simpl.
  - destruct rv; auto.
  - destruct ((s <=? pos) && (pos <=? e)); [|apply IH].
    destruct (ign || bool_decide (strand = r)); [auto|apply IH].
Qed.

Lemma get_tag_result rm chrom strand pos ign :
  RangeMatch.get_tag rm chrom strand pos ign = None
  ∨ RangeMatch.get_tag rm chrom strand pos ign = Some (RangeMatch.name rm)
  ∨ RangeMatch.get_tag rm chrom strand pos ign
    = Some (RangeMatch.name rm +:+ "-rev").
Proof. rewrite get_tag_bucket. apply scan_result. Qed.

Lemma exon_steps_named g ses : ∀ ix last_end,
  named ix → named (foldl (exon_step g) (ix, last_end) ses).1.
Proof.
  induction ses as [|[start end_] ses IH]; intros ix last_end Hn; [done|].
  simpl. apply IH. destruct Hn as (He & Hi & Hp).
  unfold named; simpl. split; [done|]. split; [|done].
  by destruct (last_end_set last_end).
Qed.

Lemma transcript_steps_named g trs : ∀ ix,
  named ix → named (foldl (transcript_step g) ix trs).
Proof.
  induction trs as [|tr trs IH]; intros ix Hn; [done|].
  simpl. apply IH. by apply exon_steps_named.
Qed.

Lemma gene_step_named chroms ix g : named ix → named (gene_step chroms ix g).
Proof.
  intros (He & Hi & Hp). unfold gene_step.
  destruct (negb (bool_decide (chrom g ∈ chroms))); [done|].
  apply transcript_steps_named. unfold named; simpl.
  split; [done|]. split; [done|].
  by destruct (bool_decide (strand g = "+")).
Qed.

Lemma build_indexes_named genes chroms : named (build_indexes genes chroms).
Proof.
  unfold build_indexes.
  assert (H0 : named (mkIndexes (RangeMatch.init "exon")
                        (RangeMatch.init "intron")
                        (RangeMatch.init "promoter"))) by done.
  revert H0. generalize (mkIndexes (RangeMatch.init "exon")
                           (RangeMatch.init "intron")
                           (RangeMatch.init "promoter")).
  induction genes as [|g genes IH]; intros ix Hn; [done|].
  simpl. apply IH. by apply gene_step_named.
Qed.

Lemma junction_loop_None cigar :
  junction_loop cigar None =
  if existsb (fun ol => ol.1 =? 3) cigar then Some "junction" else None.
Proof.
  induction cigar as [|[op len] cigar IH]; [done|].
  simpl. by destruct (op =? 3).
Qed.

(** With the three indexes named as [__init__] names them, the tag
    [add_read] settles on is the category of the specification, and it
    is one of the nine keys. *)
Lemma choose_tag_category tg ix read chrom :
  named ix →
  regions tg = [exons ix; introns ix; promoters ix] →
  choose_tag tg read chrom
    = Some (category (exons ix) (introns ix) (promoters ix) read chrom)
  ∧ category (exons ix) (introns ix) (promoters ix) read chrom ∈ categories.
Proof.
  intros (He & Hi & Hp) Hr. unfold choose_tag, category. rewrite Hr.
  destruct (bool_decide (chrom = "chrM")).
  { split; [done|]. unfold categories. set_solver. }
  cbn [tag_set negb]. rewrite junction_loop_None.
  destruct (existsb _ (Read.cigar read)).
  { split; [done|]. unfold categories. set_solver. }
  cbn [tag_set negb regions_loop].
  set (strand := if Read.is_reverse read then "-" else "+").
  destruct (get_tag_result (exons ix) chrom strand (Read.pos read) false)
    as [-> | [-> | ->]]; rewrite ?He;
    [|split; [done|unfold categories; set_solver]..].
  destruct (get_tag_result (introns ix) chrom strand (Read.pos read) false)
    as [-> | [-> | ->]]; rewrite ?Hi;
    [|split; [done|unfold categories; set_solver]..].
  destruct (get_tag_result (promoters ix) chrom strand (Read.pos read) false)
    as [-> | [-> | ->]]; rewrite ?Hp;
    split; first [done | unfold categories; set_solver].
Qed.

Lemma sum_insert (m : gmap string Z) key v l :
  NoDup l →
  foldr (fun k acc => (<[key := v]> m !!! k) + acc) 0 l
  = foldr (fun k acc => (m !!! k) + acc) 0 l
    + (if decide (key ∈ l) then v - m !!! key else 0).
Proof.
  induction l as [|x l IH]; intros Hnd.
  - cbn [foldr]. rewrite decide_False by apply not_elem_of_nil. done.
  - apply NoDup_cons in Hnd as [Hx Hnd]. cbn [foldr]. rewrite IH by done.
    destruct (decide (key = x)) as [->|Hne];
      [rewrite lookup_total_insert_eq
      |rewrite lookup_total_insert_ne by done];
      destruct (decide (_ ∈ l)) as [Hl|Hl];
      destruct (decide (_ ∈ x :: l)) as [Hxl|Hxl];
      try lia; exfalso;
      rewrite elem_of_cons in Hxl; intuition congruence.
Qed.

Lemma categories_NoDup : NoDup categories.
Proof. apply (bool_decide_unpack _). by vm_compute. Qed.

Lemma total_bump tg key n :
  key ∈ categories → counts tg !! key = Some n →
  total (bump tg key n) = total tg + 1.
Proof.
  intros Hin Hn. unfold total, bump. cbn [counts].
  rewrite sum_insert by apply categories_NoDup.
  rewrite decide_True by done.
  rewrite (lookup_total_correct _ _ _ Hn). lia.
Qed.

Lemma built_over_bump ix tg key n :
  built_over ix tg → built_over ix (bump tg key n).
Proof.
  intros [Hr Hc]. split; [done|].
  intros k Hk. cbn [bump counts].
  destruct (decide (key = k)) as [->|Hne].
  - rewrite lookup_insert_eq. eauto.
  - rewrite lookup_insert_ne by done. auto.
Qed.

Lemma built_over_init genes chroms :
  built_over (build_indexes genes chroms) (init genes chroms)
  ∧ total (init genes chroms) = 0.
Proof.
  split; [split; [done|]|done].
  intros k Hk. unfold categories in Hk.
  repeat (apply elem_of_cons in Hk as [->|Hk]; [by eexists|]).
  by apply elem_of_nil in Hk.
Qed.

(** One call of [add_read] on a tagger built over named indexes. *)
Lemma add_read_built ix tg read chrom :
  named ix → built_over ix tg →
  let cat := category (exons ix) (introns ix) (promoters ix) read chrom in
  if Read.is_unmapped read then add_read tg read chrom = Py.Ok tg
  else cat ∈ categories
       ∧ ∃ n, counts tg !! cat = Some n
              ∧ add_read tg read chrom = Py.Ok (bump tg cat n).
Proof.
  intros Hn [Hr Hc] cat. unfold add_read.
  destruct (Read.is_unmapped read); [done|].
  destruct (choose_tag_category tg ix read chrom Hn Hr) as [Ht Hin].
  fold cat in Ht, Hin. split; [done|].
  destruct (Hc cat Hin) as [n Hcat]. exists n. split; [done|].
  rewrite Ht. change (default "" (Some cat)) with cat.
  assert (tag_set (Some cat) = true) as ->.
  { unfold categories in Hin. clear -Hin.
    repeat (apply elem_of_cons in Hin as [->|Hin]; [done|]).
    by apply elem_of_nil in Hin. }
  by rewrite Hcat.
Qed.

Lemma add_reads_built ix rs : ∀ tg,
  named ix → built_over ix tg →
  ∃ tg', add_reads tg rs = Py.Ok tg'
         ∧ built_over ix tg'
         ∧ total tg' = total tg + mapped_reads rs.
Proof.
  induction rs as [|[read chrom] rs IH]; intros tg Hn Hb.
  - exists tg. unfold mapped_reads. simpl. split; [done|].
    split; [done|lia].
  - pose proof (add_read_built ix tg read chrom Hn Hb) as Hstep.
    cbn zeta in Hstep. cbn [add_reads].
    unfold mapped_reads. rewrite filter_cons. cbn [fst].
    destruct (Read.is_unmapped read) eqn:Hu.
    + rewrite Hstep. rewrite decide_False by done.
      destruct (IH tg Hn Hb) as (tg' & Hrun & Hb' & Ht).
      exists tg'. split; [exact Hrun|]. split; [done|exact Ht].
    + destruct Hstep as (Hin & n & Hcat & ->).
      rewrite decide_True by done.
      set (cat := category (exons ix) (introns ix) (promoters ix) read chrom)
        in *.
      destruct (IH (bump tg cat n) Hn (built_over_bump ix tg cat n Hb))
        as (tg' & Hrun & Hb' & Ht).
      exists tg'. split; [exact Hrun|]. split; [done|].
      rewrite Ht, total_bump by done.
      unfold mapped_reads. simpl length. lia.
Qed.

(** C1. A tagger made by [__init__] takes every list of reads without
    raising; the sum of its nine counters is then the number of mapped
    reads in the list; and its next [add_read] leaves it as it is for an
    unmapped read, and for a mapped read adds one to the counter of the
    read's category and to nothing else.  The category is the one the
    specification's priority gives over the exon, intron and promoter
    indexes. *)
Theorem add_read_one_counter (genes : list Gene) (chroms : list string)
    (rs : list (Read.t * string)) :
  let ix := build_indexes genes chroms in
  ∃ tg, add_reads (init genes chroms) rs = Py.Ok tg
        ∧ total tg = mapped_reads rs
        ∧ ∀ read chrom,
            let cat := category (exons ix) (introns ix) (promoters ix)
                         read chrom in
            if Read.is_unmapped read
            then add_read tg read chrom = Py.Ok tg
            else cat ∈ categories
                 ∧ ∃ n, counts tg !! cat = Some n
                        ∧ add_read tg read chrom = Py.Ok (bump tg cat n)
                        ∧ total (bump tg cat n) = total tg + 1.
Proof.
  intros ix.
  pose proof (build_indexes_named genes chroms) as Hn. fold ix in Hn.
  destruct (built_over_init genes chroms) as [Hb H0]. fold ix in Hb.
  destruct (add_reads_built ix rs _ Hn Hb) as (tg & Hrun & Hb' & Ht).
  exists tg. split; [exact Hrun|]. split; [lia|].
  intros read chrom cat.
  pose proof (add_read_built ix tg read chrom Hn Hb') as Hstep.
  cbn zeta in Hstep. fold cat in Hstep.
  destruct (Read.is_unmapped read); [exact Hstep|].
  destruct Hstep as (Hin & n & Hcat & Hadd).
  split; [done|]. exists n. split; [done|]. split; [done|].
  by apply total_bump.
Qed.

End RegionTaggerFacts.

(* ===================================================================== *)
(** * Facts about the flag report                                        *)
(* ===================================================================== *)

Section BamStatsFacts.
Import BamStats Samples.
Variable read_calc_mismatches : Read.t → Py.pyerr Py.pyval.

(** A read with a new name, when no gene model and no tag is asked
    for. *)
Lemma step_plain st read :
  Read.qname read ∉ names st →
  regiontagger st = None → tagbins st = [] →
  step read_calc_mismatches st read =
  Py.Ok {| flag_counts :=
             match flag_counts st !! Read.flag read with
             | None => <[Read.flag read := 1]> (flag_counts st)
             | Some n => <[Read.flag read := n + 1]> (flag_counts st)
             end;
           names := {[Read.qname read]} ∪ names st;
           total := total st + 1;
           mapped := if Read.is_unmapped read then mapped st
                     else mapped st + 1;
           unmapped := if Read.is_unmapped read then unmapped st + 1
                       else unmapped st;
           regiontagger := None;
           tagbins := [] |}.
Proof.
  intros Hq Ht Hb. unfold step.
  rewrite bool_decide_eq_false_2 by done. rewrite Ht, Hb.
  by destruct (Read.is_unmapped read).
Qed.

(** Three reads with distinct names and the flags [0x1], [0x1|0x4] and
    [0x10], whatever else they hold. *)
Lemma flag_report_1_5_16 (r1 r2 r3 : Read.t) :
  Read.flag r1 = 0x1 → Read.flag r2 = 0x5 → Read.flag r3 = 0x10 →
  NoDup [Read.qname r1; Read.qname r2; Read.qname r3] →
  ∃ st, run read_calc_mismatches (init None []) [r1; r2; r3] = Py.Ok st
        ∧ total st = 3
        ∧ flag_report st
          = [mkRow 0x1 "Multiple fragments" 2 (200 # 3);
             mkRow 0x10 "Reverse complimented" 1 (100 # 3)]
        ∧ tenths <$> (r_pct <$> flag_report st) = [667; 333]
        ∧ bit_count (flag_counts st) 0x4 = 1.
Proof.
  intros H1 H2 H3 Hnd.
  apply NoDup_cons in Hnd as [Hn1 Hnd].
  apply NoDup_cons in Hnd as [Hn2 _].
  apply not_elem_of_cons in Hn1 as [H12 Hn1].
  apply not_elem_of_cons in Hn1 as [H13 _].
  apply not_elem_of_cons in Hn2 as [H23 _].
  cbn [run].
  rewrite step_plain;
    [|cbn [names init]; set_unfold; intuition congruence|done|done].
  cbn [mbind pyerr_bind Py.bind].
  rewrite step_plain;
    [|cbn [names init]; set_unfold; intuition congruence|done|done].
  cbn [mbind pyerr_bind Py.bind].
  rewrite step_plain;
    [|cbn [names init]; set_unfold; intuition congruence|done|done].
  cbn [mbind pyerr_bind Py.bind].
  eexists. split; [reflexivity|].
  unfold Read.is_unmapped, flag_report. cbn [total flag_counts init].
  rewrite H1, H2, H3. vm_compute. repeat split; reflexivity.
Qed.

(** C6. On the three sample reads the report has the line of [0x1]
    with count 2 (66.7%) and the line of [0x10] with count 1 (33.3%),
    and no line for [0x4], although one read has bit [0x4] set: a bit
    gets a line only when it is itself one of the flag values seen. *)
Theorem flag_report_misses_bit :
  ∃ st, run read_calc_mismatches (init None []) flag_reads = Py.Ok st
        ∧ total st = 3
        ∧ flag_report st
          = [mkRow 0x1 "Multiple fragments" 2 (200 # 3);
             mkRow 0x10 "Reverse complimented" 1 (100 # 3)]
        ∧ tenths <$> (r_pct <$> flag_report st) = [667; 333]
        ∧ bit_count (flag_counts st) 0x4 = 1
        ∧ 0x4 ∉ r_flag <$> flag_report st.
Proof.
  destruct (flag_report_1_5_16
              (Read.mk "a" 0x1 "chr1" 100 30 [(0, 12)] sample_seq sample_seq [])
              (Read.mk "b" 0x5 "chr1" 0 0 [] sample_seq sample_seq [])
              (Read.mk "c" 0x10 "chr1" 200 30 [(0, 12)] sample_seq sample_seq []))
    as (st & Hrun & Ht & Hrep & Hpct & Hbit); [done|done|done| |].
  - apply (bool_decide_unpack _). by vm_compute.
  - exists st. split; [exact Hrun|]. split; [done|]. split; [done|].
    split; [done|]. split; [done|].
    rewrite Hrep. cbn. intros Hin.
    apply elem_of_cons in Hin as [Hin|Hin]; [discriminate|].
    apply list_elem_of_singleton in Hin. discriminate.
Qed.

End BamStatsFacts.

(* ===================================================================== *)
(** * Facts about slices                                                 *)
(* ===================================================================== *)

Section SliceFacts.
Context {A : Type}.
Implicit Types s : list A.

(** [s[lo:]] drops [lo] elements. *)
Lemma slice_from lo s :
  0 <= lo → Py.slice lo None s = drop (Z.to_nat lo) s.
Proof.
  intros Hlo. unfold Py.slice, Py.norm_index.
  rewrite (proj2 (Z.ltb_ge lo 0)) by done.
  rewrite Nat2Z.id, firstn_all.
  destruct (Z.le_gt_cases lo (Z.of_nat (length s))).
  - by rewrite Z.min_l.
  - rewrite Z.min_r by lia. rewrite Nat2Z.id.
    rewrite !drop_ge; [done|lia|lia].
Qed.

(** [s[lo:-k]] drops [lo] elements of what is left without the last
    [k]. *)
Lemma slice_from_to lo k s :
  0 <= lo → 0 < k →
  Py.slice lo (Some (- k)) s
  = drop (Z.to_nat lo) (take (length s - Z.to_nat k) s).
Proof.
  intros Hlo Hk. unfold Py.slice, Py.norm_index.
  rewrite (proj2 (Z.ltb_ge lo 0)) by done.
  rewrite (proj2 (Z.ltb_lt (- k) 0)) by lia.
  replace (Z.to_nat (Z.max 0 (- k + Z.of_nat (length s))))
    with (length s - Z.to_nat k)%nat by lia.
  destruct (Z.le_gt_cases lo (Z.of_nat (length s))).
  - by rewrite Z.min_l.
  - rewrite Z.min_r by lia. rewrite Nat2Z.id.
    rewrite !drop_ge; [done|rewrite length_take; lia|rewrite length_take; lia].
Qed.

Lemma slice_from_length lo s :
  0 <= lo →
  Py.len (Py.slice lo None s) = Z.max 0 (Py.len s - lo).
Proof.
  intros Hlo. rewrite slice_from by done. unfold Py.len.
  rewrite length_drop. lia.
Qed.

Lemma slice_from_to_length lo k s :
  0 <= lo → 0 < k →
  Py.len (Py.slice lo (Some (- k)) s) = Z.max 0 (Py.len s - k - lo).
Proof.
  intros Hlo Hk. rewrite slice_from_to by done. unfold Py.len.
  rewrite length_drop, length_take. lia.
Qed.

(** Cutting [lo] in front and [k] at the end of a sequence that is long
    enough. *)
Lemma slice_middle lo k s :
  0 <= lo → 0 < k → lo + k <= Py.len s →
  ∃ front back,
    s = front ++ Py.slice lo (Some (- k)) s ++ back
    ∧ Py.len front = lo ∧ Py.len back = k.
Proof.
  intros Hlo Hk Hlen. unfold Py.len in *.
  exists (take (Z.to_nat lo) s), (drop (length s - Z.to_nat k) s).
  rewrite slice_from_to by done.
  split; [|split].
  - rewrite <- (take_drop (length s - Z.to_nat k) s) at 1.
    rewrite <- (take_drop (Z.to_nat lo) (take (length s - Z.to_nat k) s)) at 1.
    rewrite take_take. rewrite Nat.min_l by lia.
    by rewrite <- app_assoc.
  - rewrite length_take. lia.
  - rewrite length_drop. lia.
Qed.

End SliceFacts.

(* ===================================================================== *)
(** * Facts about bam_removeclipping                                     *)
(* ===================================================================== *)

Section RemoveClippingFacts.
Import RemoveClipping Samples.

Lemma last_or_cons d x l : last_or d (x :: l) = last_or x l.
Proof. unfold last_or. rewrite last_cons. by destruct (last l). Qed.

Lemma if_retained {B} op len (x y : B) :
  (if decide (retained (op, len)) then x else y)
  = if (op =? 4) || (op =? 5) then y else x.
Proof.
  unfold retained. cbn [fst].
  destruct (Z.eqb_spec op 4), (Z.eqb_spec op 5), (decide (op ≠ 4 ∧ op ≠ 5));
    simpl; first [done | tauto].
Qed.

Lemma soft_lengths_cons op len cigar :
  soft_lengths ((op, len) :: cigar)
  = if op =? 4 then len :: soft_lengths cigar else soft_lengths cigar.
Proof.
  unfold soft_lengths. rewrite filter_cons. cbn [fst].
  destruct (Z.eqb_spec op 4), (decide (op = 4)); done.
Qed.

Lemma filter_retained_cons op len cigar :
  filter retained ((op, len) :: cigar)
  = if (op =? 4) || (op =? 5) then filter retained cigar
    else (op, len) :: filter retained cigar.
Proof. rewrite filter_cons. apply if_retained. Qed.

(** The loop once a retained operation was seen. *)
Lemma loop_inseq cigar : ∀ v,
  inseq v = true →
  foldl cigar_step v cigar
  = mkVars (newcigar v ++ filter retained cigar) (clip_5 v)
      (last_or (clip_3 v) (soft_lengths cigar))
      (changed v || has_clip cigar) true.
Proof.
  induction cigar as [|[op len] cigar IH]; intros [nc c5 c3 ch ins] Hv;
    simpl in Hv; subst ins.
  - simpl. by rewrite app_nil_r, orb_false_r.
  - cbn [foldl]. rewrite soft_lengths_cons, filter_retained_cons.
    unfold has_clip. cbn [existsb fst]. unfold cigar_step.
    destruct (Z.eqb_spec op 5) as [->|H5];
      [change (5 =? 4) with false
      |destruct (Z.eqb_spec op 4) as [->|H4]];
      rewrite IH by done; cbn [newcigar clip_5 clip_3 changed inseq negb orb].
    + by rewrite orb_true_r.
    + by rewrite last_or_cons, orb_true_r.
    + by rewrite <- app_assoc.
Qed.

(** The loop from its start, or as long as no retained operation was
    seen. *)
Lemma loop_not_inseq cigar : ∀ v,
  inseq v = false →
  foldl cigar_step v cigar
  = mkVars (newcigar v ++ filter retained cigar)
      (last_or (clip_5 v) (soft_lengths (leading cigar)))
      (last_or (clip_3 v) (soft_lengths (trailing cigar)))
      (changed v || has_clip cigar)
      (bool_decide (trailing cigar ≠ [])).
Proof.
  induction cigar as [|[op len] cigar IH]; intros [nc c5 c3 ch ins] Hv;
    simpl in Hv; subst ins.
  - simpl. by rewrite app_nil_r, orb_false_r.
  - cbn [foldl leading trailing].
    rewrite filter_retained_cons, !if_retained.
    unfold has_clip. cbn [existsb fst]. unfold cigar_step at 2.
    destruct (Z.eqb_spec op 5) as [->|H5];
      [change (5 =? 4) with false
      |destruct (Z.eqb_spec op 4) as [->|H4]];
      cbn [newcigar clip_5 clip_3 changed inseq negb orb].
    + rewrite IH by done. cbn [newcigar clip_5 clip_3 changed inseq].
      rewrite soft_lengths_cons. change (5 =? 4) with false. cbn iota.
      by rewrite !orb_true_r.
    + rewrite IH by done. cbn [newcigar clip_5 clip_3 changed inseq orb].
      rewrite soft_lengths_cons. change (4 =? 4) with true. cbn iota.
      by rewrite last_or_cons, orb_true_r.
    + rewrite loop_inseq by done.
      cbn [newcigar clip_5 clip_3 changed inseq orb].
      rewrite soft_lengths_cons.
      rewrite (proj2 (Z.eqb_neq op 4)) by done.
      rewrite <- app_assoc. by rewrite bool_decide_eq_true_2.
Qed.

Lemma cigar_loop_vars cigar :
  cigar_loop cigar
  = mkVars (filter retained cigar)
      (last_or 0 (soft_lengths (leading cigar)))
      (last_or 0 (soft_lengths (trailing cigar)))
      (has_clip cigar)
      (bool_decide (trailing cigar ≠ [])).
Proof. unfold cigar_loop. by rewrite loop_not_inseq. Qed.

Lemma has_clip_retained cigar :
  has_clip cigar = false ↔ Forall retained cigar.
Proof.
  unfold has_clip. induction cigar as [|[op len] cigar IH]; simpl.
  - split; [constructor|done].
  - rewrite orb_false_iff, IH, Forall_cons. unfold retained at 2. cbn [fst].
    destruct (Z.eqb_spec op 4), (Z.eqb_spec op 5); simpl; intuition congruence.
Qed.

Lemma filter_retained_all cigar :
  Forall retained cigar → filter retained cigar = cigar.
Proof.
  induction 1 as [|ol cigar Hr _ IH]; [done|].
  rewrite filter_cons, decide_True by done. by rewrite IH.
Qed.

Lemma filter_retained_Forall cigar : Forall retained (filter retained cigar).
Proof.
  apply Forall_forall. intros ol Hin.
  by apply list_elem_of_filter in Hin as [? _].
Qed.

Lemma soft_lengths_retained cigar :
  Forall retained cigar → soft_lengths cigar = [].
Proof.
  induction 1 as [|[op len] cigar [H4 _] _ IH]; [done|].
  rewrite soft_lengths_cons. cbn [fst] in H4.
  by rewrite (proj2 (Z.eqb_neq op 4)).
Qed.

Lemma soft_lengths_app c1 c2 :
  soft_lengths (c1 ++ c2) = soft_lengths c1 ++ soft_lengths c2.
Proof. unfold soft_lengths. by rewrite filter_app, fmap_app. Qed.

Lemma leading_trailing cigar : leading cigar ++ trailing cigar = cigar.
Proof.
  induction cigar as [|ol cigar IH]; [done|]. simpl.
  destruct (decide (retained ol)); [done|]. simpl. by rewrite IH.
Qed.

Lemma soft_lengths_split cigar :
  soft_lengths cigar
  = soft_lengths (leading cigar) ++ soft_lengths (trailing cigar).
Proof. by rewrite <- soft_lengths_app, leading_trailing. Qed.

Lemma zsum_app l1 l2 : zsum (l1 ++ l2) = zsum l1 + zsum l2.
Proof.
  unfold zsum. induction l1 as [|x l1 IH]; simpl; [done|]. rewrite IH. lia.
Qed.

(** With positive lengths, the last length of a list is below the sum
    of the list as soon as the list has two elements. *)
Lemma last_or_below l : ∀ x,
  Forall (fun n => 0 < n) l → 0 < x →
  last_or x l <= x + zsum l ∧ (last_or x l = x + zsum l ↔ l = []).
Proof.
  induction l as [|y l IH]; intros x Hl Hx.
  - unfold last_or, zsum. simpl. split; [lia|]. split; [done|lia].
  - apply Forall_cons in Hl as [Hy Hl].
    rewrite last_or_cons. destruct (IH y Hl Hy) as [Hle _].
    unfold zsum in *. simpl. split; [lia|]. split; [lia|done].
Qed.

Lemma last_or_sum l :
  Forall (fun n => 0 < n) l →
  last_or 0 l <= zsum l
  ∧ (last_or 0 l = zsum l ↔ (length l <= 1)%nat).
Proof.
  destruct l as [|x l]; intros Hl.
  - unfold last_or, zsum. simpl. split; [lia|]. split; [lia|done].
  - apply Forall_cons in Hl as [Hx Hl]. rewrite last_or_cons.
    destruct (last_or_below l x Hl Hx) as [Hle Heq].
    change (zsum (x :: l)) with (x + zsum l).
    split; [done|]. rewrite Heq. simpl. split.
    + intros ->. simpl. lia.
    + intros H. destruct l; [done|simpl in H; lia].
Qed.

Lemma last_or_nonneg l :
  Forall (fun n => 0 <= n) l → 0 <= last_or 0 l.
Proof.
  unfold last_or. intros Hl.
  destruct (last l) as [x|] eqn:Hx; simpl; [|lia].
  rewrite Forall_forall in Hl. apply Hl.
  apply last_Some in Hx as [l' ->]. apply elem_of_app. right. left.
Qed.

Lemma qual_slice_some lo hi q :
  q ≠ [] → qual_slice lo hi q = Py.Ok (Py.slice lo hi q).
Proof. by destruct q. Qed.

(** What [transform] does to a mapped read that has a clip, a sequence
    that is not empty and a quality string. *)
Lemma transform_clipped read :
  Read.is_unmapped read = false →
  has_clip (Read.cigar read) = true →
  Py.len (Read.seq read) ≠ 0 →
  Read.qual read ≠ [] →
  let c5 := last_or 0 (soft_lengths (leading (Read.cigar read))) in
  let c3 := last_or 0 (soft_lengths (trailing (Read.cigar read))) in
  let hi := if negb (c3 =? 0) then Some (- c3) else None in
  transform read
  = Py.Ok ({| Read.qname := Read.qname read;
              Read.flag := Read.flag read;
              Read.rname := Read.rname read;
              Read.pos := Read.pos read;
              Read.mapq := Read.mapq read;
              Read.cigar := filter retained (Read.cigar read);
              Read.seq := Py.slice c5 hi (Read.seq read);
              Read.qual := Py.slice c5 hi (Read.qual read);
              Read.tags :=
                Read.tags read
                ++ (if negb (c5 =? 0) then [("ZA", Py.PyInt c5)] else [])
                ++ (if negb (c3 =? 0) then [("ZB", Py.PyInt c3)] else [])
                ++ [("ZC", Py.PyFloat
                             (Float.round
                                (Float.of_int (c5 + c3)
                                 / Float.of_int (Py.len (Read.seq read)))))]
           |}, true).
Proof.
  intros Hm Hc Hl Hq c5 c3 hi. unfold transform.
  rewrite Hm, cigar_loop_vars. cbn [negb changed clip_5 clip_3 newcigar].
  rewrite Hc. fold c5 c3. unfold Py.float_div.
  rewrite (proj2 (Z.eqb_neq _ 0) Hl).
  rewrite !qual_slice_some by done.
  cbn [mbind pyerr_bind Py.bind Py.to_float]. subst hi.
  destruct (negb (c3 =? 0)), (negb (c5 =? 0));
    cbn [mbind pyerr_bind Py.bind app]; rewrite <- ?app_assoc; cbn [app];
    reflexivity.
Qed.

(** Without a quality string the slice of [q] raises. *)
Lemma transform_no_qual read :
  Read.is_unmapped read = false →
  has_clip (Read.cigar read) = true →
  Read.qual read = [] →
  transform read = Py.Raise Py.TypeError.
Proof.
  intros Hm Hc Hq. unfold transform.
  rewrite Hm, cigar_loop_vars. cbn [negb changed clip_5 clip_3 newcigar].
  rewrite Hc, Hq. by destruct (negb (_ =? 0)).
Qed.

Lemma qual_of_len read :
  Py.len (Read.seq read) ≠ 0 →
  Py.len (Read.qual read) = Py.len (Read.seq read) →
  Read.qual read ≠ [].
Proof. intros Hl Hq E. rewrite E in Hq. unfold Py.len in *. simpl in Hq. lia. Qed.

(** The variables after the loop, for a cigar made of a soft clip, kept
    operations and a soft clip. *)
Lemma cigar_loop_clip_mid_clip a mid b :
  mid ≠ [] → Forall retained mid →
  cigar_loop ((4, a) :: mid ++ [(4, b)]) = mkVars mid a b true true.
Proof.
  intros Hne Hmid. rewrite cigar_loop_vars.
  destruct mid as [|m mid']; [done|].
  pose proof Hmid as Hm. apply Forall_cons in Hm as [Hm _].
  assert (Hl : leading ((4, a) :: (m :: mid') ++ [(4, b)]) = [(4, a)]).
  { cbn [leading app]. rewrite decide_False by (intros [? _]; done).
    by rewrite decide_True. }
  assert (Ht : trailing ((4, a) :: (m :: mid') ++ [(4, b)])
               = (m :: mid') ++ [(4, b)]).
  { cbn [trailing app]. rewrite decide_False by (intros [? _]; done).
    by rewrite decide_True. }
  rewrite Hl, Ht. rewrite filter_retained_cons. cbn [orb Z.eqb Pos.eqb].
  rewrite filter_app, (filter_retained_all _ Hmid).
  rewrite soft_lengths_app, (soft_lengths_retained _ Hmid).
  by rewrite app_nil_r.
Qed.

(** C4. A mapped read whose cigar is a soft clip of 5, kept operations
    and a soft clip of 3, over a sequence and a quality string of length
    [L >= 8]: the cigar becomes the kept operations, the sequence and
    the quality lose their first 5 and last 3 characters and have length
    [L - 5 - 3], and the tags ZA = 5, ZB = 3 and ZC = 8 / L, the float of
    this division, are appended.  And whenever the 3' clip is zero, the
    sequence and the quality of a read that has both lose only their
    first [clip_5] characters. *)
Theorem transform_clip_5_3 :
  (∀ read mid,
     Read.is_unmapped read = false →
     Read.cigar read = (4, 5) :: mid ++ [(4, 3)] →
     mid ≠ [] → Forall retained mid →
     8 <= Py.len (Read.seq read) →
     Py.len (Read.qual read) = Py.len (Read.seq read) →
     ∃ seq1 qual1,
       transform read
       = Py.Ok ({| Read.qname := Read.qname read;
                   Read.flag := Read.flag read;
                   Read.rname := Read.rname read;
                   Read.pos := Read.pos read;
                   Read.mapq := Read.mapq read;
                   Read.cigar := mid;
                   Read.seq := seq1;
                   Read.qual := qual1;
                   Read.tags :=
                     Read.tags read
                     ++ [("ZA", Py.PyInt 5); ("ZB", Py.PyInt 3);
                         ("ZC", Py.PyFloat
                                  (Float.round
                                     (Float.of_int 8
                                      / Float.of_int
                                          (Py.len (Read.seq read)))))]
                |}, true)
       ∧ Py.len seq1 = Py.len (Read.seq read) - 5 - 3
       ∧ Py.len qual1 = Py.len (Read.seq read) - 5 - 3
       ∧ (∃ front back, Read.seq read = front ++ seq1 ++ back
                        ∧ Py.len front = 5 ∧ Py.len back = 3)
       ∧ (∃ front back, Read.qual read = front ++ qual1 ++ back
                        ∧ Py.len front = 5 ∧ Py.len back = 3))
  ∧ (∀ read,
       Read.is_unmapped read = false →
       Forall (fun n => 0 <= n) (soft_lengths (Read.cigar read)) →
       changed (cigar_loop (Read.cigar read)) = true →
       clip_3 (cigar_loop (Read.cigar read)) = 0 →
       Py.len (Read.seq read) ≠ 0 →
       Py.len (Read.qual read) = Py.len (Read.seq read) →
       ∃ read1,
         transform read = Py.Ok (read1, true)
         ∧ Read.seq read1
           = drop (Z.to_nat (clip_5 (cigar_loop (Read.cigar read))))
                  (Read.seq read)
         ∧ Read.qual read1
           = drop (Z.to_nat (clip_5 (cigar_loop (Read.cigar read))))
                  (Read.qual read)).
Proof.
  split.
  - intros read mid Hm Hc Hne Hmid HL Hq.
    pose proof (cigar_loop_clip_mid_clip 5 mid 3 Hne Hmid) as Hv.
    rewrite <- Hc, cigar_loop_vars in Hv.
    injection Hv as Hnc H5 H3 Hch _.
    assert (HL0 : Py.len (Read.seq read) ≠ 0) by lia.
    pose proof (transform_clipped read Hm Hch HL0 (qual_of_len read HL0 Hq))
      as Ht.
    cbn zeta in Ht. rewrite H5, H3, Hnc in Ht.
    change (negb (3 =? 0)) with true in Ht.
    change (negb (5 =? 0)) with true in Ht.
    cbn iota in Ht. cbn [app] in Ht. change (5 + 3) with 8 in Ht.
    eexists _, _. split; [exact Ht|].
    rewrite !slice_from_to_length by lia. rewrite Hq.
    split; [lia|]. split; [lia|].
    split; apply slice_middle; lia.
  - intros read Hm Hnn Hch H3 HL Hq.
    rewrite cigar_loop_vars in Hch, H3 |- *. cbn [changed clip_3 clip_5] in *.
    pose proof (transform_clipped read Hm Hch HL (qual_of_len read HL Hq))
      as Ht.
    cbn zeta in Ht. rewrite H3 in Ht.
    change (negb (0 =? 0)) with false in Ht. cbn iota in Ht.
    eexists. split; [exact Ht|]. cbn [Read.seq Read.qual].
    assert (0 <= last_or 0 (soft_lengths (leading (Read.cigar read)))).
    { apply last_or_nonneg.
      rewrite soft_lengths_split in Hnn. by apply Forall_app in Hnn as [? _]. }
    by rewrite !slice_from.
Qed.

Lemma transform_clip_5_3_witness :
  (∃ seq1 qual1,
     transform sample_read
     = Py.Ok (Read.mk "r1" 0 "chr1" 100 30 [(0, 4)] seq1 qual1
                [("NM", Py.PyInt 1); ("ZA", Py.PyInt 5); ("ZB", Py.PyInt 3);
                 ("ZC", Py.PyFloat (Float.round (8 # 12)))], true)
     ∧ Py.len seq1 = 4)
  ∧ ∃ read1, transform sample_read_front = Py.Ok (read1, true)
             ∧ Read.seq read1 = list_ascii_of_string "CCCCGGG"
             ∧ Read.qual read1 = list_ascii_of_string "CCCCGGG".
Proof.
  destruct transform_clip_5_3 as [H1 H2]. split.
  - destruct (H1 sample_read [(0, 4)]) as (seq1 & qual1 & Ht & Hs & _).
    + reflexivity.
    + reflexivity.
    + discriminate.
    + repeat constructor; discriminate.
    + vm_compute. discriminate.
    + reflexivity.
    + exists seq1, qual1. split; [exact Ht|exact Hs].
  - destruct (H2 sample_read_front) as (read1 & Ht & Hs & Hq).
    + reflexivity.
    + repeat constructor. discriminate.
    + reflexivity.
    + reflexivity.
    + discriminate.
    + reflexivity.
    + exists read1. split; [exact Ht|]. split; [exact Hs|exact Hq].
Defined.

(** C5. A read whose cigar has no soft and no hard clip goes through
    unchanged: the loop leaves [changed] false and the read written is
    the read that was read, with the same cigar, sequence, quality and
    tags.  Hence a read that came out of the transform comes out of a
    second one as it is. *)
Theorem transform_idempotent :
  (∀ read,
     Forall retained (Read.cigar read) →
     changed (cigar_loop (Read.cigar read)) = false
     ∧ transform read = Py.Ok (read, false))
  ∧ (∀ read read1 altered,
       transform read = Py.Ok (read1, altered) →
       transform read1 = Py.Ok (read1, false)).
Proof.
  assert (H1 : ∀ read, Forall retained (Read.cigar read) →
               changed (cigar_loop (Read.cigar read)) = false
               ∧ transform read = Py.Ok (read, false)).
  { intros read Hr. apply has_clip_retained in Hr.
    unfold transform. rewrite cigar_loop_vars. cbn [changed]. rewrite Hr.
    split; [done|]. by destruct (negb (Read.is_unmapped read)). }
  split; [exact H1|].
  intros read read1 altered Ht.
  unfold transform in Ht.
  destruct (Read.is_unmapped read) eqn:Hm; cbn [negb] in Ht.
  { injection Ht as <- _. unfold transform. by rewrite Hm. }
  rewrite cigar_loop_vars in Ht. cbn [changed clip_5 clip_3 newcigar] in Ht.
  destruct (has_clip (Read.cigar read)) eqn:Hc.
  - destruct (negb (last_or 0 (soft_lengths (trailing (Read.cigar read)))
                    =? 0)) in Ht;
      destruct (qual_slice _ _ _) as [qual1|e] in Ht;
      cbn [mbind pyerr_bind Py.bind] in Ht; try discriminate;
      destruct (Py.float_div _ _) as [zc|e] in Ht;
      cbn [mbind pyerr_bind Py.bind] in Ht;
      first [discriminate | injection Ht as <- _];
      apply H1; cbn [Read.cigar]; apply filter_retained_Forall.
  - injection Ht as <- _. apply H1.
    by apply (proj1 (has_clip_retained (Read.cigar read))).
Qed.

Lemma transform_idempotent_witness :
  transform sample_read_plain = Py.Ok (sample_read_plain, false)
  ∧ transform sample_read = Py.Ok (sample_read_clipped, true)
  ∧ transform sample_read_clipped = Py.Ok (sample_read_clipped, false).
Proof.
  destruct transform_idempotent as [H1 H2]. split; [|split].
  - apply (H1 sample_read_plain). repeat constructor; discriminate.
  - reflexivity.
  - apply (H2 sample_read sample_read_clipped true). reflexivity.
Defined.

Lemma last_or_positive l :
  Forall (fun n => 0 < n) l → l ≠ [] → 0 < last_or 0 l.
Proof.
  unfold last_or. intros Hl Hne.
  destruct (last l) as [x|] eqn:Hx; simpl.
  - rewrite Forall_forall in Hl. apply Hl.
    apply last_Some in Hx as [l' ->]. apply elem_of_app. right. left.
  - by apply last_None in Hx.
Qed.

(** What a slice with bounds that are not negative removes: as much as
    the two bounds ask for, or all there is. *)
Lemma slice_removed {A} (s : list A) c5 c3 :
  0 <= c5 → 0 <= c3 →
  Py.len s
  - Py.len (Py.slice c5 (if negb (c3 =? 0) then Some (- c3) else None) s)
  = Z.min (Py.len s) (c5 + c3).
Proof.
  intros H5 H3. unfold Py.len at 1 3.
  destruct (Z.eqb_spec c3 0) as [->|Hne]; cbn [negb].
  - rewrite slice_from_length by done. unfold Py.len. lia.
  - rewrite slice_from_to_length by lia. unfold Py.len. lia.
Qed.

(** C10. The 5' clip that is recorded is the length of the last soft
    clip before the first kept operation, the 3' clip that of the last
    soft clip after it (0 when there is none): each soft clip overwrites
    the one before.  With soft clips of positive length, the two
    recorded clips add up to the total soft-clipped length exactly when
    each side has at most one soft clip.  For a mapped read with bases
    and a quality string of which a side has two or more soft clips, all
    of positive length: the recorded clips add up to less than the
    total, ZA and ZB hold the last lengths, and the sequence and the
    quality lose [clip_5 + clip_3] characters, or all they have when
    they have fewer. *)
Theorem clip_is_last_soft_clip :
  (∀ cigar,
     clip_5 (cigar_loop cigar) = last_or 0 (soft_lengths (leading cigar))
     ∧ clip_3 (cigar_loop cigar) = last_or 0 (soft_lengths (trailing cigar)))
  ∧ (∀ cigar,
       Forall (fun n => 0 < n) (soft_lengths cigar) →
       ((2 <= length (soft_lengths (leading cigar)))%nat →
          clip_5 (cigar_loop cigar) < zsum (soft_lengths (leading cigar)))
       ∧ ((2 <= length (soft_lengths (trailing cigar)))%nat →
          clip_3 (cigar_loop cigar) < zsum (soft_lengths (trailing cigar)))
       ∧ (clip_5 (cigar_loop cigar) + clip_3 (cigar_loop cigar)
          = zsum (soft_lengths cigar)
          ↔ (length (soft_lengths (leading cigar)) <= 1)%nat
            ∧ (length (soft_lengths (trailing cigar)) <= 1)%nat))
  ∧ (∀ read,
       Read.is_unmapped read = false →
       Forall (fun n => 0 < n) (soft_lengths (Read.cigar read)) →
       Py.len (Read.seq read) ≠ 0 →
       Py.len (Read.qual read) = Py.len (Read.seq read) →
       (2 <= length (soft_lengths (leading (Read.cigar read))))%nat
       ∨ (2 <= length (soft_lengths (trailing (Read.cigar read))))%nat →
       let c5 := clip_5 (cigar_loop (Read.cigar read)) in
       let c3 := clip_3 (cigar_loop (Read.cigar read)) in
       ∃ read1,
         transform read = Py.Ok (read1, true)
         ∧ c5 + c3 < zsum (soft_lengths (Read.cigar read))
         ∧ Py.len (Read.seq read) - Py.len (Read.seq read1)
           = Z.min (Py.len (Read.seq read)) (c5 + c3)
         ∧ Py.len (Read.qual read) - Py.len (Read.qual read1)
           = Z.min (Py.len (Read.qual read)) (c5 + c3)
         ∧ (soft_lengths (leading (Read.cigar read)) ≠ [] →
            ("ZA", Py.PyInt
                     (last_or 0 (soft_lengths (leading (Read.cigar read)))))
            ∈ Read.tags read1)
         ∧ (soft_lengths (trailing (Read.cigar read)) ≠ [] →
            ("ZB", Py.PyInt
                     (last_or 0 (soft_lengths (trailing (Read.cigar read)))))
            ∈ Read.tags read1)).
Proof.
  assert (Hsides : ∀ cigar,
    Forall (fun n => 0 < n) (soft_lengths cigar) →
    Forall (fun n => 0 < n) (soft_lengths (leading cigar))
    ∧ Forall (fun n => 0 < n) (soft_lengths (trailing cigar))).
  { intros cigar H. rewrite soft_lengths_split in H.
    by apply Forall_app in H. }
  split; [|split].
  - intros cigar. by rewrite cigar_loop_vars.
  - intros cigar Hpos. rewrite cigar_loop_vars. cbn [clip_5 clip_3].
    destruct (Hsides cigar Hpos) as [Hl Ht].
    destruct (last_or_sum _ Hl) as [Hle5 Heq5].
    destruct (last_or_sum _ Ht) as [Hle3 Heq3].
    rewrite (soft_lengths_split cigar), zsum_app.
    split; [|split].
    + intros H2. destruct (Z.eq_dec (last_or 0 (soft_lengths (leading cigar)))
                             (zsum (soft_lengths (leading cigar)))) as [E|E];
        [apply Heq5 in E|]; lia.
    + intros H2. destruct (Z.eq_dec (last_or 0 (soft_lengths (trailing cigar)))
                             (zsum (soft_lengths (trailing cigar)))) as [E|E];
        [apply Heq3 in E|]; lia.
    + rewrite <- Heq5, <- Heq3. lia.
  - intros read Hm Hpos HL Hq Htwo.
    rewrite cigar_loop_vars. cbn [clip_5 clip_3]. cbn zeta.
    set (cigar := Read.cigar read) in *.
    destruct (Hsides cigar Hpos) as [Hl Ht].
    destruct (last_or_sum _ Hl) as [Hle5 Heq5].
    destruct (last_or_sum _ Ht) as [Hle3 Heq3].
    assert (Hc : has_clip cigar = true).
    { destruct (has_clip cigar) eqn:Hc; [done|].
      apply has_clip_retained, soft_lengths_retained in Hc.
      rewrite soft_lengths_split in Hc.
      apply app_eq_nil in Hc as [E1 E2]. rewrite E1, E2 in Htwo.
      simpl in Htwo. lia. }
    pose proof (transform_clipped read Hm Hc HL (qual_of_len read HL Hq))
      as Htr.
    cbn zeta in Htr. fold cigar in Htr.
    set (c5 := last_or 0 (soft_lengths (leading cigar))) in *.
    set (c3 := last_or 0 (soft_lengths (trailing cigar))) in *.
    assert (H5 : 0 <= c5).
    { apply last_or_nonneg. eapply Forall_impl; [exact Hl|]. simpl. lia. }
    assert (H3 : 0 <= c3).
    { apply last_or_nonneg. eapply Forall_impl; [exact Ht|]. simpl. lia. }
    eexists. split; [exact Htr|]. cbn [Read.seq Read.qual Read.tags].
    split; [|split; [|split; [|split]]].
    + rewrite (soft_lengths_split cigar), zsum_app.
      destruct Htwo as [H2|H2].
      * destruct (Z.eq_dec c5 (zsum (soft_lengths (leading cigar)))) as [E|E];
          [apply Heq5 in E|]; lia.
      * destruct (Z.eq_dec c3 (zsum (soft_lengths (trailing cigar)))) as [E|E];
          [apply Heq3 in E|]; lia.
    + by apply slice_removed.
    + by apply slice_removed.
    + intros Hne. pose proof (last_or_positive _ Hl Hne) as Hp. fold c5 in Hp.
      rewrite (proj2 (Z.eqb_neq c5 0)) by lia. cbn [negb].
      rewrite !elem_of_app. right. left. left.
    + intros Hne. pose proof (last_or_positive _ Ht Hne) as Hp. fold c3 in Hp.
      rewrite (proj2 (Z.eqb_neq c3 0)) by lia. cbn [negb].
      rewrite !elem_of_app. right. right. left. left.
Qed.

Lemma clip_is_last_soft_clip_witness :
  clip_5 (cigar_loop [(4, 2); (4, 3); (0, 7)]) < 2 + 3
  ∧ ∃ read1,
      transform sample_read_two_clips = Py.Ok (read1, true)
      ∧ Py.len sample_seq - Py.len (Read.seq read1) = 3
      ∧ ("ZA", Py.PyInt 3) ∈ Read.tags read1.
Proof.
  destruct clip_is_last_soft_clip as (_ & H2 & H3). split.
  - apply (H2 [(4, 2); (4, 3); (0, 7)]).
    + repeat constructor.
    + vm_compute. lia.
  - destruct (H3 sample_read_two_clips) as (read1 & Ht & _ & Hr & _ & Hza & _).
    + reflexivity.
    + repeat constructor.
    + discriminate.
    + reflexivity.
    + left. vm_compute. lia.
    + exists read1. split; [exact Ht|]. split; [exact Hr|].
      apply Hza. discriminate.
Defined.

(** A soft clip of length 0 before a soft clip of 3: two soft clips on
    the 5' side, and yet the recorded clip is the whole soft-clipped
    length and the sequence loses exactly that many bases.  In the other
    order the recorded clip is 0 and no ZA tag is written. *)
Lemma zero_length_soft_clip :
  (2 <= length (soft_lengths (leading (Read.cigar sample_read_zero_clip))))%nat
  ∧ clip_5 (cigar_loop (Read.cigar sample_read_zero_clip))
    = zsum (soft_lengths (Read.cigar sample_read_zero_clip))
  ∧ (∃ read1,
       transform sample_read_zero_clip = Py.Ok (read1, true)
       ∧ Py.len (Read.seq sample_read_zero_clip) - Py.len (Read.seq read1)
         = zsum (soft_lengths (Read.cigar sample_read_zero_clip)))
  ∧ ∃ read1,
      transform sample_read_clip_zero = Py.Ok (read1, true)
      ∧ Read.tags read1 = [("ZC", Py.PyFloat 0)].
Proof.
  split; [|split; [|split]].
  - vm_compute. lia.
  - reflexivity.
  - eexists. split; reflexivity.
  - eexists. split; reflexivity.
Qed.

End RemoveClippingFacts.

(* ===================================================================== *)
(** * The clipping pass as a whole                                       *)
(* ===================================================================== *)

Section ClipPassFacts.
Import RemoveClipping ClipPass Samples.

Lemma transform_unchanged read :
  Read.is_unmapped read = true ∨ has_clip (Read.cigar read) = false →
  transform read = Py.Ok (read, false).
Proof.
  intros H. unfold transform. rewrite cigar_loop_vars. cbn [changed].
  destruct (Read.is_unmapped read); [done|].
  destruct H as [H|H]; [done|]. by rewrite H.
Qed.

Lemma transform_empty_seq read :
  clipped read → has_qual read → Py.len (Read.seq read) = 0 →
  transform read = Py.Raise Py.ZeroDivisionError.
Proof.
  intros [Hm Hc] Hq HL. unfold transform. rewrite Hm, cigar_loop_vars.
  cbn [negb changed clip_5 clip_3 newcigar]. rewrite Hc.
  rewrite !qual_slice_some by done.
  unfold Py.float_div. rewrite HL.
  by destruct (negb (_ =? 0)).
Qed.

Lemma len_nonzero {A} (s : list A) : s ≠ [] ↔ Py.len s ≠ 0.
Proof. unfold Py.len. destruct s; simpl; split; intros H; try done; lia. Qed.

(** The outcomes of [transform]: a read it does not alter, a read it
    alters, and an exception for a clipped read without a quality
    string or without bases. *)
Lemma transform_outcome read :
  (¬ clipped read ∧ transform read = Py.Ok (read, false))
  ∨ (clipped read ∧ has_seq read ∧ has_qual read
     ∧ ∃ read1, transform read = Py.Ok (read1, true))
  ∨ (clipped read ∧ ¬ (has_seq read ∧ has_qual read)
     ∧ ∃ e, transform read = Py.Raise e).
Proof.
  destruct (decide (clipped read)) as [Hc|Hn].
  - destruct (decide (Read.qual read = [])) as [Hq|Hq].
    { right; right. split; [done|]. split; [by intros [_ ?]|].
      destruct Hc as [Hm Hc]. eexists. by apply transform_no_qual. }
    destruct (decide (has_seq read)) as [Hs|Hs].
    + right; left. split; [done|]. split; [done|]. split; [done|].
      destruct Hc as [Hm Hc]. apply len_nonzero in Hs.
      eexists. exact (transform_clipped read Hm Hc Hs Hq).
    + right; right. split; [done|]. split; [by intros [? _]|].
      eexists. apply transform_empty_seq; [done|done|].
      unfold has_seq in Hs. destruct (Read.seq read); [done|].
      exfalso. by apply Hs.
  - left. split; [done|]. apply transform_unchanged.
    unfold clipped in Hn.
    destruct (Read.is_unmapped read); [by left|right].
    destruct (has_clip (Read.cigar read)); [|done]. exfalso. by apply Hn.
Qed.

(** A read that came out of [transform] has no clip left. *)
Lemma transform_output_plain read read1 altered :
  transform read = Py.Ok (read1, altered) →
  Read.is_unmapped read1 = Read.is_unmapped read
  ∧ (Read.is_unmapped read = false → has_clip (Read.cigar read1) = false).
Proof.
  intros Ht.
  destruct (transform_outcome read)
    as [[Hn Hu]|[(Hc & Hs & Hq & r & Hr)|(_ & _ & e & Hr)]].
  - rewrite Hu in Ht. injection Ht as <- _. split; [done|].
    intros Hm. unfold clipped in Hn.
    destruct (has_clip (Read.cigar read)); [|done]. exfalso. by apply Hn.
  - destruct Hc as [Hm Hc]. apply len_nonzero in Hs.
    rewrite (transform_clipped read Hm Hc Hs Hq) in Ht. injection Ht as <- _.
    split; [done|]. intros _. cbn [Read.cigar].
    apply has_clip_retained, filter_retained_Forall.
  - rewrite Hr in Ht. discriminate.
Qed.

Lemma transform_output_fixed read read1 altered :
  transform read = Py.Ok (read1, altered) →
  transform read1 = Py.Ok (read1, false).
Proof.
  intros Ht. destruct (transform_output_plain _ _ _ Ht) as [Hm Hc].
  apply transform_unchanged. rewrite Hm.
  destruct (Read.is_unmapped read); [by left|right; by apply Hc].
Qed.

(** X1. When every mapped read with a clip has bases and a quality
    string, the pass completes: it writes one read for each read it was
    given, in the same order, [total] is their number, and [count] is
    the number of mapped reads that had a soft or a hard clip.  A mapped
    read with a clip and no quality string stops the pass with
    [TypeError], whatever comes after it. *)
Theorem pass_counts :
  (∀ bam,
     Forall (fun r => clipped r → has_seq r ∧ has_qual r) bam →
     ∃ out,
       bam_removeclipping bam
       = Py.Ok (out, Z.of_nat (length bam),
                Z.of_nat (length (filter clipped bam)))
       ∧ Forall2 (fun r r1 => transform r = Py.Ok (r1, bool_decide (clipped r)))
                 bam out)
  ∧ (∀ pre read post,
       Forall (fun r => clipped r → has_seq r ∧ has_qual r) pre →
       clipped read → ¬ has_qual read →
       bam_removeclipping (pre ++ read :: post) = Py.Raise Py.TypeError).
Proof.
  split.
  - induction bam as [|read bam IH]; intros Hall.
    { exists []. split; [done|constructor]. }
    apply Forall_cons in Hall as [Hr Hall].
    destruct (IH Hall) as (out & Hrun & Hout).
    cbn [bam_removeclipping]. rewrite Hrun. rewrite filter_cons.
    destruct (transform_outcome read)
      as [[Hn Hu]|[(Hc & Hs & Hq & r & Hu)|(Hc & Hs & _)]].
    + exists (read :: out). rewrite Hu. cbn [mbind pyerr_bind Py.bind].
      rewrite decide_False by done. split.
      * f_equal. f_equal. f_equal. cbn [length]. lia.
      * constructor; [|done]. by rewrite bool_decide_eq_false_2.
    + exists (r :: out). rewrite Hu. cbn [mbind pyerr_bind Py.bind].
      rewrite decide_True by done. split.
      * f_equal. f_equal; [f_equal|]; cbn [length]; lia.
      * constructor; [|done]. by rewrite bool_decide_eq_true_2.
    + exfalso. apply Hs. by apply Hr.
  - induction pre as [|r pre IH]; intros read post Hall Hc Hq.
    + cbn [app bam_removeclipping]. destruct Hc as [Hm Hc].
      rewrite (transform_no_qual read Hm Hc); [done|].
      unfold has_qual in Hq. by destruct (Read.qual read); [|exfalso; apply Hq].
    + apply Forall_cons in Hall as [Hr Hall].
      cbn [app bam_removeclipping]. rewrite (IH read post Hall Hc Hq).
      destruct (transform_outcome r)
        as [[_ Hu]|[(_ & _ & _ & r1 & Hu)|(Hcr & Hs & _)]];
        [by rewrite Hu|by rewrite Hu|].
      exfalso. apply Hs. by apply Hr.
Qed.

Lemma pass_counts_witness :
  (∃ out, bam_removeclipping sample_bam = Py.Ok (out, 4, 2)
          ∧ length out = 4%nat)
  ∧ bam_removeclipping (sample_bam ++ bare_read :: sample_bam)
    = Py.Raise Py.TypeError.
Proof.
  destruct pass_counts as [H1 H2].
  assert (Hall : Forall (fun r => clipped r → has_seq r ∧ has_qual r)
                   sample_bam).
  { repeat constructor; discriminate. }
  split.
  - destruct (H1 sample_bam Hall) as (out & Hrun & Hout).
    exists out. split; [exact Hrun|].
    symmetry. exact (Forall2_length _ _ _ Hout).
  - apply (H2 sample_bam bare_read sample_bam Hall).
    + split; reflexivity.
    + intros H. by apply H.
Defined.

(** X2. The pass is idempotent: run on what it wrote, it writes the same
    reads again and alters none of them. *)
Theorem pass_idempotent (bam out : list Read.t) (total count : Z) :
  bam_removeclipping bam = Py.Ok (out, total, count) →
  bam_removeclipping out = Py.Ok (out, total, 0).
Proof.
  revert out total count.
  induction bam as [|read bam IH]; intros out total count Hrun.
  - injection Hrun as <- <- <-. done.
  - cbn [bam_removeclipping] in Hrun.
    destruct (transform read) as [[read1 altered]|e] eqn:Ht;
      cbn [mbind pyerr_bind Py.bind] in Hrun; [|discriminate].
    destruct (bam_removeclipping bam) as [[[out' total'] count']|e] eqn:Hrest;
      cbn [mbind pyerr_bind Py.bind] in Hrun; [|discriminate].
    injection Hrun as <- <- _.
    cbn [bam_removeclipping].
    rewrite (transform_output_fixed _ _ _ Ht), (IH _ _ _ eq_refl).
    done.
Qed.

Lemma pass_idempotent_witness :
  ∃ out, bam_removeclipping sample_bam = Py.Ok (out, 4, 2)
         ∧ bam_removeclipping out = Py.Ok (out, 4, 0).
Proof.
  eexists. split; [reflexivity|].
  eapply (pass_idempotent sample_bam). reflexivity.
Defined.

(** X3. Whatever [transform] does to a read, the read keeps its name,
    flag, reference, position and mapping quality, and its tags are only
    added to; an unmapped read is written as it was read, also when its
    cigar has clips. *)
Theorem transform_keeps (read read1 : Read.t) (altered : bool) :
  transform read = Py.Ok (read1, altered) →
  Read.qname read1 = Read.qname read
  ∧ Read.flag read1 = Read.flag read
  ∧ Read.rname read1 = Read.rname read
  ∧ Read.pos read1 = Read.pos read
  ∧ Read.mapq read1 = Read.mapq read
  ∧ (∃ added, Read.tags read1 = Read.tags read ++ added)
  ∧ (Read.is_unmapped read = true → read1 = read ∧ altered = false).
Proof.
  intros Ht.
  destruct (transform_outcome read)
    as [[Hn Hu]|[(Hc & Hs & Hq & r & _)|(_ & _ & e & Hr)]].
  - rewrite Hu in Ht. injection Ht as <- <-.
    repeat (split; [done|]). split; [|done].
    exists []. by rewrite app_nil_r.
  - destruct Hc as [Hm Hc]. apply len_nonzero in Hs.
    rewrite (transform_clipped read Hm Hc Hs Hq) in Ht. injection Ht as <- <-.
    repeat (split; [done|]). split; [|congruence].
    cbn [Read.tags]. eexists. reflexivity.
  - rewrite Hr in Ht. discriminate.
Qed.

Lemma transform_keeps_witness :
  Read.pos sample_read_clipped = Read.pos sample_read
  ∧ ∃ added, Read.tags sample_read_clipped = Read.tags sample_read ++ added.
Proof.
  destruct (transform_keeps sample_read sample_read_clipped true eq_refl)
    as (_ & _ & _ & Hp & _ & Ht & _).
  split; [exact Hp|exact Ht].
Defined.

(** X4. For a mapped read, the cigar that is written is the cigar that was
    read without its soft and hard clips, the other operations in their
    order; and the read counts as altered exactly when a clip was there. *)
Theorem transform_cigar (read read1 : Read.t) (altered : bool) :
  Read.is_unmapped read = false →
  transform read = Py.Ok (read1, altered) →
  Read.cigar read1 = filter retained (Read.cigar read)
  ∧ Forall retained (Read.cigar read1)
  ∧ altered = has_clip (Read.cigar read).
Proof.
  intros Hm Ht.
  destruct (transform_outcome read)
    as [[Hn Hu]|[(Hc & Hs & Hq & r & _)|(_ & _ & e & Hr)]].
  - rewrite Hu in Ht. injection Ht as <- <-.
    assert (Hc : has_clip (Read.cigar read) = false).
    { unfold clipped in Hn. destruct (has_clip (Read.cigar read)); [|done].
      exfalso. by apply Hn. }
    pose proof (proj1 (has_clip_retained _) Hc) as Hr.
    by rewrite filter_retained_all.
  - destruct Hc as [_ Hc]. apply len_nonzero in Hs.
    rewrite (transform_clipped read Hm Hc Hs Hq) in Ht. injection Ht as <- <-.
    cbn [Read.cigar]. split; [done|]. split; [|done].
    apply filter_retained_Forall.
  - rewrite Hr in Ht. discriminate.
Qed.

Lemma transform_cigar_witness :
  Read.cigar sample_read_clipped = filter retained (Read.cigar sample_read)
  ∧ Forall retained (Read.cigar sample_read_clipped).
Proof.
  destruct (transform_cigar sample_read sample_read_clipped true eq_refl eq_refl)
    as (H1 & H2 & _).
  split; [exact H1|exact H2].
Defined.

(** X5. A mapped read with hard clips and no soft clip, with bases and a
    quality string: the hard clips leave the cigar, the sequence and the
    quality stay as they are, and the only tag added is ZC, with the
    value 0.0. *)
Theorem transform_hard_only (read : Read.t) :
  clipped read → soft_lengths (Read.cigar read) = [] →
  has_seq read → has_qual read →
  transform read
  = Py.Ok ({| Read.qname := Read.qname read;
              Read.flag := Read.flag read;
              Read.rname := Read.rname read;
              Read.pos := Read.pos read;
              Read.mapq := Read.mapq read;
              Read.cigar := filter retained (Read.cigar read);
              Read.seq := Read.seq read;
              Read.qual := Read.qual read;
              Read.tags := Read.tags read ++ [("ZC", Py.PyFloat 0)]
           |}, true).
Proof.
  intros [Hm Hc] Hsoft Hs Hq. apply len_nonzero in Hs.
  rewrite (transform_clipped read Hm Hc Hs Hq).
  rewrite soft_lengths_split in Hsoft. apply app_eq_nil in Hsoft as [-> ->].
  change (last_or 0 []) with 0. change (negb (0 =? 0)) with false.
  cbn iota. cbn [app Z.add].
  by rewrite !slice_from, !drop_0.
Qed.

Lemma transform_hard_only_witness :
  ∃ read1, transform hard_read = Py.Ok (read1, true)
           ∧ Read.cigar read1 = [(0, 12)]
           ∧ Read.seq read1 = sample_seq
           ∧ Read.qual read1 = sample_seq
           ∧ Read.tags read1 = [("NM", Py.PyInt 0); ("ZC", Py.PyFloat 0)].
Proof.
  eexists. split.
  - apply (transform_hard_only hard_read).
    + split; reflexivity.
    + reflexivity.
    + discriminate.
    + discriminate.
  - repeat split; reflexivity.
Defined.



End ClipPassFacts.

(* ===================================================================== *)
(** * Point queries, in terms of the ranges added                        *)
(* ===================================================================== *)

Section RangeQueryFacts.
Import RangeMatch RangeQuery Samples.

Lemma string_length_app (a b : string) :
  String.length (a +:+ b) = (String.length a + String.length b)%nat.
Proof. induction a as [|c a IH]; simpl; [done|]. by rewrite IH. Qed.

Lemma rev_name_differs (nm : string) : nm +:+ "-rev" ≠ nm.
Proof.
  intros E. apply (f_equal String.length) in E.
  rewrite string_length_app in E. simpl in E. lia.
Qed.

(** The scan of one bin, decided by two tests on its ranges. *)
Lemma scan_decided nm strand pos ign l : ∀ rv,
  scan nm strand pos ign rv l
  = if decide (Exists (iv_hit strand pos ign) l) then Some nm
    else if decide (rv = true ∨ Exists (iv_over pos) l)
         then Some (nm +:+ "-rev")
         else None.
Proof.
  induction l as [|[[s e] r] l IH]; intros rv.
  - cbn [scan].
    rewrite decide_False by (by intros ?%Exists_nil).
    destruct rv.
    + by rewrite decide_True by (by left).
    + rewrite decide_False; [done|].
      intros [?|?%Exists_nil]; done.
  - cbn [scan].
    destruct ((s <=? pos) && (pos <=? e)) eqn:Hc.
    + apply andb_true_iff in Hc as [Hs He]. apply Z.leb_le in Hs, He.
      assert (Hov : iv_over pos (s, e, r)) by (unfold iv_over; simpl; lia).
      destruct ign; cbn [orb].
      * rewrite decide_True; [done|]. left. split; [done|by left].
      * destruct (decide (strand = r)) as [->|Hne].
        -- rewrite bool_decide_eq_true_2 by done.
           rewrite decide_True; [done|]. left. split; [done|by right].
        -- rewrite bool_decide_eq_false_2 by done. rewrite IH.
           destruct (decide (Exists (iv_hit strand pos false) l)) as [Hl|Hl].
           ++ rewrite decide_True; [done|by right].
           ++ destruct (decide (Exists (iv_hit strand pos false) (_ :: l)))
                as [Hx|_].
              { apply Exists_cons in Hx as [[_ [?|?]]|?];
                  simpl in *; first [congruence | done]. }
              destruct (decide (true = true ∨ Exists (iv_over pos) l))
                as [_|Hn]; [|exfalso; apply Hn; by left].
              destruct (decide (rv = true ∨ Exists (iv_over pos) (_ :: l)))
                as [_|Hn]; [done|].
              exfalso; apply Hn; right; by left.
    + assert (Hov : ¬ iv_over pos (s, e, r)).
      { unfold iv_over; simpl. apply andb_false_iff in Hc as [Hc|Hc];
          apply Z.leb_gt in Hc; lia. }
      rewrite IH.
      destruct (decide (Exists (iv_hit strand pos ign) l)) as [Hl|Hl].
      * rewrite decide_True; [done|by right].
      * rewrite (decide_False (P := Exists _ (_ :: l))).
        2:{ intros [[? _]|?]%Exists_cons; done. }
        destruct (decide (rv = true ∨ Exists (iv_over pos) l)) as [Hr|Hr].
        -- rewrite decide_True; [done|].
           destruct Hr as [?|?]; [by left|right; by right].
        -- rewrite decide_False; [done|].
           intros [?|[?|?]%Exists_cons]; [apply Hr; by left|done|].
           apply Hr. by right.
Qed.

(** The two tests give the same on the bin of [pos] and on the calls. *)
Lemma bucket_tests nm cs chrom strand pos ign :
  (Exists (iv_hit strand pos ign) (bucket (build nm cs) chrom (pos / 100000))
   ↔ Exists (hit chrom strand pos ign) cs)
  ∧ (Exists (iv_over pos) (bucket (build nm cs) chrom (pos / 100000))
     ↔ Exists (over chrom pos) cs).
Proof.
  split; rewrite !Exists_exists; split.
  - intros (iv & Hin & Hov & Hs).
    apply bucket_build in Hin as (c & Hc & Hch & _ & ->).
    exists c. split; [done|]. split; [done|].
    destruct Hs as [?|?]; [by left|by right].
  - intros (c & Hc & [Hch Hov] & Hs).
    exists (stored c). split.
    + apply bucket_build. exists c. split; [done|]. split; [done|].
      split; [by apply covers_touched|done].
    + split; [done|]. destruct Hs as [?|?]; [by left|by right].
  - intros (iv & Hin & Hov).
    apply bucket_build in Hin as (c & Hc & Hch & _ & ->).
    exists c. by split.
  - intros (c & Hc & Hch & Hov).
    exists (stored c). split; [|done].
    apply bucket_build. exists c. split; [done|]. split; [done|].
    split; [by apply covers_touched|done].
Qed.

Lemma get_tag_decided nm cs chrom strand pos ign :
  get_tag (build nm cs) chrom strand pos ign
  = answer nm cs chrom strand pos ign.
Proof.
  rewrite get_tag_bucket, name_build, scan_decided.
  unfold answer.
  destruct (bucket_tests nm cs chrom strand pos ign) as [Hh Ho].
  rewrite (decide_ext _ _ _ _ Hh).
  destruct (decide (Exists (hit chrom strand pos ign) cs)); [done|].
  assert (Ho' : false = true ∨ Exists (iv_over pos)
                  (bucket (build nm cs) chrom (pos / 100000))
                ↔ Exists (over chrom pos) cs).
  { rewrite <- Ho. split; [intros [?|?]; done|by right]. }
  by rewrite (decide_ext _ _ _ _ Ho').
Qed.

(** X7. The answer of [get_tag] is settled by which of the added ranges
    cover the position: the name when one of them passes the strand test
    (any of them when strands are ignored), the name with [-rev] when some
    cover it but none passes, [None] otherwise.  With [ignore_strand] the
    answer is never a [-rev] one. *)
Theorem get_tag_answer (nm : string) (cs : list call) (chrom strand : string)
    (pos : Z) (ign : bool) :
  get_tag (build nm cs) chrom strand pos ign
  = answer nm cs chrom strand pos ign
  ∧ get_tag (build nm cs) chrom strand pos true
    = if decide (Exists (over chrom pos) cs) then Some nm else None.
Proof.
  split; [apply get_tag_decided|].
  rewrite get_tag_decided. unfold answer.
  assert (Hiff : Exists (hit chrom strand pos true) cs
                 ↔ Exists (over chrom pos) cs).
  { rewrite !Exists_exists. split.
    - intros (c & ? & ? & _). by exists c.
    - intros (c & ? & ?). exists c. split; [done|]. split; [done|by left]. }
  rewrite (decide_ext _ _ _ _ Hiff).
  by destruct (decide (Exists (over chrom pos) cs)).
Qed.

(** X8. The order of the [add_range] calls does not matter to any
    query. *)
Theorem get_tag_order (nm : string) (cs cs' : list call)
    (chrom strand : string) (pos : Z) (ign : bool) :
  cs ≡ₚ cs' →
  get_tag (build nm cs) chrom strand pos ign
  = get_tag (build nm cs') chrom strand pos ign.
Proof.
  intros Hp. rewrite !get_tag_decided. unfold answer.
  assert (H1 : Exists (hit chrom strand pos ign) cs
               ↔ Exists (hit chrom strand pos ign) cs') by by rewrite Hp.
  assert (H2 : Exists (over chrom pos) cs ↔ Exists (over chrom pos) cs')
    by by rewrite Hp.
  by rewrite (decide_ext _ _ _ _ H1), (decide_ext _ _ _ _ H2).
Qed.

Lemma get_tag_order_witness :
  get_tag (build "exon" sample_calls) "chr1" "-" 450 false
  = get_tag (build "exon" (reverse sample_calls)) "chr1" "-" 450 false.
Proof.
  apply get_tag_order. unfold sample_calls. cbn. apply perm_swap.
Defined.

(** X9. [add_range] changes the answer of a query only on its own
    chromosome and at a position its range covers.  So a range whose end
    lies before its start, which [add_range] stores as it is, changes no
    answer at all. *)
Theorem add_range_elsewhere (rm : t) (chrom strand : string) (start end_ : Z) :
  (∀ c s pos ign,
     c ≠ chrom ∨ ¬ start <= pos <= end_ →
     get_tag (add_range rm chrom strand start end_) c s pos ign
     = get_tag rm c s pos ign)
  ∧ (end_ < start →
     ∀ c s pos ign,
       get_tag (add_range rm chrom strand start end_) c s pos ign
       = get_tag rm c s pos ign).
Proof.
  assert (H : ∀ c s pos ign,
            c ≠ chrom ∨ ¬ start <= pos <= end_ →
            get_tag (add_range rm chrom strand start end_) c s pos ign
            = get_tag rm c s pos ign).
  { intros c s pos ign Hout.
    rewrite !get_tag_bucket, name_add_range, bucket_add_range.
    destruct (decide (c = chrom ∧ touched start end_ (pos / 100000)))
      as [[-> _]|_]; [|done].
    destruct Hout as [?|Hout]; [done|].
    cbn [scan].
    assert ((start <=? pos) && (pos <=? end_) = false) as ->; [|done].
    apply andb_false_iff.
    destruct (Z.leb_spec start pos), (Z.leb_spec pos end_); auto.
    exfalso. apply Hout. lia. }
  split; [exact H|].
  intros Hinv c s pos ign. apply H. right. lia.
Qed.

Lemma add_range_elsewhere_witness :
  get_tag (add_range (build "exon" sample_calls) "chr1" "+" 700 600)
          "chr1" "+" 650 false
  = get_tag (build "exon" sample_calls) "chr1" "+" 650 false
  ∧ get_tag (add_range (build "exon" sample_calls) "chr2" "+" 0 900000)
            "chr1" "+" 450 false
    = get_tag (build "exon" sample_calls) "chr1" "+" 450 false.
Proof.
  split.
  - apply (proj2 (add_range_elsewhere (build "exon" sample_calls)
                    "chr1" "+" 700 600)). lia.
  - apply (proj1 (add_range_elsewhere (build "exon" sample_calls)
                    "chr2" "+" 0 900000)). by left.
Defined.

Lemma scan_name nm strand pos ign l :
  scan nm strand pos ign false l = Some nm ↔ Exists (iv_hit strand pos ign) l.
Proof.
  rewrite scan_decided.
  destruct (decide (Exists (iv_hit strand pos ign) l)) as [H|H]; [done|].
  split; [|done].
  destruct (decide (false = true ∨ Exists (iv_over pos) l)); [|done].
  intros E. injection E as E. by apply rev_name_differs in E.
Qed.

Lemma scan_some nm strand pos ign l :
  scan nm strand pos ign false l ≠ None ↔ Exists (iv_over pos) l.
Proof.
  rewrite scan_decided.
  destruct (decide (Exists (iv_hit strand pos ign) l)) as [H|H].
  - split; [|done]. intros _.
    apply Exists_exists in H as (iv & ? & ? & _).
    apply Exists_exists. by exists iv.
  - destruct (decide (false = true ∨ Exists (iv_over pos) l)) as [[?|?]|Hn];
      [done|done|].
    split; [done|]. intros Ho. exfalso. apply Hn. by right.
Qed.

(** X10. Adding a range never takes an answer back: a query answered with
    the name is still answered with the name, and a query that had an
    answer still has one. *)
Theorem add_range_keeps (rm : t) (chrom strand : string) (start end_ : Z)
    (c s : string) (pos : Z) (ign : bool) :
  (get_tag rm c s pos ign = Some (name rm) →
   get_tag (add_range rm chrom strand start end_) c s pos ign
   = Some (name rm))
  ∧ (get_tag rm c s pos ign ≠ None →
     get_tag (add_range rm chrom strand start end_) c s pos ign ≠ None).
Proof.
  rewrite !get_tag_bucket, name_add_range, bucket_add_range.
  rewrite !scan_name, !scan_some.
  destruct (decide (c = chrom ∧ touched start end_ (pos / 100000)));
    [|done].
  split; intros H; by apply Exists_cons_tl.
Qed.

Lemma add_range_keeps_witness :
  get_tag (add_range (build "exon" sample_calls) "chr1" "-" 0 900000)
          "chr1" "+" 150000 false
  = Some "exon".
Proof.
  apply (proj1 (add_range_keeps (build "exon" sample_calls)
                  "chr1" "-" 0 900000 "chr1" "+" 150000 false)).
  reflexivity.
Defined.

End RangeQueryFacts.

(* ===================================================================== *)
(** * The indexes RegionTagger.__init__ builds                           *)
(* ===================================================================== *)

Section GeneCallsFacts.
Import RangeMatch RangeQuery RegionTagger GeneCalls.

Lemma exon_steps_calls g ses : ∀ ix last_end,
  exons (foldl (exon_step g) (ix, last_end) ses).1
  = foldl apply_call (exons ix) (exon_call g <$> ses)
  ∧ introns (foldl (exon_step g) (ix, last_end) ses).1
    = foldl apply_call (introns ix) (intron_calls_from g last_end ses)
  ∧ promoters (foldl (exon_step g) (ix, last_end) ses).1 = promoters ix.
Proof.
  induction ses as [|[start end_] ses IH]; intros ix last_end; [done|].
  cbn [foldl exon_step]. destruct (IH
    (mkIndexes
       (add_range (exons ix) (chrom g) (strand g) start end_)
       (if last_end_set last_end
        then add_range (introns ix) (chrom g) (strand g)
               (default 0 last_end) start
        else introns ix)
       (promoters ix)) (Some end_)) as (He & Hi & Hp).
  rewrite He, Hi, Hp. cbn [exons introns promoters].
  split; [done|]. split; [|done].
  cbn [intron_calls_from]. rewrite foldl_app.
  by destruct (last_end_set last_end).
Qed.

Lemma transcript_steps_calls g trs : ∀ ix,
  exons (foldl (transcript_step g) ix trs)
  = foldl apply_call (exons ix) (tr ← trs; exon_call g <$> exon_pairs tr)
  ∧ introns (foldl (transcript_step g) ix trs)
    = foldl apply_call (introns ix)
        (tr ← trs; intron_calls_from g None (exon_pairs tr))
  ∧ promoters (foldl (transcript_step g) ix trs) = promoters ix.
Proof.
  induction trs as [|tr trs IH]; intros ix; [done|].
  cbn [foldl]. destruct (IH (transcript_step g ix tr)) as (He & Hi & Hp).
  rewrite He, Hi, Hp. unfold transcript_step.
  destruct (exon_steps_calls g (zip (exon_starts tr) (exon_ends tr)) ix None)
    as (He' & Hi' & Hp').
  rewrite He', Hi', Hp'. rewrite !bind_cons, !foldl_app. done.
Qed.

Lemma gene_steps_calls chroms genes : ∀ ix,
  exons (foldl (gene_step chroms) ix genes)
  = foldl apply_call (exons ix) (exon_calls genes chroms)
  ∧ introns (foldl (gene_step chroms) ix genes)
    = foldl apply_call (introns ix) (intron_calls genes chroms)
  ∧ promoters (foldl (gene_step chroms) ix genes)
    = foldl apply_call (promoters ix) (promoter_calls genes chroms).
Proof.
  unfold exon_calls, intron_calls, promoter_calls, kept.
  induction genes as [|g genes IH]; intros ix; [done|].
  cbn [foldl]. destruct (IH (gene_step chroms ix g)) as (He & Hi & Hp).
  rewrite He, Hi, Hp. rewrite filter_cons. unfold gene_step.
  destruct (decide (chrom g ∈ chroms)) as [Hk|Hk].
  - rewrite bool_decide_eq_true_2 by done. cbn [negb].
    set (ix1 := mkIndexes _ _ _).
    destruct (transcript_steps_calls g (transcripts g) ix1) as (He' & Hi' & Hp').
    rewrite He', Hi', Hp'. subst ix1. cbn [exons introns promoters].
    rewrite !bind_cons, !foldl_app, fmap_cons. cbn [foldl].
    split; [done|]. split; [done|].
    unfold promoter_call, apply_call.
    by destruct (bool_decide (strand g = "+")).
  - rewrite bool_decide_eq_false_2 by done. done.
Qed.

(** The three indexes are the indexes built by three lists of calls. *)
Lemma build_indexes_calls genes chroms :
  exons (build_indexes genes chroms) = build "exon" (exon_calls genes chroms)
  ∧ introns (build_indexes genes chroms)
    = build "intron" (intron_calls genes chroms)
  ∧ promoters (build_indexes genes chroms)
    = build "promoter" (promoter_calls genes chroms).
Proof. apply gene_steps_calls. Qed.

Lemma get_tag_hit nm cs chrom strand pos ign :
  Exists (hit chrom strand pos ign) cs →
  get_tag (build nm cs) chrom strand pos ign = Some nm.
Proof. intros H. rewrite get_tag_decided. unfold answer. by rewrite decide_True. Qed.

Lemma get_tag_none nm cs chrom strand pos ign :
  ¬ Exists (over chrom pos) cs →
  get_tag (build nm cs) chrom strand pos ign = None.
Proof.
  intros H. rewrite get_tag_decided. unfold answer.
  rewrite decide_False.
  - by rewrite decide_False.
  - intros Hx. apply H. apply Exists_exists in Hx as (c & ? & ? & _).
    apply Exists_exists. by exists c.
Qed.

Lemma kept_elem chroms genes g :
  g ∈ kept chroms genes ↔ chrom g ∈ chroms ∧ g ∈ genes.
Proof. unfold kept. by rewrite list_elem_of_filter. Qed.

Lemma exon_call_elem genes chroms g tr se :
  g ∈ genes → chrom g ∈ chroms → tr ∈ transcripts g → se ∈ exon_pairs tr →
  exon_call g se ∈ exon_calls genes chroms.
Proof.
  intros Hg Hk Htr Hse. unfold exon_calls.
  apply list_elem_of_bind. exists g. split; [|by apply kept_elem].
  apply list_elem_of_bind. exists tr. split; [|done].
  apply list_elem_of_fmap. by exists se.
Qed.

Lemma intron_call_from g pre s1 e1 s2 e2 post : ∀ last_end,
  e1 ≠ 0 →
  Call (chrom g) (strand g) e1 s2
  ∈ intron_calls_from g last_end (pre ++ (s1, e1) :: (s2, e2) :: post).
Proof.
  induction pre as [|[s e] pre IH]; intros last_end He.
  - cbn [app intron_calls_from]. apply elem_of_app. right.
    apply elem_of_app. left. cbn [last_end_set default].
    rewrite (proj2 (Z.eqb_neq e1 0)) by done. cbn [negb]. left.
  - cbn [app intron_calls_from]. apply elem_of_app. right. by apply IH.
Qed.

(** X11. Every exon of a gene on a reference of the BAM file is found in
    the exon index: a position from the exon's start to its end, asked on
    the gene's chromosome and strand, is answered "exon". *)
Theorem exon_found (genes : list Gene) (chroms : list string) (g : Gene)
    (tr : Transcript) (start end_ pos : Z) :
  g ∈ genes → chrom g ∈ chroms → tr ∈ transcripts g →
  (start, end_) ∈ exon_pairs tr → start <= pos <= end_ →
  get_tag (exons (build_indexes genes chroms)) (chrom g) (strand g) pos false
  = Some "exon".
Proof.
  intros Hg Hk Htr Hse Hp.
  destruct (build_indexes_calls genes chroms) as (-> & _ & _).
  apply get_tag_hit. apply Exists_exists.
  exists (exon_call g (start, end_)).
  split; [by apply (exon_call_elem genes chroms g tr)|].
  split; [by split|by right].
Qed.

Lemma exon_found_witness :
  get_tag (exons (build_indexes sample_genes sample_chroms))
          "chr1" "+" 8500 false
  = Some "exon".
Proof.
  apply (exon_found sample_genes sample_chroms gene_a
           (mkTranscript [5000; 8000] [6000; 9000]) 8000 9000 8500).
  - left.
  - left.
  - left.
  - right. left.
  - lia.
Defined.

(** X12. The promoter of a gene on a reference of the BAM file is the
    2000 bases that end at [tx_start] when the gene's strand is "+", and
    the 2000 bases that start at [tx_end] for any other strand: positions
    in it, asked on the gene's chromosome and strand, are answered
    "promoter". *)
Theorem promoter_found (genes : list Gene) (chroms : list string) (g : Gene)
    (pos : Z) :
  g ∈ genes → chrom g ∈ chroms →
  (if bool_decide (strand g = "+")
   then tx_start g - 2000 <= pos <= tx_start g
   else tx_end g <= pos <= tx_end g + 2000) →
  get_tag (promoters (build_indexes genes chroms))
          (chrom g) (strand g) pos false
  = Some "promoter".
Proof.
  intros Hg Hk Hp.
  destruct (build_indexes_calls genes chroms) as (_ & _ & ->).
  apply get_tag_hit. apply Exists_exists.
  exists (promoter_call g). split.
  - unfold promoter_calls. apply list_elem_of_fmap. exists g.
    split; [done|by apply kept_elem].
  - unfold promoter_call, hit, over, covers.
    destruct (bool_decide (strand g = "+")); cbn; auto.
Qed.

Lemma promoter_found_witness :
  get_tag (promoters (build_indexes sample_genes sample_chroms))
          "chr1" "+" 3000 false
  = Some "promoter".
Proof.
  apply (promoter_found sample_genes sample_chroms gene_a 3000).
  - left.
  - left.
  - vm_compute. split; discriminate.
Defined.

(** X13. Between two consecutive exons of a transcript, from the end of
    the first (when that end is not 0) to the start of the second, a
    position asked on the gene's chromosome and strand is answered
    "intron" by the intron index. *)
Theorem intron_found (genes : list Gene) (chroms : list string) (g : Gene)
    (tr : Transcript) (pre post : list (Z * Z)) (s1 e1 s2 e2 pos : Z) :
  g ∈ genes → chrom g ∈ chroms → tr ∈ transcripts g →
  exon_pairs tr = pre ++ (s1, e1) :: (s2, e2) :: post →
  e1 ≠ 0 → e1 <= pos <= s2 →
  get_tag (introns (build_indexes genes chroms)) (chrom g) (strand g) pos false
  = Some "intron".
Proof.
  intros Hg Hk Htr Hpairs He Hp.
  destruct (build_indexes_calls genes chroms) as (_ & -> & _).
  apply get_tag_hit. apply Exists_exists.
  exists (Call (chrom g) (strand g) e1 s2). split.
  - unfold intron_calls.
    apply list_elem_of_bind. exists g. split; [|by apply kept_elem].
    apply list_elem_of_bind. exists tr. split; [|done].
    rewrite Hpairs. by apply intron_call_from.
  - split; [by split|by right].
Qed.

Lemma intron_found_witness :
  get_tag (introns (build_indexes sample_genes sample_chroms))
          "chr1" "+" 7000 false
  = Some "intron".
Proof.
  apply (intron_found sample_genes sample_chroms gene_a
           (mkTranscript [5000; 8000] [6000; 9000]) [] []
           5000 6000 8000 9000 7000).
  - left.
  - left.
  - left.
  - reflexivity.
  - discriminate.
  - lia.
Defined.

Lemma add_reads_reach genes chroms rs tg :
  add_reads (init genes chroms) rs = Py.Ok tg →
  built_over (build_indexes genes chroms) tg.
Proof.
  intros Hrun.
  destruct (built_over_init genes chroms) as [Hb _].
  destruct (add_reads_built _ rs _ (build_indexes_named genes chroms) Hb)
    as (tg' & Hrun' & Hb' & _).
  rewrite Hrun in Hrun'. by injection Hrun' as ->.
Qed.

Lemma unspliced_existsb read :
  unspliced read → existsb (fun ol => ol.1 =? 3) (Read.cigar read) = false.
Proof.
  unfold unspliced. induction 1 as [|[op len] l Hop _ IH]; [done|].
  cbn [existsb fst]. cbn [fst] in Hop.
  by rewrite (proj2 (Z.eqb_neq op 3)).
Qed.

(** The calls on the three indexes are calls for genes that were kept. *)
Lemma calls_chrom genes chroms c :
  c ∈ exon_calls genes chroms ∨ c ∈ intron_calls genes chroms
  ∨ c ∈ promoter_calls genes chroms →
  ∃ g, g ∈ genes ∧ chrom g ∈ chroms ∧ c_chrom c = chrom g.
Proof.
  assert (Hfrom : ∀ g ses last_end,
            c ∈ intron_calls_from g last_end ses → c_chrom c = chrom g).
  { intros g ses. induction ses as [|[s e] ses IH]; intros last_end Hin.
    - by apply elem_of_nil in Hin.
    - cbn [intron_calls_from] in Hin.
      apply elem_of_app in Hin as [Hin|Hin]; [|by eapply IH].
      destruct (last_end_set last_end); [|by apply elem_of_nil in Hin].
      by apply list_elem_of_singleton in Hin as ->. }
  unfold exon_calls, intron_calls, promoter_calls.
  intros [Hin|[Hin|Hin]].
  - apply list_elem_of_bind in Hin as (g & Hin & [Hk Hg]%kept_elem).
    apply list_elem_of_bind in Hin as (tr & Hin & _).
    apply list_elem_of_fmap in Hin as (se & -> & _). by exists g.
  - apply list_elem_of_bind in Hin as (g & Hin & [Hk Hg]%kept_elem).
    apply list_elem_of_bind in Hin as (tr & Hin & _).
    exists g. split; [done|]. split; [done|]. by eapply Hfrom.
  - apply list_elem_of_fmap in Hin as (g & -> & [Hk Hg]%kept_elem).
    exists g. split; [done|]. split; [done|].
    unfold promoter_call. by destruct (bool_decide (strand g = "+")).
Qed.

(** X14. A mapped read without a skipped region, on a chromosome other
    than chrM, that starts inside an exon of a gene of its own strand is
    counted as "exon", whatever reads the tagger took before. *)
Theorem read_in_exon (genes : list Gene) (chroms : list string)
    (rs : list (Read.t * string)) (tg : RegionTagger.t) (g : Gene)
    (tr : Transcript) (start end_ : Z) (read : Read.t) :
  add_reads (init genes chroms) rs = Py.Ok tg →
  Read.is_unmapped read = false → unspliced read → chrom g ≠ "chrM" →
  g ∈ genes → chrom g ∈ chroms → tr ∈ transcripts g →
  (start, end_) ∈ exon_pairs tr → start <= Read.pos read <= end_ →
  strand g = read_strand read →
  ∃ n, counts tg !! "exon" = Some n
       ∧ add_read tg read (chrom g) = Py.Ok (bump tg "exon" n).
Proof.
  intros Hrun Hm Hu HM Hg Hk Htr Hse Hp Hs.
  pose proof (add_read_built _ tg read (chrom g)
                (build_indexes_named genes chroms)
                (add_reads_reach _ _ _ _ Hrun)) as Hadd.
  cbn zeta in Hadd. rewrite Hm in Hadd.
  assert (Hcat : category (exons (build_indexes genes chroms))
                   (introns (build_indexes genes chroms))
                   (promoters (build_indexes genes chroms)) read (chrom g)
                 = "exon").
  { unfold category. rewrite bool_decide_eq_false_2 by done.
    rewrite unspliced_existsb by done.
    fold (read_strand read). rewrite <- Hs.
    destruct (build_indexes_calls genes chroms) as (-> & _ & _).
    rewrite (get_tag_hit "exon" (exon_calls genes chroms) (chrom g)
               (strand g) (Read.pos read)); [done|].
    apply Exists_exists. exists (exon_call g (start, end_)).
    split; [by apply (exon_call_elem genes chroms g tr)|].
    split; [by split|by right]. }
  rewrite Hcat in Hadd. by destruct Hadd as [_ Hadd].
Qed.

Lemma read_in_exon_witness :
  ∃ n, counts (init sample_genes sample_chroms) !! "exon" = Some n
       ∧ add_read (init sample_genes sample_chroms) exon_read "chr1"
         = Py.Ok (bump (init sample_genes sample_chroms) "exon" n).
Proof.
  apply (read_in_exon sample_genes sample_chroms [] _ gene_a
           (mkTranscript [5000; 8000] [6000; 9000]) 5000 6000 exon_read).
  - reflexivity.
  - reflexivity.
  - repeat constructor. discriminate.
  - discriminate.
  - left.
  - left.
  - left.
  - left.
  - cbn. lia.
  - reflexivity.
Defined.

(** X15. A mapped read without a skipped region, on a chromosome other
    than chrM on which the model has no gene, is counted as
    "intergenic". *)
Theorem read_off_genes (genes : list Gene) (chroms : list string)
    (rs : list (Read.t * string)) (tg : RegionTagger.t) (read : Read.t)
    (chr : string) :
  add_reads (init genes chroms) rs = Py.Ok tg →
  Read.is_unmapped read = false → unspliced read → chr ≠ "chrM" →
  (∀ g, g ∈ genes → chrom g ≠ chr) →
  ∃ n, counts tg !! "intergenic" = Some n
       ∧ add_read tg read chr = Py.Ok (bump tg "intergenic" n).
Proof.
  intros Hrun Hm Hu HM Hfree.
  pose proof (add_read_built _ tg read chr
                (build_indexes_named genes chroms)
                (add_reads_reach _ _ _ _ Hrun)) as Hadd.
  cbn zeta in Hadd. rewrite Hm in Hadd.
  assert (Hno : ∀ cs pos,
            (∀ c, c ∈ cs → c ∈ exon_calls genes chroms
                           ∨ c ∈ intron_calls genes chroms
                           ∨ c ∈ promoter_calls genes chroms) →
            ¬ Exists (over chr pos) cs).
  { intros cs pos Hcs Hx. apply Exists_exists in Hx as (c & Hin & Hc & _).
    destruct (calls_chrom genes chroms c (Hcs c Hin)) as (g & Hg & _ & Hcg).
    apply (Hfree g Hg). congruence. }
  assert (Hcat : category (exons (build_indexes genes chroms))
                   (introns (build_indexes genes chroms))
                   (promoters (build_indexes genes chroms)) read chr
                 = "intergenic").
  { unfold category. rewrite bool_decide_eq_false_2 by done.
    rewrite unspliced_existsb by done.
    destruct (build_indexes_calls genes chroms) as (-> & -> & ->).
    rewrite !get_tag_none; [done|apply Hno..]; intros c Hc; auto. }
  rewrite Hcat in Hadd. by destruct Hadd as [_ Hadd].
Qed.

Lemma read_off_genes_witness :
  ∃ n, counts (init sample_genes sample_chroms) !! "intergenic" = Some n
       ∧ add_read (init sample_genes sample_chroms) exon_read "chr2"
         = Py.Ok (bump (init sample_genes sample_chroms) "intergenic" n).
Proof.
  apply (read_off_genes sample_genes sample_chroms []).
  - reflexivity.
  - reflexivity.
  - repeat constructor. discriminate.
  - discriminate.
  - intros g Hg. apply elem_of_cons in Hg as [->|Hg]; [discriminate|].
    apply list_elem_of_singleton in Hg as ->. discriminate.
Defined.

End GeneCallsFacts.

(* ===================================================================== *)
(** * The read loop of bam_stats                                         *)
(* ===================================================================== *)

Section StatsPassFacts.
Import BamStats StatsPass Samples.
Variable read_calc_mismatches : Read.t → Py.pyerr Py.pyval.

Lemma csum_comm (g : Z → bool) (j1 j2 z1 z2 y : Z) :
  (if g j1 then (if g j2 then y + z2 else y) + z1
   else if g j2 then y + z2 else y)
  = (if g j2 then (if g j1 then y + z1 else y) + z2
     else if g j1 then y + z1 else y).
Proof. destruct (g j1), (g j2); lia. Qed.

Lemma csum_empty g : csum g ∅ = 0.
Proof. unfold csum. by rewrite map_fold_empty. Qed.

Lemma csum_insert_new g fc k n :
  fc !! k = None →
  csum g (<[k := n]> fc) = csum g fc + (if g k then n else 0).
Proof.
  intros Hk. unfold csum. rewrite map_fold_insert_L; [|intros; apply csum_comm|done].
  destruct (g k); lia.
Qed.

Lemma csum_insert_old g fc k m n :
  fc !! k = Some m →
  csum g (<[k := n]> fc) = csum g fc + (if g k then n - m else 0).
Proof.
  intros Hk. rewrite <- insert_delete_eq.
  rewrite csum_insert_new by apply lookup_delete_eq.
  rewrite <- (insert_delete_id fc k m Hk) at 2.
  rewrite csum_insert_new by apply lookup_delete_eq.
  destruct (g k); lia.
Qed.

(** With counts that are not negative, a partial sum lies between any one
    of its terms and the full sum. *)
Lemma csum_bounds g fc :
  map_Forall (fun _ n => 0 <= n) fc →
  0 <= csum g fc <= flag_sum fc
  ∧ ∀ k n, fc !! k = Some n → g k = true → n <= csum g fc.
Proof.
  unfold flag_sum.
  induction fc as [|k n fc Hk IH] using map_ind; intros Hall.
  - rewrite !csum_empty. split; [lia|]. intros k n Hk.
    by rewrite lookup_empty in Hk.
  - apply map_Forall_insert in Hall as [Hn Hall]; [|done].
    destruct (IH Hall) as [Hb Hterm].
    rewrite !csum_insert_new by done. split; [destruct (g k); lia|].
    intros k' n' Hk' Hg.
    destruct (decide (k = k')) as [->|Hne].
    + rewrite lookup_insert_eq in Hk'. injection Hk' as ->. rewrite Hg. lia.
    + rewrite lookup_insert_ne in Hk' by done.
      pose proof (Hterm k' n' Hk' Hg). destruct (g k); lia.
Qed.

Lemma consistent_init tagger tags : consistent (init tagger tags).
Proof.
  unfold consistent, init; cbn. rewrite size_empty.
  split; [done|]. split; [done|].
  split; [apply csum_empty|apply map_Forall_empty].
Qed.

(** What one round of the loop does to the counters, when it does not
    raise. *)
Lemma step_counters st read st1 :
  step read_calc_mismatches st read = Py.Ok st1 →
  names st1 = {[Read.qname read]} ∪ names st
  ∧ (consistent st → consistent st1).
Proof.
  unfold step. intros Hstep.
  destruct (decide (Read.qname read ∈ names st)) as [Hin|Hnew].
  { rewrite bool_decide_eq_true_2 in Hstep by done. injection Hstep as <-.
    split; [|done]. apply set_eq. intros x.
    rewrite elem_of_union, elem_of_singleton. split; [auto|].
    intros [->|?]; done. }
  rewrite bool_decide_eq_false_2 in Hstep by done.
  set (fc := match flag_counts st !! Read.flag read with
             | Some n => <[Read.flag read := n + 1]> (flag_counts st)
             | None => <[Read.flag read := 1]> (flag_counts st)
             end) in *.
  assert (Hfc : (map_Forall (fun _ n => 1 <= n) (flag_counts st) →
                 map_Forall (fun _ n => 1 <= n) fc)
                ∧ flag_sum fc = flag_sum (flag_counts st) + 1).
  { subst fc. unfold flag_sum.
    destruct (flag_counts st !! Read.flag read) as [n|] eqn:Hn.
    - split.
      + intros Hall. apply map_Forall_insert_2; [|done].
        pose proof (map_Forall_lookup_1 _ _ _ _ Hall Hn). simpl in *. lia.
      + rewrite (csum_insert_old _ _ _ n) by done. lia.
    - split.
      + intros Hall. by apply map_Forall_insert_2.
      + by rewrite csum_insert_new. }
  destruct Hfc as [Hpos Hsum].
  assert (Hsize : size ({[Read.qname read]} ∪ names st)
                  = S (size (names st))).
  { rewrite size_union by (by apply disjoint_singleton_l).
    by rewrite size_singleton. }
  destruct (Read.is_unmapped read).
  - injection Hstep as <-. cbn. split; [done|].
    intros (H1 & H2 & H3 & H4). unfold consistent; cbn.
    rewrite Hsize, Hsum. split; [lia|]. split; [lia|]. split; [lia|auto].
  - destruct (match regiontagger st with
              | Some tg => _
              | None => _
              end) as [tagger1|e]; cbn [mbind pyerr_bind Py.bind] in Hstep;
      [|discriminate].
    destruct (add_all _ _ _) as [bins1|e];
      cbn [mbind pyerr_bind Py.bind] in Hstep; [|discriminate].
    injection Hstep as <-. cbn. split; [done|].
    intros (H1 & H2 & H3 & H4). unfold consistent; cbn.
    rewrite Hsize, Hsum. split; [lia|]. split; [lia|]. split; [lia|auto].
Qed.

Lemma run_counters reads : ∀ st st1,
  run read_calc_mismatches st reads = Py.Ok st1 →
  names st1 = qnames reads ∪ names st
  ∧ (consistent st → consistent st1).
Proof.
  unfold qnames.
  induction reads as [|read reads IH]; intros st st1 Hrun.
  - injection Hrun as <-. split; [|done].
    cbn. by rewrite (left_id_L ∅ (∪)).
  - cbn [run] in Hrun.
    destruct (step read_calc_mismatches st read) as [st'|e] eqn:Hstep;
      cbn [mbind pyerr_bind Py.bind] in Hrun; [|discriminate].
    destruct (step_counters _ _ _ Hstep) as [Hn Hc].
    destruct (IH _ _ Hrun) as [Hn' Hc'].
    split; [|auto]. rewrite Hn', Hn, fmap_cons, list_to_set_cons.
    apply set_eq. intros x. rewrite !elem_of_union. tauto.
Qed.

(** X16. When the pass over the reads ends without an exception: reads
    that share a name were counted once, so [total] is the number of
    distinct names; [total] is [mapped + unmapped]; and the counts of
    [flag_counts] add up to [total]. *)
Theorem run_totals (tagger : option RegionTagger.t) (tags : list string)
    (reads : list Read.t) (st : state) :
  run read_calc_mismatches (init tagger tags) reads = Py.Ok st →
  names st = qnames reads
  ∧ total st = Z.of_nat (size (qnames reads))
  ∧ total st = mapped st + unmapped st
  ∧ flag_sum (flag_counts st) = total st.
Proof.
  intros Hrun. destruct (run_counters _ _ _ Hrun) as [Hn Hc].
  destruct (Hc (consistent_init tagger tags)) as (H1 & H2 & H3 & _).
  assert (Hnames : names st = qnames reads).
  { rewrite Hn. cbn. by rewrite (right_id_L ∅ (∪)). }
  rewrite <- Hnames. done.
Qed.

Lemma step_tagged ix st read :
  RegionTagger.named ix → tagged ix st →
  ∃ st1, step read_calc_mismatches st read = Py.Ok st1 ∧ tagged ix st1.
Proof.
  intros Hn (Hb & tg & Htg & Hbuilt & Htot). unfold step.
  destruct (bool_decide (Read.qname read ∈ names st)).
  { exists st. split; [done|]. split; [done|]. by exists tg. }
  pose proof (add_read_built ix tg read (Read.rname read) Hn Hbuilt) as Hadd.
  cbn zeta in Hadd.
  destruct (Read.is_unmapped read).
  - eexists. split; [reflexivity|]. split; [done|]. by exists tg.
  - destruct Hadd as (Hin & n & Hcat & Hadd).
    rewrite Htg, Hadd, Hb. cbn [mbind pyerr_bind Py.bind add_all].
    eexists. split; [reflexivity|]. split; [done|].
    cbn [regiontagger mapped].
    eexists. split; [reflexivity|].
    split; [by apply built_over_bump|].
    rewrite total_bump by done. lia.
Qed.

Lemma run_tagged ix reads : ∀ st,
  RegionTagger.named ix → tagged ix st →
  ∃ st1, run read_calc_mismatches st reads = Py.Ok st1 ∧ tagged ix st1.
Proof.
  induction reads as [|read reads IH]; intros st Hn Ht.
  - by exists st.
  - destruct (step_tagged ix st read Hn Ht) as (st' & Hstep & Ht').
    destruct (IH st' Hn Ht') as (st1 & Hrun & Ht1).
    exists st1. cbn [run]. rewrite Hstep. by split.
Qed.

Lemma count_ref_some refs key :
  is_Some (refs !! key) →
  ∃ refs1, WholePass.count_ref refs key = Py.Ok refs1
           ∧ ∀ k, is_Some (refs !! k) → is_Some (refs1 !! k).
Proof.
  intros [n Hn]. unfold WholePass.count_ref. rewrite Hn.
  eexists. split; [reflexivity|].
  intros k Hk. destruct (decide (key = k)) as [->|Hne].
  - rewrite lookup_insert_eq. by eexists.
  - by rewrite lookup_insert_ne.
Qed.

Lemma init_refs_from delim references : ∀ (refs : gmap string Z) k,
  is_Some (refs !! k) ∨ k ∈ WholePass.ref_key delim <$> references →
  is_Some (foldl (fun refs rname =>
                    <[WholePass.ref_key delim rname := 0]> refs)
                 refs references !! k).
Proof.
  induction references as [|r references IH]; intros refs k Hk.
  - destruct Hk as [Hk|Hk]; [done|]. by apply elem_of_nil in Hk.
  - cbn [foldl]. apply IH. rewrite fmap_cons in Hk.
    destruct (decide (WholePass.ref_key delim r = k)) as [->|Hne].
    + left. rewrite lookup_insert_eq. by eexists.
    + rewrite lookup_insert_ne by done.
      destruct Hk as [Hk|Hk]; [by left|right].
      apply elem_of_cons in Hk as [Hk|Hk]; [congruence|done].
Qed.

Lemma init_refs_keys delim references r :
  r ∈ references →
  is_Some (WholePass.init_refs delim references
           !! WholePass.ref_key delim r).
Proof.
  intros Hr. apply init_refs_from. right.
  apply list_elem_of_fmap. by exists r.
Qed.

(** The pass with [refs] ends as the pass without it does, as long as
    the keys it reads are there; and where it ends well, so does the
    pass without [refs], in the same state. *)
Lemma whole_run_total delim reads : ∀ st refs st1,
  Forall (fun r => Read.is_unmapped r = false →
                   is_Some (refs !! WholePass.ref_key delim (Read.rname r)))
         reads →
  run read_calc_mismatches st reads = Py.Ok st1 →
  ∃ refs1, WholePass.run read_calc_mismatches delim (st, refs) reads
           = Py.Ok (st1, refs1).
Proof.
  induction reads as [|read reads IH]; intros st refs st1 Hall Hrun.
  - injection Hrun as <-. by exists refs.
  - apply Forall_cons in Hall as [Hr Hall]. cbn [run] in Hrun.
    destruct (step read_calc_mismatches st read) as [st'|e] eqn:Hstep;
      cbn [mbind pyerr_bind Py.bind] in Hrun; [|discriminate].
    cbn [WholePass.run WholePass.step].
    destruct (bool_decide (Read.qname read ∈ names st)
              || Read.is_unmapped read) eqn:Hskip.
    + rewrite Hstep. cbn [mbind pyerr_bind Py.bind]. by apply IH.
    + apply orb_false_iff in Hskip as [_ Hm].
      destruct (count_ref_some refs _ (Hr Hm)) as (refs1 & -> & Hkeep).
      cbn [mbind pyerr_bind Py.bind]. rewrite Hstep.
      cbn [mbind pyerr_bind Py.bind]. apply IH; [|done].
      eapply Forall_impl; [exact Hall|]. intros r H Hu. by apply Hkeep, H.
Qed.

Lemma whole_run_state delim reads : ∀ st refs st1 refs1,
  WholePass.run read_calc_mismatches delim (st, refs) reads
  = Py.Ok (st1, refs1) →
  run read_calc_mismatches st reads = Py.Ok st1.
Proof.
  induction reads as [|read reads IH]; intros st refs st1 refs1 Hrun.
  - by injection Hrun as <- _.
  - cbn [WholePass.run WholePass.step] in Hrun. cbn [run].
    destruct (bool_decide (Read.qname read ∈ names st)
              || Read.is_unmapped read).
    + destruct (step read_calc_mismatches st read) as [st'|e];
        cbn [mbind pyerr_bind Py.bind] in Hrun |- *; [|discriminate].
      by apply (IH _ _ _ _ Hrun).
    + destruct (WholePass.count_ref _ _) as [refs'|e];
        cbn [mbind pyerr_bind Py.bind] in Hrun; [|discriminate].
      destruct (step read_calc_mismatches st read) as [st'|e];
        cbn [mbind pyerr_bind Py.bind] in Hrun |- *; [|discriminate].
      by apply (IH _ _ _ _ Hrun).
Qed.

(** A read that is counted as mapped and whose reference is no key of
    [refs] ends the pass. *)
Lemma step_off_references delim st refs read :
  Read.qname read ∉ names st → Read.is_unmapped read = false →
  refs !! WholePass.ref_key delim (Read.rname read) = None →
  WholePass.step read_calc_mismatches delim (st, refs) read
  = Py.Raise Py.KeyError.
Proof.
  intros Hn Hm Hk. cbn [WholePass.step].
  rewrite bool_decide_eq_false_2 by done. rewrite Hm. cbn [orb].
  unfold WholePass.count_ref. by rewrite Hk.
Qed.

(** X17. With a gene model and no tags, the pass over reads of which
    every one that is not flagged unmapped lies on a reference of the
    file ends without an exception, with or without a delimiter, and
    the nine counters of the region tagger then add up to [mapped]. *)
Theorem run_with_model (genes : list RegionTagger.Gene)
    (delim : option string) (references : list string)
    (reads : list Read.t) :
  WholePass.on_references references reads →
  ∃ st refs tg,
    WholePass.run read_calc_mismatches delim
      (WholePass.init (Some (RegionTagger.init genes references)) []
                      delim references)
      reads
    = Py.Ok (st, refs)
    ∧ regiontagger st = Some tg
    ∧ RegionTagger.total tg = mapped st.
Proof.
  intros Hon.
  destruct (built_over_init genes references) as [Hb H0].
  destruct (run_tagged (RegionTagger.build_indexes genes references) reads
              (init (Some (RegionTagger.init genes references)) [])
              (build_indexes_named genes references))
    as (st & Hrun & _ & tg & Htg & _ & Htot).
  { split; [done|]. eexists. split; [reflexivity|]. by split. }
  destruct (whole_run_total delim reads
              (init (Some (RegionTagger.init genes references)) [])
              (WholePass.init_refs delim references) st) as [refs Hwhole];
    [|exact Hrun|].
  { eapply Forall_impl; [exact Hon|]. intros r H Hu.
    by apply init_refs_keys, H. }
  exists st, refs, tg. by split.
Qed.

Lemma described_positive :
  Forall (fun flag => (Z.land flag flag >? 0) = true) described.
Proof. repeat constructor. Qed.

Lemma listed_flags_elem fc flag :
  flag ∈ listed_flags fc ↔ flag ∈ described ∧ is_Some (fc !! flag).
Proof.
  unfold listed_flags. rewrite merge_sort_Permutation.
  rewrite list_elem_of_filter. fold described. tauto.
Qed.

(** X18. After a pass that ended without an exception, the flag report has
    one line for each of the eleven described flags that is itself the
    flag value of some counted read, in ascending order, and for no other
    flag; the count of each line is the sum the masking loop computes, at
    least 1 and at most [total]. *)
Theorem flag_report_rows (tagger : option RegionTagger.t) (tags : list string)
    (reads : list Read.t) (st : state) :
  run read_calc_mismatches (init tagger tags) reads = Py.Ok st →
  r_flag <$> flag_report st = listed_flags (flag_counts st)
  ∧ (∀ flag, flag ∈ r_flag <$> flag_report st
             ↔ flag ∈ described ∧ is_Some (flag_counts st !! flag))
  ∧ Sorted Z.le (r_flag <$> flag_report st)
  ∧ Forall (fun row => r_count row = bit_count (flag_counts st) (r_flag row)
                       ∧ 1 <= r_count row <= total st)
           (flag_report st).
Proof.
  intros Hrun. destruct (run_counters _ _ _ Hrun) as [_ Hc].
  destruct (Hc (consistent_init tagger tags)) as (_ & _ & Hsum & Hpos).
  assert (Hnn : map_Forall (fun _ n => 0 <= n) (flag_counts st)).
  { eapply map_Forall_impl; [exact Hpos|]. simpl. intros; lia. }
  assert (Hcount : ∀ flag, flag ∈ listed_flags (flag_counts st) →
            1 <= bit_count (flag_counts st) flag <= total st).
  { intros flag [Hd [n Hn]]%listed_flags_elem.
    pose proof described_positive as Hdp. rewrite Forall_forall in Hdp.
    destruct (csum_bounds (fun f => Z.land f flag >? 0) _ Hnn) as [Hb Hterm].
    pose proof (Hterm flag n Hn (Hdp flag Hd)) as Hle.
    pose proof (map_Forall_lookup_1 _ _ _ _ Hpos Hn) as H1. simpl in H1.
    rewrite Hsum in Hb. unfold bit_count. unfold csum in *. lia. }
  assert (Hrep : flag_report st
                 = (fun flag => mkRow flag (describe flag)
                      (bit_count (flag_counts st) flag)
                      (inject_Z (bit_count (flag_counts st) flag) * 100
                       / inject_Z (total st))%Q)
                   <$> listed_flags (flag_counts st)).
  { unfold flag_report.
    destruct (Z.gtb_spec (total st) 0) as [Hgt|Hle].
    - induction (listed_flags (flag_counts st)) as [|flag l IH]; [done|].
      cbn [omap list_omap fmap list_fmap].
      destruct (Hcount flag) as [H1 _]; [left|].
      rewrite (proj2 (Z.gtb_lt _ 0)) by lia.
      rewrite IH; [done|]. intros f Hf. apply Hcount. by right.
    - destruct (listed_flags (flag_counts st)) as [|flag l]; [done|].
      destruct (Hcount flag); [left|lia]. }
  assert (Hflags : r_flag <$> flag_report st = listed_flags (flag_counts st)).
  { rewrite Hrep, <- list_fmap_compose.
    rewrite <- (list_fmap_id (listed_flags (flag_counts st))) at 2.
    by apply list_fmap_ext. }
  split; [exact Hflags|]. split; [|split].
  - intros flag. rewrite Hflags. apply listed_flags_elem.
  - rewrite Hflags. apply (Sorted_merge_sort Z.le).
  - rewrite Hrep. apply Forall_fmap, Forall_forall. intros flag Hin.
    cbn. split; [done|]. by apply Hcount.
Qed.

End StatsPassFacts.

Section StatsPassWitnesses.
Import BamStats StatsPass Samples.

Lemma run_totals_witness :
  ∃ st, run no_mismatches (init None []) dup_reads = Py.Ok st
        ∧ total st = 2
        ∧ mapped st + unmapped st = 2.
Proof.
  assert (Hrun : ∃ st, run no_mismatches (init None []) dup_reads = Py.Ok st)
    by (eexists; reflexivity).
  destruct Hrun as [st Hrun]. exists st.
  destruct (run_totals no_mismatches None [] dup_reads st Hrun)
    as (_ & Ht & Hm & _).
  split; [exact Hrun|]. split.
  - rewrite Ht. reflexivity.
  - rewrite <- Hm, Ht. reflexivity.
Defined.

Lemma flag_report_rows_witness :
  ∃ st, run no_mismatches (init None []) flag_reads = Py.Ok st
        ∧ r_flag <$> flag_report st = [1; 16].
Proof.
  assert (Hrun : ∃ st, run no_mismatches (init None []) flag_reads = Py.Ok st)
    by (eexists; reflexivity).
  destruct Hrun as [st Hrun]. exists st.
  destruct (flag_report_rows no_mismatches None [] flag_reads st Hrun)
    as (Hf & _).
  split; [exact Hrun|]. rewrite Hf.
  vm_compute in Hrun. injection Hrun as <-. reflexivity.
Defined.

(** [split(delim)[0]] on reference names, and the keys of [refs] when
    two references share the text before the delimiter. *)
Example ref_key_samples :
  WholePass.ref_key (Some "_") "chr1_random" = "chr1"
  ∧ WholePass.ref_key (Some "_") "chr1" = "chr1"
  ∧ WholePass.ref_key (Some "_") "_alt" = ""
  ∧ WholePass.ref_key (Some "ab") "xaaby" = "xa"
  ∧ WholePass.ref_key (Some "") "chr1_random" = "chr1_random"
  ∧ WholePass.ref_key None "chr1_random" = "chr1_random"
  ∧ dom (WholePass.init_refs (Some "_") ["chr1"; "chr1_random"; "chr2"])
    = ({["chr1"; "chr2"]} : gset string).
Proof. repeat split; vm_compute; reflexivity. Qed.

Lemma run_with_model_witness :
  (∃ st refs tg,
     WholePass.run no_mismatches (Some "_")
       (WholePass.init
          (Some (RegionTagger.init GeneCalls.sample_genes
                   GeneCalls.sample_chroms))
          [] (Some "_") GeneCalls.sample_chroms)
       flag_reads
     = Py.Ok (st, refs)
     ∧ regiontagger st = Some tg
     ∧ RegionTagger.total tg = mapped st)
  ∧ WholePass.run no_mismatches None
      (WholePass.init
         (Some (RegionTagger.init GeneCalls.sample_genes
                  GeneCalls.sample_chroms))
         [] None GeneCalls.sample_chroms)
      (flag_reads ++ [WholePass.stray_read])
    = Py.Raise Py.KeyError.
Proof.
  split; [|reflexivity].
  apply (run_with_model no_mismatches GeneCalls.sample_genes (Some "_")
           GeneCalls.sample_chroms flag_reads).
  repeat constructor; intros _; left.
Defined.

End StatsPassWitnesses.

(* ===================================================================== *)
(** * What a FeatureBin holds                                            *)
(* ===================================================================== *)

Section TallyFacts.
Import FeatureBin Tally.

Lemma eqb_sym a b : Py.eqb a b = Py.eqb b a.
Proof.
  destruct a as [x|s|p], b as [y|t|q]; cbn [Py.eqb Py.to_Q];
    try reflexivity; try apply Qeq_bool_comm.
  - apply Z.eqb_sym.
  - apply bool_decide_ext. split; congruence.
Qed.

Lemma eqb_int_Q x y : (x =? y) = Qeq_bool (inject_Z x) (inject_Z y).
Proof.
  apply eq_true_iff_eq.
  rewrite Z.eqb_eq, Qeq_bool_iff, inject_Z_injective. done.
Qed.

Lemma eqb_trans a b c :
  Py.eqb a b = true → Py.eqb b c = true → Py.eqb a c = true.
Proof.
  destruct a as [x|s|p], b as [y|t|q], c as [z|u|r];
    cbn [Py.eqb Py.to_Q]; rewrite ?eqb_int_Q; try discriminate;
    try apply Qeq_bool_trans.
  rewrite !bool_decide_eq_true. congruence.
Qed.

Lemma eqb_left a b c : Py.eqb a b = true → Py.eqb a c = Py.eqb b c.
Proof.
  intros Hab. destruct (Py.eqb b c) eqn:Hbc.
  - by apply (eqb_trans a b c).
  - destruct (Py.eqb a c) eqn:Hac; [|done].
    rewrite eqb_sym in Hab. by rewrite (eqb_trans b a c Hab Hac) in Hbc.
Qed.

Lemma getitem_incr v val d :
  getitem v (incr val d)
  = if Py.eqb val v
    then n ← getitem v d; Py.Ok (n + 1)
    else getitem v d.
Proof.
  induction d as [|[k n] d IH]; cbn [incr getitem].
  - by destruct (Py.eqb val v).
  - destruct (Py.eqb k val) eqn:Hk; cbn [getitem].
    + rewrite (eqb_left k val v Hk). by destruct (Py.eqb val v).
    + destruct (Py.eqb k v) eqn:Hkv; [|exact IH].
      destruct (Py.eqb val v) eqn:Hv; [|done].
      rewrite eqb_sym in Hv. by rewrite (eqb_trans k v val Hkv Hv) in Hk.
Qed.

Lemma getitem_cases v d :
  (∃ m, getitem v d = Py.Ok m ∧ mem v d = true)
  ∨ (getitem v d = Py.Raise Py.KeyError ∧ mem v d = false).
Proof.
  unfold mem. induction d as [|[k n] d IH]; cbn [existsb getitem fst].
  - by right.
  - destruct (Py.eqb k v); cbn [orb]; [left; by exists n|exact IH].
Qed.

Lemma mem_eqb a b d : Py.eqb a b = true → mem a d = mem b d.
Proof.
  intros Hab. unfold mem. induction d as [|[k n] d IH]; [done|].
  cbn [existsb fst]. rewrite IH. f_equal.
  rewrite !(eqb_sym k). by apply eqb_left.
Qed.

Lemma getitem_snoc v val n d :
  getitem v (d ++ [(val, n)])
  = match getitem v d with
    | Py.Ok m => Py.Ok m
    | Py.Raise _ => if Py.eqb val v then Py.Ok n else Py.Raise Py.KeyError
    end.
Proof.
  induction d as [|[k m] d IH]; cbn [app getitem]; [done|].
  by destruct (Py.eqb k v).
Qed.

Lemma occurrences_snoc v vals val :
  occurrences v (vals ++ [val])
  = occurrences v vals + (if Py.eqb val v then 1 else 0).
Proof.
  unfold occurrences. rewrite filter_app, length_app, filter_cons, filter_nil.
  destruct (Py.eqb val v).
  - rewrite decide_True by done. cbn [length]. lia.
  - rewrite decide_False by done. cbn [length]. lia.
Qed.

Lemma occurrences_nonneg v vals : 0 <= occurrences v vals.
Proof. unfold occurrences. lia. Qed.

Lemma getitem_add_val fb val v :
  getitem v (bins (add_val fb val))
  = match getitem v (bins fb) with
    | Py.Ok m => Py.Ok (m + (if Py.eqb val v then 1 else 0))
    | Py.Raise _ => if Py.eqb val v then Py.Ok 1 else Py.Raise Py.KeyError
    end.
Proof.
  unfold add_val. cbn [bins].
  destruct (getitem_cases v (bins fb)) as [(m & Hg & Hv)|[Hg Hv]]; rewrite Hg.
  - destruct (mem val (bins fb)) eqn:Hm; cbn [negb].
    + rewrite getitem_incr, Hg. cbn [mbind pyerr_bind Py.bind].
      destruct (Py.eqb val v); f_equal; lia.
    + rewrite incr_fresh by done. rewrite getitem_snoc, Hg.
      destruct (Py.eqb val v) eqn:E; [|f_equal; lia].
      rewrite (mem_eqb val v _ E) in Hm. congruence.
  - destruct (mem val (bins fb)) eqn:Hm; cbn [negb].
    + rewrite getitem_incr, Hg. cbn [mbind pyerr_bind Py.bind].
      destruct (Py.eqb val v) eqn:E; [|done].
      rewrite (mem_eqb val v _ E) in Hm. congruence.
    + rewrite incr_fresh by done. by rewrite getitem_snoc, Hg.
Qed.

Lemma getitem_of_values tg vals v :
  getitem v (bins (of_values tg vals))
  = if occurrences v vals =? 0 then Py.Raise Py.KeyError
    else Py.Ok (occurrences v vals).
Proof.
  induction vals as [|val vals IH] using rev_ind; [done|].
  rewrite of_values_snoc, getitem_add_val, IH, occurrences_snoc.
  pose proof (occurrences_nonneg v vals) as Hnn.
  destruct (Z.eqb_spec (occurrences v vals) 0) as [->|Hne].
  - by destruct (Py.eqb val v).
  - rewrite (proj2 (Z.eqb_neq _ 0)); [done|].
    destruct (Py.eqb val v); lia.
Qed.

(** X20. The dictionary of a distribution is the histogram of the values
    added: looking up a value gives the number of added values equal to
    it, and a value that was never added is not a key (the lookup raises
    KeyError). *)
Theorem bins_histogram (tg : string) (vals : list Py.pyval) (v : Py.pyval) :
  getitem v (bins (of_values tg vals))
  = if occurrences v vals =? 0 then Py.Raise Py.KeyError
    else Py.Ok (occurrences v vals).
Proof. apply getitem_of_values. Qed.

Lemma mem_keys val d :
  mem val d = false ↔ Forall (fun k => Py.eqb k val = false) d.*1.
Proof.
  unfold mem. induction d as [|[k n] d IH]; cbn [existsb fst].
  - split; [constructor|done].
  - rewrite fmap_cons, Forall_cons, orb_false_iff, IH. done.
Qed.

Lemma distinct_snoc ks v :
  distinct (ks ++ [v])
  ↔ distinct ks ∧ Forall (fun k => Py.eqb k v = false) ks.
Proof.
  induction ks as [|k ks IH]; cbn [app distinct].
  - split; [intros _; by split|intros _; by split].
  - rewrite IH, Forall_app, Forall_singleton, Forall_cons. tauto.
Qed.

(** The keys of a distribution, in the order of their first coming, are
    the keys of its dictionary, and no two of them are equal. *)
Lemma of_values_keys tg vals :
  _keys (of_values tg vals) = (bins (of_values tg vals)).*1
  ∧ distinct (_keys (of_values tg vals)).
Proof.
  induction vals as [|val vals [IHk IHd]] using rev_ind; [done|].
  rewrite of_values_snoc. unfold add_val. cbn [_keys bins].
  destruct (mem val (bins (of_values tg vals))) eqn:Hm; cbn [negb].
  - by rewrite incr_keys.
  - rewrite incr_keys, fmap_app, IHk. split; [done|].
    apply distinct_snoc. rewrite <- IHk. split; [done|].
    rewrite IHk. by apply mem_keys.
Qed.

Lemma of_values_asc tg vals : asc (of_values tg vals) = asc (init tg).
Proof.
  induction vals as [|val vals IH] using rev_ind; [done|].
  by rewrite of_values_snoc.
Qed.

Lemma items_of_keys d : distinct d.*1 → items_of d d.*1 = d.
Proof.
  unfold items_of. induction d as [|[k n] d IH]; [done|].
  rewrite !fmap_cons. cbn [distinct fst]. intros [Hk Hd].
  cbn [getitem]. rewrite eqb_refl. f_equal.
  rewrite <- (IH Hd) at 2. apply list_fmap_ext.
  intros i k' Hk'. cbn [getitem].
  rewrite Forall_forall in Hk.
  rewrite (Hk k'); [done|]. by apply list_elem_of_lookup_2 with i.
Qed.

Lemma items_of_perm d ks ks' : ks ≡ₚ ks' → items_of d ks ≡ₚ items_of d ks'.
Proof. unfold items_of. by intros ->. Qed.

Lemma ltb_asym a b : Py.ltb a b = true → Py.ltb b a = false.
Proof.
  destruct a as [x|s|p], b as [y|t|q]; cbn [Py.ltb Py.to_Q]; try done.
  - rewrite Z.ltb_lt, Z.ltb_ge. lia.
  - unfold Py.Qltb. rewrite <- (Qcompare_antisym (inject_Z x) q).
    by destruct (inject_Z x ?= q)%Q.
  - unfold String.ltb. rewrite (String.compare_antisym t s).
    by destruct (String.compare s t).
  - unfold Py.Qltb. rewrite <- (Qcompare_antisym p (inject_Z y)).
    by destruct (p ?= inject_Z y)%Q.
  - unfold Py.Qltb. rewrite <- (Qcompare_antisym p q).
    by destruct (p ?= q)%Q.
Qed.

#[local] Instance le_total : Total le.
Proof.
  intros a b. unfold le.
  destruct (Py.ltb b a) eqn:E; [right; by apply ltb_asym|by left].
Qed.

(** The calls of [next] from a cursor before position [i]. *)
Lemma drain_from fuel : ∀ fb i,
  cur_pos fb = Z.of_nat i - 1 →
  (length (_keys fb) - i < fuel)%nat →
  Forall (fun k => mem k (bins fb) = true) (_keys fb) →
  ∃ fb1, drain fuel fb
         = Some (Done (items_of (bins fb) (drop i (_keys fb))) fb1).
Proof.
  induction fuel as [|fuel IH]; intros fb i Hcur Hfuel Hkeys; [lia|].
  cbn [drain]. unfold next.
  cbn [advance _keys cur_pos bins]. rewrite Hcur.
  replace (Z.of_nat i - 1 + 1) with (Z.of_nat i) by lia.
  unfold Py.len.
  destruct (Z.leb_spec (Z.of_nat (length (_keys fb))) (Z.of_nat i)) as [Hge|Hlt].
  - rewrite drop_ge by lia. by eexists.
  - unfold index. rewrite (proj2 (Z.leb_le 0 _)) by lia. rewrite Nat2Z.id.
    destruct (lookup_lt_is_Some_2 (_keys fb) i) as [k Hk]; [lia|].
    rewrite Hk.
    pose proof (proj1 (Forall_forall _ _) Hkeys k
                  (list_elem_of_lookup_2 _ _ _ Hk)) as Hmem.
    destruct (getitem_cases k (bins fb)) as [(n & Hg & _)|[_ Hn]];
      [|congruence].
    rewrite Hg.
    destruct (IH (advance fb) (S i)) as [fb1 Hrec].
    + cbn [advance cur_pos]. lia.
    + cbn [advance _keys]. lia.
    + done.
    + rewrite Hrec. cbn [advance _keys bins].
      exists fb1. rewrite (drop_S _ _ _ Hk). unfold items_of.
      rewrite fmap_cons. by rewrite Hg.
Qed.

Lemma append_char cur c s : (cur +:+ String c "") +:+ s = cur +:+ String c s.
Proof.
  induction cur as [|a cur IH]; [reflexivity|].
  change (String a ((cur +:+ String c "") +:+ s) = String a (cur +:+ String c s)).
  by f_equal.
Qed.

Lemma append_empty s : s +:+ "" = s.
Proof.
  induction s as [|a s IH]; [reflexivity|].
  change (String a (s +:+ "") = String a s). by f_equal.
Qed.

Lemma split_colon_piece s : ∀ cur rest,
  no_colon s →
  split_colon s cur = [cur +:+ s]
  ∧ split_colon (s +:+ String ":" rest) cur
    = (cur +:+ s) :: split_colon rest "".
Proof.
  induction s as [|c s IH]; intros cur rest Hs.
  - cbn. by rewrite append_empty.
  - destruct Hs as [Hc Hs].
    change (String c s +:+ String ":" rest)
      with (String c (s +:+ String ":" rest)).
    cbn [split_colon].
    rewrite bool_decide_eq_false_2 by done.
    destruct (IH (cur +:+ String c "") rest Hs) as [-> ->].
    by rewrite append_char.
Qed.

(** X22. The tag handed to [FeatureBin] is split at its colons: the name
    is the text before the first colon, the tally is ascending when there
    is no colon or when the text after the first colon (up to a second
    one) is [+], and descending for any other text there, the empty one
    included. *)
Theorem init_direction (name dir : string) :
  no_colon name → no_colon dir →
  (tag (init name) = name ∧ asc (init name) = true)
  ∧ (tag (init (name +:+ String ":" dir)) = name
     ∧ asc (init (name +:+ String ":" dir)) = bool_decide (dir = "+"))
  ∧ ∀ more, tag (init (name +:+ String ":" (dir +:+ String ":" more))) = name
            ∧ asc (init (name +:+ String ":" (dir +:+ String ":" more)))
              = bool_decide (dir = "+").
Proof.
  intros Hn Hd. unfold init.
  destruct (split_colon_piece name "" dir Hn) as [H1 H2].
  destruct (split_colon_piece dir "" "" Hd) as [H3 _].
  split; [by rewrite H1|]. split.
  - by rewrite H2, H3.
  - intros more.
    destruct (split_colon_piece name "" (dir +:+ String ":" more) Hn)
      as [_ H4].
    destruct (split_colon_piece dir "" more Hd) as [_ H5].
    by rewrite H4, H5.
Qed.

Lemma for_items_done tg vals fuel :
  (length (bins (of_values tg vals)) < fuel)%nat →
  ∃ items fb1,
    drain fuel (iter (of_values tg vals)) = Some (Done items fb1)
    ∧ items ≡ₚ bins (of_values tg vals)
    ∧ Sorted (yield_order (asc (init tg))) items.*1.
Proof.
  intros Hfuel. set (fb := of_values tg vals) in *.
  destruct (of_values_keys tg vals) as [Hk Hd]. fold fb in Hk, Hd.
  set (ks := if negb (asc fb) then reverse (merge_sort le (_keys fb))
             else merge_sort le (_keys fb)).
  assert (Hperm : ks ≡ₚ _keys fb).
  { subst ks. destruct (negb (asc fb));
      rewrite ?reverse_Permutation; apply merge_sort_Permutation. }
  destruct (drain_from fuel (iter fb) 0) as [fb1 Hrun].
  - done.
  - cbn [iter _keys]. fold ks. rewrite Hperm, Hk, length_fmap. lia.
  - cbn [iter _keys bins]. fold ks. rewrite Hperm, Hk.
    apply Forall_forall. intros k Hin.
    apply list_elem_of_fmap in Hin as ([k' n] & -> & Hin).
    unfold mem. apply existsb_exists. exists (k', n).
    split; [by apply list_elem_of_In|apply eqb_refl].
  - cbn [iter _keys bins] in Hrun. fold ks in Hrun. rewrite drop_0 in Hrun.
    exists (items_of (bins fb) ks), fb1. split; [exact Hrun|]. split.
    + rewrite (items_of_perm _ _ _ Hperm), Hk. rewrite items_of_keys; [done|].
      by rewrite <- Hk.
    + unfold items_of. rewrite <- list_fmap_compose.
      rewrite (list_fmap_ext _ id ks) by done. rewrite list_fmap_id.
      subst ks. rewrite <- (of_values_asc tg vals). fold fb.
      unfold yield_order. destruct (asc fb); cbn [negb].
      * apply (Sorted_merge_sort le).
      * apply Sorted_reverse, (Sorted_merge_sort le).
Qed.

(** X21. A [for] loop over a distribution ends after as many steps as it
    has distinct values, having given every entry of the dictionary once
    (each distinct value with its count), the values in ascending order,
    or in descending order when the tag was given with a direction other
    than [+]. *)
Theorem for_items_sorted (tg : string) (vals : list Py.pyval) (fuel : nat) :
  (length (bins (of_values tg vals)) < fuel)%nat →
  ∃ items fb1,
    for_items fuel (of_values tg vals) = Some (Done items fb1)
    ∧ items ≡ₚ bins (of_values tg vals)
    ∧ Sorted (yield_order (asc (init tg))) items.*1.
Proof. apply for_items_done. Qed.

Lemma for_items_sorted_witness :
  ∃ items fb1,
    for_items 4 (of_values "NM:-" (Py.PyInt <$> [3; 1; 2; 1]))
    = Some (Done items fb1)
    ∧ items ≡ₚ bins (of_values "NM:-" (Py.PyInt <$> [3; 1; 2; 1]))
    ∧ Sorted (flip le) items.*1.
Proof.
  apply (for_items_sorted "NM:-" (Py.PyInt <$> [3; 1; 2; 1]) 4).
  vm_compute. lia.
Defined.

Lemma init_direction_witness :
  asc (init "AS:-") = false ∧ asc (init "AS:") = false
  ∧ tag (init "AS:+:x") = "AS" ∧ asc (init "AS:+:x") = true.
Proof.
  split; [|split].
  - destruct (init_direction "AS" "-") as (_ & [_ H] & _).
    + repeat split; discriminate.
    + repeat split; discriminate.
    + exact H.
  - destruct (init_direction "AS" "") as (_ & [_ H] & _).
    + repeat split; discriminate.
    + exact I.
    + exact H.
  - destruct (init_direction "AS" "+") as (_ & _ & H).
    + repeat split; discriminate.
    + repeat split; discriminate.
    + exact (H "x").
Defined.

Lemma max_of_nonneg_witness :
  max (of_values "MAPQ" (Py.PyInt <$> [0; 30; 0; 12])) = Some (Py.PyInt 30).
Proof.
  apply (max_of_nonneg "MAPQ" [0; 30; 0; 12]).
  - discriminate.
  - repeat constructor; discriminate.
Defined.

End TallyFacts.

(* ===================================================================== *)
(** * The report of the tag distributions                                *)
(* ===================================================================== *)

Section TagReportFacts.
Import BamStats StatsPass FeatureBin Tally TagReport.
Variable read_calc_mismatches : Read.t → Py.pyerr Py.pyval.

Lemma add_all_values fbs read : ∀ fbs1,
  add_all read_calc_mismatches fbs read = Py.Ok fbs1 →
  Forall2 (fun fb fb1 => ∃ val, fb1 = add_val fb val) fbs fbs1.
Proof.
  induction fbs as [|fb fbs IH]; intros fbs1 Hadd.
  - injection Hadd as <-. constructor.
  - cbn [add_all] in Hadd. unfold add in Hadd.
    destruct (observe read_calc_mismatches fb read) as [val|e];
      cbn [mbind pyerr_bind Py.bind] in Hadd; [|discriminate].
    destruct (add_all read_calc_mismatches fbs read) as [rest|e];
      cbn [mbind pyerr_bind Py.bind] in Hadd; [|discriminate].
    injection Hadd as <-. constructor; [by exists val|by apply IH].
Qed.

Lemma step_tallied st read st1 :
  step read_calc_mismatches st read = Py.Ok st1 →
  tallied st → tallied st1.
Proof.
  unfold step, tallied. intros Hstep Ht.
  destruct (bool_decide (Read.qname read ∈ names st)).
  { by injection Hstep as <-. }
  destruct (Read.is_unmapped read).
  { by injection Hstep as <-. }
  destruct (match regiontagger st with
            | Some tg => _
            | None => _
            end) as [tagger1|e]; cbn [mbind pyerr_bind Py.bind] in Hstep;
    [|discriminate].
  destruct (add_all _ _ _) as [bins1|e] eqn:Hadd;
    cbn [mbind pyerr_bind Py.bind] in Hstep; [|discriminate].
  injection Hstep as <-. cbn [tagbins mapped].
  apply add_all_values in Hadd.
  induction Hadd as [|fb fb1 fbs fbs1 [val ->] _ IH]; [constructor|].
  apply Forall_cons in Ht as [(tg & vals & -> & Hlen) Ht].
  constructor; [|by apply IH].
  exists tg, (vals ++ [val]). rewrite of_values_snoc. split; [done|].
  rewrite length_app. cbn [length]. lia.
Qed.

Lemma run_tallied reads : ∀ st st1,
  run read_calc_mismatches st reads = Py.Ok st1 →
  tallied st → tallied st1.
Proof.
  induction reads as [|read reads IH]; intros st st1 Hrun Ht.
  - by injection Hrun as <-.
  - cbn [run] in Hrun.
    destruct (step read_calc_mismatches st read) as [st'|e] eqn:Hstep;
      cbn [mbind pyerr_bind Py.bind] in Hrun; [|discriminate].
    eapply IH; [exact Hrun|]. by eapply step_tallied.
Qed.

Lemma tallied_init tagger tags : tallied (BamStats.init tagger tags).
Proof.
  unfold tallied, BamStats.init. cbn [tagbins mapped].
  apply Forall_fmap, Forall_forall. intros tg _. by exists tg, [].
Qed.

(** The loop of [mean] either takes the [except] branch or ends with a
    number and the sum of the counts. *)
Lemma mean_loop_ends entries : ∀ acc count,
  Py.is_numeric acc = true →
  mean_loop entries acc count = None
  ∨ ∃ acc', mean_loop entries acc count = Some (acc', count + count_sum entries)
            ∧ Py.is_numeric acc' = true.
Proof.
  induction entries as [|[k n] entries IH]; intros acc count Hacc.
  - right. exists acc. cbn. by rewrite Z.add_0_r.
  - cbn [mean_loop].
    destruct (Py.add acc (Py.mul_int k n)) as [acc1|e] eqn:Hadd; [|by left].
    assert (Hn1 : Py.is_numeric acc1 = true).
    { destruct acc as [x| |p]; [|done|];
        destruct k as [y|t|q]; cbn in Hadd; try discriminate;
        by injection Hadd as <-. }
    destruct (IH acc1 (count + n) Hn1) as [->|(acc' & -> & Hn')]; [by left|].
    right. exists acc'. split; [|done]. cbn [count_sum foldr snd].
    f_equal. f_equal. unfold count_sum. lia.
Qed.

Lemma mean_ok fb :
  count_sum (bins fb) ≠ 0 → ∃ m, mean fb = Py.Ok m.
Proof.
  intros Hc. unfold mean, mean_of.
  destruct (mean_loop_ends (bins fb) (Py.PyInt 0) 0 eq_refl)
    as [->|(acc & -> & Hn)]; [by eexists|].
  rewrite Z.add_0_l. unfold Py.float_div.
  rewrite (proj2 (Z.eqb_neq _ 0) Hc).
  destruct acc; [by eexists|done|by eexists].
Qed.

(** With [mapped] not zero, the loop of the report prints one line for
    each pair that the iteration gives. *)
Lemma tag_rows_drain fuel mapped : ∀ fb acc items fb1,
  mapped ≠ 0 →
  drain fuel fb = Some (Done items fb1) →
  tag_rows fuel mapped acc fb = Some (Rows (cumulative mapped acc items)).
Proof.
  induction fuel as [|fuel IH]; intros fb acc items fb1 Hm Hd; [done|].
  cbn [drain] in Hd. cbn [tag_rows].
  destruct (next fb) as [fb' [[val count]| | |e]]; try discriminate.
  - destruct (drain fuel fb') as [[items' fb2|y]|] eqn:Hrec; try discriminate.
    injection Hd as <- <-.
    rewrite (proj2 (Z.eqb_neq _ 0) Hm).
    by rewrite (IH fb' _ items' fb2 Hm Hrec).
  - by injection Hd as <- <-.
Qed.

Lemma cumulative_items mapped items : ∀ acc,
  (fun r => r.1) <$> cumulative mapped acc items = items.
Proof.
  induction items as [|[val count] items IH]; intros acc; [done|].
  cbn [cumulative]. rewrite fmap_cons. by rewrite IH.
Qed.

Lemma cumulative_last mapped items : ∀ acc,
  items ≠ [] →
  ∃ val count pct,
    last (cumulative mapped acc items) = Some (val, count, pct)
    ∧ (pct == (acc + inject_Z (count_sum items)) * inject_Z 100
              / inject_Z mapped)%Q.
Proof.
  induction items as [|[val count] items IH]; intros acc Hne; [done|].
  cbn [cumulative]. destruct items as [|kv items].
  - exists val, count, ((acc + inject_Z count) * inject_Z 100
                        / inject_Z mapped)%Q.
    split; [done|]. unfold count_sum. cbn [foldr snd].
    rewrite Z.add_0_r. reflexivity.
  - destruct (IH (acc + inject_Z count)%Q) as (v & c & q & Hl & Hq); [done|].
    exists v, c, q. split.
    + rewrite last_cons, Hl. done.
    + rewrite Hq. unfold count_sum. cbn [foldr snd].
      rewrite !inject_Z_plus. apply Qdiv_comp; [|reflexivity]. ring.
Qed.

Lemma run_unmapped reads : ∀ st st1,
  Forall (fun r => Read.is_unmapped r = true) reads →
  run read_calc_mismatches st reads = Py.Ok st1 →
  tagbins st1 = tagbins st ∧ mapped st1 = mapped st.
Proof.
  induction reads as [|read reads IH]; intros st st1 Hall Hrun.
  - by injection Hrun as <-.
  - apply Forall_cons in Hall as [Hu Hall]. cbn [run] in Hrun.
    unfold step in Hrun. rewrite Hu in Hrun.
    destruct (bool_decide (Read.qname read ∈ names st));
      cbn [mbind pyerr_bind Py.bind] in Hrun;
      by destruct (IH _ _ Hall Hrun) as [-> ->].
Qed.

Lemma qnames_size read reads : (0 < size (qnames (read :: reads)))%nat.
Proof.
  destruct (size (qnames (read :: reads))) eqn:Hs; [|lia].
  apply size_empty_inv in Hs. exfalso.
  apply (not_elem_of_empty (C := gset string) (Read.qname read)).
  rewrite <- Hs. unfold qnames. rewrite fmap_cons, list_to_set_cons.
  apply elem_of_union. left. by apply elem_of_singleton.
Qed.

(** X23. When a tag is asked for and the file has reads but none of them
    is mapped, the pass itself ends well and the report then raises
    ZeroDivisionError at the mean of the first tag: nothing was tallied. *)
Theorem report_without_mapped (tagger : option RegionTagger.t)
    (tg : string) (tags : list string) (reads : list Read.t) (st : state)
    (fuel : nat) :
  run read_calc_mismatches (BamStats.init tagger (tg :: tags)) reads
  = Py.Ok st →
  reads ≠ [] → Forall (fun r => Read.is_unmapped r = true) reads →
  mapped st = 0 ∧ 0 < total st
  ∧ tag_report fuel st = Some [Aborted Py.ZeroDivisionError].
Proof.
  intros Hrun Hne Hall.
  destruct (run_unmapped _ _ _ Hall Hrun) as [Hb Hm].
  destruct (run_counters read_calc_mismatches _ _ _ Hrun) as [Hn Hc].
  destruct (Hc (consistent_init tagger (tg :: tags))) as (_ & Hsize & _).
  assert (Ht : 0 < total st).
  { rewrite Hsize, Hn. cbn [names BamStats.init].
    rewrite (right_id_L ∅ (∪)).
    destruct reads as [|read reads]; [done|].
    pose proof (qnames_size read reads). lia. }
  split; [exact Hm|]. split; [exact Ht|].
  unfold tag_report. rewrite (proj2 (Z.gtb_lt _ 0)) by lia.
  rewrite Hb. reflexivity.
Qed.

(** X24. When reads were mapped, the report of every tag is printed in
    full: the mean is a value, there is one line for each entry of the
    tally, and the cumulative percentage of the last line is 100. *)
Theorem report_cumulative (tagger : option RegionTagger.t)
    (tags : list string) (reads : list Read.t) (st : state) :
  run read_calc_mismatches (BamStats.init tagger tags) reads = Py.Ok st →
  0 < mapped st →
  Forall (fun fb =>
            ∀ fuel, (length (bins fb) < fuel)%nat →
            ∃ m rows val count pct,
              tag_section fuel (mapped st) fb
              = Some (Section (mkSection (tag fb) m (max fb) rows))
              ∧ (fun r => r.1) <$> rows ≡ₚ bins fb
              ∧ last rows = Some (val, count, pct)
              ∧ (pct == inject_Z 100)%Q)
         (tagbins st).
Proof.
  intros Hrun Hm.
  pose proof (run_tallied _ _ _ Hrun (tallied_init tagger tags)) as Ht.
  unfold tallied in Ht. eapply Forall_impl; [exact Ht|].
  intros fb (tg & vals & -> & Hlen) fuel Hfuel.
  destruct (of_values_bins tg vals) as (Hc & _ & _).
  assert (Hcs : count_sum (bins (of_values tg vals)) = mapped st) by lia.
  destruct (mean_ok (of_values tg vals)) as [m Hmean]; [lia|].
  destruct (for_items_done tg vals fuel Hfuel)
    as (items & fb1 & Hd & Hperm & _).
  assert (Hmz : mapped st ≠ 0) by lia.
  pose proof (tag_rows_drain fuel (mapped st) _ 0%Q items fb1 Hmz Hd) as Hrows.
  assert (Hne : items ≠ []).
  { intros ->. apply Permutation_nil_l in Hperm.
    rewrite <- Hperm in Hcs. cbn in Hcs. lia. }
  destruct (cumulative_last (mapped st) items 0%Q Hne)
    as (val & count & pct & Hlast & Hpct).
  exists m, (cumulative (mapped st) 0 items), val, count, pct.
  split; [|split; [|split]].
  - unfold tag_section. by rewrite Hmean, Hrows.
  - by rewrite cumulative_items.
  - exact Hlast.
  - rewrite Hpct, (count_sum_perm _ _ Hperm), Hcs, Qplus_0_l.
    unfold Qdiv. rewrite <- Qmult_assoc, (Qmult_comm (inject_Z 100)).
    rewrite Qmult_assoc, Qmult_inv_r, Qmult_1_l; [reflexivity|].
    intros E. apply (inject_Z_injective (mapped st) 0) in E. lia.
Qed.

End TagReportFacts.

Section TagReportWitnesses.
Import BamStats StatsPass FeatureBin Tally TagReport.

Lemma report_without_mapped_witness :
  ∃ st, run no_mismatches (BamStats.init None ["NM"]) unmapped_reads
        = Py.Ok st
        ∧ mapped st = 0 ∧ 0 < total st
        ∧ tag_report 1 st = Some [Aborted Py.ZeroDivisionError].
Proof.
  assert (Hrun : ∃ st, run no_mismatches (BamStats.init None ["NM"])
                         unmapped_reads = Py.Ok st)
    by (eexists; reflexivity).
  destruct Hrun as [st Hrun]. exists st. split; [exact Hrun|].
  apply (report_without_mapped no_mismatches None "NM" [] unmapped_reads st 1
           Hrun).
  - discriminate.
  - repeat constructor.
Defined.

Lemma report_cumulative_witness :
  ∃ st, run no_mismatches (BamStats.init None ["NM:-"]) nm_reads = Py.Ok st
        ∧ 0 < mapped st
        ∧ Forall (fun fb =>
                    ∀ fuel, (length (bins fb) < fuel)%nat →
                    ∃ m rows val count pct,
                      tag_section fuel (mapped st) fb
                      = Some (Section (mkSection (tag fb) m (max fb) rows))
                      ∧ (fun r => r.1) <$> rows ≡ₚ bins fb
                      ∧ last rows = Some (val, count, pct)
                      ∧ (pct == inject_Z 100)%Q)
                 (tagbins st).
Proof.
  assert (Hrun : ∃ st, run no_mismatches (BamStats.init None ["NM:-"])
                         nm_reads = Py.Ok st ∧ 0 < mapped st)
    by (eexists; split; reflexivity).
  destruct Hrun as (st & Hrun & Hm). exists st.
  split; [exact Hrun|]. split; [exact Hm|].
  exact (report_cumulative no_mismatches None ["NM:-"] nm_reads st Hrun Hm).
Defined.

End TagReportWitnesses.
